(** * Cobbler: the inspect verification portfolio

    A shallow embedding of [internal/inspect] (the technique contract,
    the composite scorer, the mutation runner and the translation
    validator), with the properties of its specification stated over
    the embedded code.

    Conventions of the embedding.
    - Go's [float64] is the kernel's binary64 type [float]; every
      arithmetic operation rounds to nearest-even, one operation at a
      time (no fused multiply-add), as the amd64 compiler emits it.
    - Go's [string] and [[]byte] are [string] (a sequence of bytes).
      [Verdict], [Action] and [MutationType] are string types in the
      source and stay strings here, each with its named constants.
    - Every struct is a record [t] in a module of the struct's name, so
      that fields keep their source names ([TechniqueResult.Score]).
    - A method [func (s *Scorer) Score] is the function [Scorer_Score].
    - [map[string]float64] is [gmap string float]; [nil] slices are [[]].
    - The file system and whatever else the external commands can see
      is an explicit [World.t] threaded through the effectful code. *)

From Stdlib Require Import ZArith List Floats Uint63.
From stdpp Require Import gmap strings list pretty.

Set Warnings "-inexact-float,-register-all".
Open Scope string_scope.

(** ** types.go *)

Definition Verdict := string.
Definition VerdictPass : Verdict := "pass".
Definition VerdictFail : Verdict := "fail".
Definition VerdictSkip : Verdict := "skip".

Definition Action := string.
Definition ActionAccept : Action := "accept".
Definition ActionMend : Action := "mend".
Definition ActionHumanReview : Action := "human_review".

Module Evidence.
Record t := mk {
  CriterionID : string;
  FilePath : string;
  Detail : string
}.
End Evidence.

Module TechniqueResult.
Record t := mk {
  Name : string;
  Score : float;
  Verdict : Verdict;
  Evidence : list Evidence.t;
  Deterministic : bool
}.
End TechniqueResult.

Module InspectInput.
Record t := mk {
  CrumbID : string;
  WorkType : string;
  ModifiedFiles : list string;
  ModifiedPackages : list string;
  Diff : string;
  PRDCriteria : list string;
  UCCriteria : list string;
  FixtureDir : string;
  PRDRequirements : gmap string string
}.
End InspectInput.

Module CompositeResult.
Record t := mk {
  TechniqueResults : list TechniqueResult.t;
  CompositeScore : float;
  Action : Action;
  ValidScore : bool
}.
End CompositeResult.

(** An [error] value is identified by its message, as [fmt.Errorf]
    builds it; [None : option error] is Go's [nil] error. *)
Definition error := string.
Definition ErrInsufficientTechniques : error :=
  "inspect: fewer than two techniques produced results".
Definition ErrInvalidWeight : error :=
  "inspect: technique weight must be between 0.0 and 1.0".
Definition ErrNoTechniques : error :=
  "inspect: no techniques registered".

(** ** composite.go *)

Definition DefaultWeights : gmap string float :=
  <["translation_validation" := 0.30%float]>
  (<["mutation_testing" := 0.25%float]>
  (<["differential_testing" := 0.20%float]>
  (<["property_based_testing" := 0.15%float]>
  (<["contract_injection" := 0.10%float]> ∅)))).

Definition DefaultAcceptThreshold : float := 0.80%float.
Definition DefaultMendThreshold : float := 0.50%float.

Module ScorerConfig.
Record t := mk {
  Weights : gmap string float;
  AcceptThreshold : float;
  MendThreshold : float;
  MinDeterministic : float
}.
End ScorerConfig.

(** [maps.Copy] into a fresh map: the value of the copy is the value of
    [DefaultWeights]. *)
Definition DefaultScorerConfig : ScorerConfig.t :=
  {| ScorerConfig.Weights := DefaultWeights;
     ScorerConfig.AcceptThreshold := DefaultAcceptThreshold;
     ScorerConfig.MendThreshold := DefaultMendThreshold;
     ScorerConfig.MinDeterministic := 0.50%float |}.

Module Scorer.
Record t := mk { config : ScorerConfig.t }.
End Scorer.

(** [NewScorer] has a single result, the scorer: there is no error
    result and no check of the configuration. *)
Definition NewScorer (config : ScorerConfig.t) : Scorer.t :=
  {| Scorer.config := config |}.

(** Go's comparisons on [float64]: [a >= b] and [a < b] are false as
    soon as one side is NaN; [a == b] identifies [+0] and [-0]. *)
Definition fge (a b : float) : bool := PrimFloat.leb b a.
Definition flt (a b : float) : bool := PrimFloat.ltb a b.
Definition feq (a b : float) : bool := PrimFloat.eqb a b.

Definition Scorer_weightFor (s : Scorer.t) (name : string) : float :=
  match ScorerConfig.Weights (Scorer.config s) !! name with
  | Some w => w
  | None => 0.10%float
  end.

Definition Scorer_actionFor (s : Scorer.t) (score : float) : Action :=
  if fge score (ScorerConfig.AcceptThreshold (Scorer.config s)) then ActionAccept
  else if fge score (ScorerConfig.MendThreshold (Scorer.config s)) then ActionMend
  else ActionHumanReview.

(** [r.Verdict == VerdictSkip] *)
Definition isSkip (r : TechniqueResult.t) : bool :=
  String.eqb (TechniqueResult.Verdict r) VerdictSkip.

(** The [for _, r := range results] loop of [Score]; the three
    accumulators are the function's local variables. *)
Fixpoint Score_loop (s : Scorer.t) (results : list TechniqueResult.t)
    (weightedSum totalWeight : float) (scored : nat) : float * float * nat :=
  match results with
  | [] => (weightedSum, totalWeight, scored)
  | r :: rest =>
      if isSkip r then Score_loop s rest weightedSum totalWeight scored
      else
        let w := Scorer_weightFor s (TechniqueResult.Name r) in
        Score_loop s rest
          (weightedSum + TechniqueResult.Score r * w)%float
          (totalWeight + w)%float
          (S scored)
  end.

Definition Scorer_Score (s : Scorer.t) (results : list TechniqueResult.t)
    : CompositeResult.t :=
  let cr := {| CompositeResult.TechniqueResults := results;
               CompositeResult.CompositeScore := 0%float;
               CompositeResult.Action := "";
               CompositeResult.ValidScore := false |} in
  let '(weightedSum, totalWeight, scored) := Score_loop s results 0%float 0%float 0 in
  if Nat.ltb scored 2 then
    {| CompositeResult.TechniqueResults := CompositeResult.TechniqueResults cr;
       CompositeResult.CompositeScore := CompositeResult.CompositeScore cr;
       CompositeResult.Action := ActionHumanReview;
       CompositeResult.ValidScore := false |}
  else
    let c := (weightedSum / totalWeight)%float in
    {| CompositeResult.TechniqueResults := CompositeResult.TechniqueResults cr;
       CompositeResult.CompositeScore := c;
       CompositeResult.Action := Scorer_actionFor s c;
       CompositeResult.ValidScore := true |}.

(** The loop of [DeterministicWeight]. *)
Fixpoint DeterministicWeight_loop (s : Scorer.t) (results : list TechniqueResult.t)
    (deterministicWeight totalWeight : float) : float * float :=
  match results with
  | [] => (deterministicWeight, totalWeight)
  | r :: rest =>
      if isSkip r then DeterministicWeight_loop s rest deterministicWeight totalWeight
      else
        let w := Scorer_weightFor s (TechniqueResult.Name r) in
        let totalWeight := (totalWeight + w)%float in
        if TechniqueResult.Deterministic r
        then DeterministicWeight_loop s rest (deterministicWeight + w)%float totalWeight
        else DeterministicWeight_loop s rest deterministicWeight totalWeight
  end.

Definition Scorer_DeterministicWeight (s : Scorer.t) (results : list TechniqueResult.t)
    : float :=
  let '(deterministicWeight, totalWeight) :=
    DeterministicWeight_loop s results 0%float 0%float in
  if feq totalWeight 0%float then 0%float
  else (deterministicWeight / totalWeight)%float.

(** *** Vocabulary of the specification of the scorer

    These definitions follow the words of the specification, not the
    code; the theorems below relate the two. *)

(** The results that take part in the aggregation. *)
Definition nonSkip (results : list TechniqueResult.t) : list TechniqueResult.t :=
  List.filter (fun r => negb (isSkip r)) results.

(** A sum of [float64] values, taken in list order from zero. *)
Definition fsum (l : list float) : float := fold_left PrimFloat.add l 0%float.

(** "The configured weight for the technique's name; a name absent from
    the map receives the fixed default weight 0.10". *)
Definition spec_weight (cfg : ScorerConfig.t) (name : string) : float :=
  default 0.10%float (ScorerConfig.Weights cfg !! name).

(** "Sigma (score_i x weight_i) / Sigma (weight_i) over the non-skip results". *)
Definition spec_composite (cfg : ScorerConfig.t) (results : list TechniqueResult.t) : float :=
  (fsum (map (fun r => TechniqueResult.Score r * spec_weight cfg (TechniqueResult.Name r))%float
             (nonSkip results))
   / fsum (map (fun r => spec_weight cfg (TechniqueResult.Name r)) (nonSkip results)))%float.

(** "accept if composite >= accept-threshold; else mend if composite >=
    mend-threshold; else human_review". *)
Definition spec_action (cfg : ScorerConfig.t) (composite : float) : Action :=
  if fge composite (ScorerConfig.AcceptThreshold cfg) then ActionAccept
  else if fge composite (ScorerConfig.MendThreshold cfg) then ActionMend
  else ActionHumanReview.

(** The contribution and the weight of one result, as the loop of
    [Score] reads them. *)
Definition contribution (s : Scorer.t) (r : TechniqueResult.t) : float :=
  (TechniqueResult.Score r * Scorer_weightFor s (TechniqueResult.Name r))%float.
Definition weightOf (s : Scorer.t) (r : TechniqueResult.t) : float :=
  Scorer_weightFor s (TechniqueResult.Name r).

(** A [float64] that is a number in the closed interval [[0,1]]. *)
Definition in_unit_interval (x : float) : bool :=
  PrimFloat.leb 0%float x && PrimFloat.leb x 1%float.

(** ** The collaborators: strings, go/token, go/ast, os

    The functions of Go's standard library that the package calls,
    written out for the arguments the package passes. *)

Definition newline : string := String (Ascii.ascii_of_nat 10) "".

(** [strings.HasSuffix(s, suffix)] *)
Definition strings_HasSuffix (s suffix : string) : bool :=
  String.prefix (String.rev suffix) (String.rev s).

(** [strings.Split(s, sep)] for a separator of one byte: the pieces
    between the separators, always at least one piece. *)
Fixpoint split_byte (sep : Ascii.ascii) (s : string) (piece : string) : list string :=
  match s with
  | "" => [String.rev piece]
  | String c rest =>
      if Ascii.eqb c sep then String.rev piece :: split_byte sep rest ""
      else split_byte sep rest (String c piece)
  end.

Definition strings_Split_newline (s : string) : list string :=
  split_byte (Ascii.ascii_of_nat 10) s "".

(** [strings.Join(elems, sep)] *)
Definition strings_Join (elems : list string) (sep : string) : string :=
  String.concat sep elems.

(** The scan of [strings.Replace(s, old, new, 1)] for a non-empty [old]:
    the first occurrence of [old], from the left, becomes [new]. *)
Fixpoint replace_first (s old new : string) : string :=
  match s with
  | "" => ""
  | String c rest =>
      if String.prefix old s
      then new ++ String.substring (String.length old) (String.length s - String.length old) s
      else String c (replace_first rest old new)
  end.

(** [strings.Replace(s, old, new, 1)]: an empty [old] matches at the
    beginning of the string. *)
Definition strings_Replace1 (s old new : string) : string :=
  if String.eqb old new then s
  else if String.eqb old "" then new ++ s
  else replace_first s old new.

(** [go/token]: the operator tokens an expression node can carry. *)
Inductive Token :=
  | ADD | SUB | MUL | QUO | REM
  | AND | OR | XOR | SHL | SHR | AND_NOT
  | LAND | LOR | ARROW
  | EQL | LSS | GTR | NOT
  | NEQ | LEQ | GEQ | TILDE.

#[global] Instance Token_eq_dec : EqDecision Token.
Proof. solve_decision. Defined.

(** [Token.String] *)
Definition Token_String (tok : Token) : string :=
  match tok with
  | ADD => "+" | SUB => "-" | MUL => "*" | QUO => "/" | REM => "%"
  | AND => "&" | OR => "|" | XOR => "^" | SHL => "<<" | SHR => ">>"
  | AND_NOT => "&^"
  | LAND => "&&" | LOR => "||" | ARROW => "<-"
  | EQL => "==" | LSS => "<" | GTR => ">" | NOT => "!"
  | NEQ => "!=" | LEQ => "<=" | GEQ => ">=" | TILDE => "~"
  end.

(** [go/ast]: a syntax tree as the walk of [ast.Inspect] sees it.  The
    type switch of the package tells [*ast.BinaryExpr] and
    [*ast.UnaryExpr] from every other kind of node; [line] is
    [fset.Position(expr.Pos()).Line], the line the expression starts
    on. *)
Inductive Node :=
  | BinaryExpr (line : Z) (X : Node) (Op : Token) (Y : Node)
  | UnaryExpr (line : Z) (Op : Token) (X : Node)
  | OtherNode (children : list Node).

(** [ast.Inspect(n, f)] for a callback that always returns [true]:
    [f] runs on the node, then the children are walked in order.  (The
    closing call [f(nil)] matches no case of the package's switch.) *)
Fixpoint ast_Inspect {A : Type} (f : Node -> A -> A) (n : Node) (a : A) : A :=
  let a := f n a in
  match n with
  | BinaryExpr _ X _ Y => ast_Inspect f Y (ast_Inspect f X a)
  | UnaryExpr _ _ X => ast_Inspect f X a
  | OtherNode children => fold_left (fun acc c => ast_Inspect f c acc) children a
  end.

(** The machine outside the process: the bytes of every file, and
    whatever else ([ext]) the external commands read or change. *)
Module World.
Record t (Ext : Type) := mk {
  files : gmap string string;
  ext : Ext
}.
Arguments mk {Ext}.
Arguments files {Ext}.
Arguments ext {Ext}.
End World.

(** The file at [path] holds [data]; nothing else changes. *)
Definition World_store {Ext : Type} (path data : string) (w : World.t Ext) : World.t Ext :=
  {| World.files := <[path := data]> (World.files w); World.ext := World.ext w |}.

(** A read that returns the bytes on disk and fails only when there is
    no such file. *)
Definition os_ReadFile_disk {Ext : Type} (path : string) (w : World.t Ext) : option string :=
  World.files w !! path.

(** ** mutation.go *)

Definition MutationType := string.
Definition MutationOperatorReplace : MutationType := "operator_replacement".
Definition MutationConditionNegate : MutationType := "condition_negation".
Definition MutationBoundaryChange : MutationType := "boundary_change".
Definition MutationStatementDelete : MutationType := "statement_deletion".

Module Mutant.
Record t := mk {
  FilePath : string;
  Line : Z;
  Type_ : MutationType;
  Original : string;
  Mutated : string;
  Killed : bool;
  Equivalent : bool;
  KillingTest : string
}.
End Mutant.

(** [runTests] returns an error ([Some]) or [nil] ([None]) and may leave
    the world changed. *)
Module MutationRunner.
Record t (Ext : Type) := mk {
  runTests : list string -> World.t Ext -> World.t Ext * option error
}.
Arguments mk {Ext}.
Arguments runTests {Ext}.
End MutationRunner.

(** A lookup [r, ok := table[op]] in a map literal with distinct keys. *)
Fixpoint table_lookup (table : list (Token * Token)) (op : Token) : option Token :=
  match table with
  | [] => None
  | (k, v) :: rest => if decide (k = op) then Some v else table_lookup rest op
  end.

Definition operatorReplacement (op : Token) : option Token :=
  let replacements :=
    [ (ADD, SUB); (SUB, ADD);
      (MUL, QUO); (QUO, MUL);
      (EQL, NEQ); (NEQ, EQL);
      (LSS, GEQ); (GEQ, LSS);
      (GTR, LEQ); (LEQ, GTR);
      (LAND, LOR); (LOR, LAND) ] in
  table_lookup replacements op.

Definition boundaryChange (op : Token) : option Token :=
  let changes :=
    [ (LSS, LEQ); (LEQ, LSS);
      (GTR, GEQ); (GEQ, GTR) ] in
  table_lookup changes op.

(** The callback of [findMutationSites]: what one node appends to
    [mutants]. *)
Definition siteMutants (filePath : string) (n : Node) : list Mutant.t :=
  match n with
  | BinaryExpr line _ Op _ =>
      match operatorReplacement Op with
      | Some replacement =>
          [ {| Mutant.FilePath := filePath; Mutant.Line := line;
               Mutant.Type_ := MutationOperatorReplace;
               Mutant.Original := Token_String Op;
               Mutant.Mutated := Token_String replacement;
               Mutant.Killed := false; Mutant.Equivalent := false;
               Mutant.KillingTest := "" |} ]
      | None => []
      end ++
      match boundaryChange Op with
      | Some boundary =>
          [ {| Mutant.FilePath := filePath; Mutant.Line := line;
               Mutant.Type_ := MutationBoundaryChange;
               Mutant.Original := Token_String Op;
               Mutant.Mutated := Token_String boundary;
               Mutant.Killed := false; Mutant.Equivalent := false;
               Mutant.KillingTest := "" |} ]
      | None => []
      end
  | UnaryExpr line Op _ =>
      if decide (Op = NOT) then
        [ {| Mutant.FilePath := filePath; Mutant.Line := line;
             Mutant.Type_ := MutationConditionNegate;
             Mutant.Original := "!expr";
             Mutant.Mutated := "expr";
             Mutant.Killed := false; Mutant.Equivalent := false;
             Mutant.KillingTest := "" |} ]
      else []
  | OtherNode _ => []
  end.

(** The walk of [findMutationSites] over a parsed file. *)
Definition inspectSites (filePath : string) (f : Node) : list Mutant.t :=
  ast_Inspect (fun n mutants => (mutants ++ siteMutants filePath n)%list) f [].

(** [float64(n)] for a count [n]. *)
Definition float64_of_nat (n : nat) : float :=
  PrimFloat.of_uint63 (Uint63.of_Z (Z.of_nat n)).

(** The skip result both techniques return. *)
Definition skipResult (name : string) : TechniqueResult.t :=
  {| TechniqueResult.Name := name;
     TechniqueResult.Score := 0%float;
     TechniqueResult.Verdict := VerdictSkip;
     TechniqueResult.Evidence := [];
     TechniqueResult.Deterministic := true |}.

Definition MutationRunner_Name : string := "mutation_testing".
Definition MutationRunner_FaultClass : string := "test suite inadequacy".

Definition MutationRunner_Applicable (input : InspectInput.t) : bool :=
  String.eqb (InspectInput.WorkType input) "code"
  && Nat.ltb 0 (length (InspectInput.ModifiedPackages input)).

(** The second loop of [Run]: the tally over the mutants, with the
    locals [killed], [total] and [evidence]. *)
Fixpoint tally_loop (allMutants : list Mutant.t) (killed total : nat)
    (evidence : list Evidence.t) : nat * nat * list Evidence.t :=
  match allMutants with
  | [] => (killed, total, evidence)
  | mut :: rest =>
      if Mutant.Equivalent mut then tally_loop rest killed total evidence
      else if Mutant.Killed mut then tally_loop rest (S killed) (S total) evidence
      else
        tally_loop rest killed (S total)
          (evidence ++
           [ {| Evidence.CriterionID := "";
                Evidence.FilePath := Mutant.FilePath mut;
                Evidence.Detail :=
                  "surviving mutant at line " ++ pretty (Mutant.Line mut) ++ ": "
                  ++ Mutant.Original mut ++ " → " ++ Mutant.Mutated mut
                  ++ " (" ++ Mutant.Type_ mut ++ ")" |} ])%list
  end.

Module MechanicalCheck.
Record t (Ext : Type) := mk {
  CriterionID : string;
  Description : string;
  Check : InspectInput.t -> World.t Ext -> World.t Ext * bool
}.
Arguments mk {Ext}.
Arguments CriterionID {Ext}.
Arguments Description {Ext}.
Arguments Check {Ext}.
End MechanicalCheck.

(** The three injected commands of the validator; each may read and
    change the world. *)
Module TranslationValidator.
Record t (Ext : Type) := mk {
  fileExists : string -> World.t Ext -> World.t Ext * bool;
  buildCheck : list string -> World.t Ext -> World.t Ext * option error;
  testCheck : list string -> World.t Ext -> World.t Ext * option error
}.
Arguments mk {Ext}.
Arguments fileExists {Ext}.
Arguments buildCheck {Ext}.
Arguments testCheck {Ext}.
End TranslationValidator.

Definition TranslationValidator_Name : string := "translation_validation".
Definition TranslationValidator_FaultClass : string := "specification conformance errors".

Definition TranslationValidator_Applicable (input : InspectInput.t) : bool :=
  Nat.ltb 0 (length (InspectInput.PRDCriteria input))
  || Nat.ltb 0 (length (InspectInput.UCCriteria input)).

Section Effects.
Context {Ext : Type}.

(** [os.ReadFile(path)]: the bytes read, or an error ([None]). *)
Variable os_ReadFile : string -> World.t Ext -> option string.

(** [os.WriteFile(path, data, 0o644)]: the world after the call and the
    error it returned.  Nothing is assumed of a call that fails. *)
Variable os_WriteFile : string -> string -> World.t Ext -> World.t Ext * option error.

(** [parser.ParseFile(fset, path, nil, 0)]: the syntax tree of the file
    at [path], or an error ([None]). *)
Variable parser_ParseFile : string -> World.t Ext -> option Node.

Definition MutationRunner_findMutationSites (filePath : string) (w : World.t Ext)
    : option (list Mutant.t) :=
  match parser_ParseFile filePath w with
  | None => None
  | Some f => Some (inspectSites filePath f)
  end.

Definition MutationRunner_applyAndTest (m : MutationRunner.t Ext)
    (filePath : string) (line : Z) (original mutated : string)
    (packages : list string) (w : World.t Ext) : World.t Ext * bool :=
  match os_ReadFile filePath w with
  | None => (w, false)
  | Some content =>
      let lines := strings_Split_newline content in
      if (line <? 1)%Z || (Z.of_nat (length lines) <? line)%Z then (w, false)
      else
        let originalLine := nth (Z.to_nat (line - 1)) lines "" in
        let mutatedLine := strings_Replace1 originalLine original mutated in
        if String.eqb mutatedLine originalLine then (w, false)
        else
          let lines := <[Z.to_nat (line - 1) := mutatedLine]> lines in
          match os_WriteFile filePath (strings_Join lines newline) w with
          | (w, Some _) => (w, false)
          | (w, None) =>
              let '(w, err) := MutationRunner.runTests m packages w in
              let killed := bool_decide (err <> None) in
              let '(w, _) := os_WriteFile filePath content w in
              (w, killed)
          end
  end.

(** The first loop of [Run]: the sites of every candidate file. *)
Fixpoint sites_loop (files : list string) (w : World.t Ext)
    (allMutants : list Mutant.t) : list Mutant.t :=
  match files with
  | [] => allMutants
  | file :: rest =>
      if negb (strings_HasSuffix file ".go") || strings_HasSuffix file "_test.go"
      then sites_loop rest w allMutants
      else
        match MutationRunner_findMutationSites file w with
        | None => sites_loop rest w allMutants
        | Some mutants => sites_loop rest w (allMutants ++ mutants)%list
        end
  end.

(** The loop [for i := range allMutants]: one cycle per mutant, each
    on the world the previous cycle left. *)
Fixpoint apply_loop (m : MutationRunner.t Ext) (packages : list string)
    (allMutants : list Mutant.t) (w : World.t Ext) : World.t Ext * list Mutant.t :=
  match allMutants with
  | [] => (w, [])
  | mut :: rest =>
      let '(w, killed) :=
        MutationRunner_applyAndTest m (Mutant.FilePath mut) (Mutant.Line mut)
          (Mutant.Original mut) (Mutant.Mutated mut) packages w in
      let mut :=
        {| Mutant.FilePath := Mutant.FilePath mut; Mutant.Line := Mutant.Line mut;
           Mutant.Type_ := Mutant.Type_ mut; Mutant.Original := Mutant.Original mut;
           Mutant.Mutated := Mutant.Mutated mut; Mutant.Killed := killed;
           Mutant.Equivalent := Mutant.Equivalent mut;
           Mutant.KillingTest := Mutant.KillingTest mut |} in
      let '(w, rest) := apply_loop m packages rest w in
      (w, mut :: rest)
  end.

Definition MutationRunner_Run (m : MutationRunner.t Ext) (input : InspectInput.t)
    (w : World.t Ext) : World.t Ext * (TechniqueResult.t * option error) :=
  if negb (MutationRunner_Applicable input)
  then (w, (skipResult MutationRunner_Name, None))
  else
    let allMutants := sites_loop (InspectInput.ModifiedFiles input) w [] in
    if Nat.eqb (length allMutants) 0
    then (w, (skipResult MutationRunner_Name, None))
    else
      let '(w, allMutants) :=
        apply_loop m (InspectInput.ModifiedPackages input) allMutants w in
      let '(killed, total, evidence) := tally_loop allMutants 0 0 [] in
      if Nat.eqb total 0
      then (w, (skipResult MutationRunner_Name, None))
      else
        let score := (float64_of_nat killed / float64_of_nat total)%float in
        let verdict := if flt score 1%float then VerdictFail else VerdictPass in
        (w, ({| TechniqueResult.Name := MutationRunner_Name;
                TechniqueResult.Score := score;
                TechniqueResult.Verdict := verdict;
                TechniqueResult.Evidence := evidence;
                TechniqueResult.Deterministic := true |}, None)).

(** ** translation validator *)

(** The loop over [input.ModifiedFiles] in [buildChecks]; each closure
    holds the [f] of its own iteration (the loop variable is per
    iteration, as [TestTranslationValidatorFileExistenceFail] expects of
    the package). *)
Definition fileChecks (t : TranslationValidator.t Ext) (files : list string)
    : list (MechanicalCheck.t Ext) :=
  map (fun f =>
         {| MechanicalCheck.CriterionID := "file_exists";
            MechanicalCheck.Description := "file " ++ f ++ " exists";
            MechanicalCheck.Check := fun _ w => TranslationValidator.fileExists t f w |})
      files.

Definition TranslationValidator_buildChecks (t : TranslationValidator.t Ext)
    (input : InspectInput.t) : list (MechanicalCheck.t Ext) :=
  let checks := fileChecks t (InspectInput.ModifiedFiles input) in
  let checks :=
    if Nat.ltb 0 (length (InspectInput.ModifiedPackages input)) then
      (checks ++
       [ {| MechanicalCheck.CriterionID := "compilation";
            MechanicalCheck.Description := "modified packages compile";
            MechanicalCheck.Check := fun in_ w =>
              let '(w, err) :=
                TranslationValidator.buildCheck t (InspectInput.ModifiedPackages in_) w in
              (w, bool_decide (err = None)) |} ])%list
    else checks in
  let checks :=
    if Nat.ltb 0 (length (InspectInput.ModifiedPackages input)) then
      (checks ++
       [ {| MechanicalCheck.CriterionID := "tests_pass";
            MechanicalCheck.Description := "tests pass in modified packages";
            MechanicalCheck.Check := fun in_ w =>
              let '(w, err) :=
                TranslationValidator.testCheck t (InspectInput.ModifiedPackages in_) w in
              (w, bool_decide (err = None)) |} ])%list
    else checks in
  checks.

(** The loop [for _, mc := range checks] of [Run], with the locals
    [passed] and [evidence]. *)
Fixpoint checks_loop (input : InspectInput.t) (checks : list (MechanicalCheck.t Ext))
    (w : World.t Ext) (passed : nat) (evidence : list Evidence.t)
    : World.t Ext * nat * list Evidence.t :=
  match checks with
  | [] => (w, passed, evidence)
  | mc :: rest =>
      let '(w, ok) := MechanicalCheck.Check mc input w in
      if ok then
        checks_loop input rest w (S passed)
          (evidence ++
           [ {| Evidence.CriterionID := MechanicalCheck.CriterionID mc;
                Evidence.FilePath := "";
                Evidence.Detail := "passed: " ++ MechanicalCheck.Description mc |} ])%list
      else
        checks_loop input rest w passed
          (evidence ++
           [ {| Evidence.CriterionID := MechanicalCheck.CriterionID mc;
                Evidence.FilePath := "";
                Evidence.Detail := "failed: " ++ MechanicalCheck.Description mc |} ])%list
  end.

Definition TranslationValidator_Run (t : TranslationValidator.t Ext)
    (input : InspectInput.t) (w : World.t Ext)
    : World.t Ext * (TechniqueResult.t * option error) :=
  if negb (TranslationValidator_Applicable input)
  then (w, (skipResult TranslationValidator_Name, None))
  else
    let checks := TranslationValidator_buildChecks t input in
    if Nat.eqb (length checks) 0
    then (w, (skipResult TranslationValidator_Name, None))
    else
      let '(w, passed, evidence) := checks_loop input checks w 0 [] in
      let score := (float64_of_nat passed / float64_of_nat (length checks))%float in
      let verdict := if Nat.ltb passed (length checks) then VerdictFail else VerdictPass in
      (w, ({| TechniqueResult.Name := TranslationValidator_Name;
              TechniqueResult.Score := score;
              TechniqueResult.Verdict := verdict;
              TechniqueResult.Evidence := evidence;
              TechniqueResult.Deterministic := true |}, None)).

End Effects.

(** *** Vocabulary of the specification of the mutation runner *)

(** The nodes of a syntax tree in the order the walk visits them. *)
Fixpoint nodes (n : Node) : list Node :=
  n :: match n with
       | BinaryExpr _ X _ Y => nodes X ++ nodes Y
       | UnaryExpr _ _ X => nodes X
       | OtherNode children => flat_map nodes children
       end%list.

(** "+<->-, *<->/, ==<->!=, <<->>=, ><-><=, &&<->||". *)
Definition spec_replacement (op : Token) : option Token :=
  match op with
  | ADD => Some SUB | SUB => Some ADD
  | MUL => Some QUO | QUO => Some MUL
  | EQL => Some NEQ | NEQ => Some EQL
  | LSS => Some GEQ | GEQ => Some LSS
  | GTR => Some LEQ | LEQ => Some GTR
  | LAND => Some LOR | LOR => Some LAND
  | _ => None
  end.

(** "<<-><=, ><->>=". *)
Definition spec_boundary (op : Token) : option Token :=
  match op with
  | LSS => Some LEQ | LEQ => Some LSS
  | GTR => Some GEQ | GEQ => Some GTR
  | _ => None
  end.

(** A mutant as site discovery records it: not yet killed, not
    equivalent, no killing test. *)
Definition siteMutant (filePath : string) (line : Z) (type : MutationType)
    (original mutated : string) : Mutant.t :=
  {| Mutant.FilePath := filePath; Mutant.Line := line; Mutant.Type_ := type;
     Mutant.Original := original; Mutant.Mutated := mutated;
     Mutant.Killed := false; Mutant.Equivalent := false; Mutant.KillingTest := "" |}.

(** The mutants the taxonomy gives one node: for a binary expression
    one operator replacement if the operator has a paired opposite, and
    independently one boundary change if it is relational; for a unary
    logical-not one condition negation; nothing else. *)
Definition spec_siteMutants (filePath : string) (n : Node) : list Mutant.t :=
  match n with
  | BinaryExpr line _ op _ =>
      (match spec_replacement op with
       | Some r => [siteMutant filePath line MutationOperatorReplace
                      (Token_String op) (Token_String r)]
       | None => []
       end ++
       match spec_boundary op with
       | Some b => [siteMutant filePath line MutationBoundaryChange
                      (Token_String op) (Token_String b)]
       | None => []
       end)%list
  | UnaryExpr line NOT _ =>
      [siteMutant filePath line MutationConditionNegate "!expr" "expr"]
  | _ => []
  end.

(** A candidate file of [Run]: a Go source file that is not a test
    file. *)
Definition qualifies (file : string) : bool :=
  strings_HasSuffix file ".go" && negb (strings_HasSuffix file "_test.go").

(** The denominator of the adequacy score: the mutants not flagged
    equivalent. *)
Definition nonEquivalentTotal (allMutants : list Mutant.t) : nat :=
  length (List.filter (fun mut => negb (Mutant.Equivalent mut)) allMutants).

(** ** [float64] as numbers

    The definitions through which the arithmetic of [SpecFloat] on
    non-negative numbers is read: values as integers in units of the
    least positive [float64], and the rounding to nearest-even that
    [binary_round_aux] performs. *)

Section FloatValues.
Local Open Scope Z_scope.

Local Abbreviation fexp := (SpecFloat.fexp prec emax).

(** A shift record [(m, r, s)] locates the quotient [A / D]: [m] is its
    integer part, [r] says whether the remainder reaches one half, [s]
    whether it differs from both zero and one half. *)
Definition locates (A D : Z) (mrs : shr_record) : Prop :=
  0 < D /\ 0 <= A /\ shr_m mrs = A / D
  /\ (shr_r mrs = true <-> D <= 2 * (A mod D))
  /\ (shr_s mrs = true <-> A mod D <> 0 /\ 2 * (A mod D) <> D).

(** Round to nearest, ties to even, of the quotient [A / D]. *)
Definition rne (A D : Z) : Z :=
  let q := A / D in
  let rem := A mod D in
  if D <? 2 * rem then q + 1
  else if 2 * rem =? D then (if Z.even q then q else q + 1)
  else q.

(** What [binary_round_aux] computes on a non-negative located value:
    a first shift to the exponent of the format, the rounding to
    nearest-even, a second shift for the carry, the overflow test. *)
Definition round_located (A D M E : Z) : spec_float :=
  let n := Z.max (fexp (Zdigits2 M + E) - E) 0 in
  let M1 := rne A (2 ^ n * D) in
  let e1 := E + n in
  let n2 := Z.max (fexp (Zdigits2 M1 + e1) - e1) 0 in
  match M1 / 2 ^ n2 with
  | Z0 => S754_zero false
  | Zpos m => if (e1 + n2 <=? emax - prec) then S754_finite false m (e1 + n2)
              else S754_infinity false
  | Zneg _ => S754_nan
  end.

(** The value of a non-negative float, in units of [2^-1074], the least
    positive [float64]. *)
Definition sval (x : spec_float) : Z :=
  match x with
  | S754_finite _ m e => Zpos m * 2 ^ (e + 1074)
  | _ => 0
  end.

(** Zero of either sign, or a positive finite number. *)
Definition nonneg (x : spec_float) : bool :=
  match x with
  | S754_zero _ => true
  | S754_finite s _ _ => negb s
  | _ => false
  end.

(** The rounding of a non-negative integer value to the [float64]
    grid: at most 53 significant bits, nearest-even. *)
Definition Rnd (N : Z) : Z :=
  let t := Z.max (Zdigits2 N - 53) 0 in
  rne N (2 ^ t) * 2 ^ t.

(** A [float64] that is zero or a positive finite number, and its
    value. *)
Definition fnonneg (f : float) : bool := nonneg (Prim2SF f).
Definition fval (f : float) : Z := sval (Prim2SF f).

End FloatValues.

(** Every configured weight is a number in [[0,1]]. *)
Definition weights_in_range (cfg : ScorerConfig.t) : Prop :=
  map_Forall (fun _ w => in_unit_interval w = true) (ScorerConfig.Weights cfg).

(** The state of two running sums of which the first never exceeds the
    second: both are non-negative numbers, and the second is at most
    [2^53]. *)
Definition sums_ok (a b : float) : Prop :=
  fnonneg a = true /\ fnonneg b = true
  /\ (fval a <= fval b /\ fval b <= 2 ^ 53 * 2 ^ 1074)%Z.

(** ** Inputs taken from the package's tests

    Concrete configurations and result lists on which the theorems
    below are run. *)

(** [TestScorerAcceptAction] *)
Definition test_three_pass : list TechniqueResult.t :=
  [ TechniqueResult.mk "translation_validation" 0.90%float VerdictPass [] false;
    TechniqueResult.mk "mutation_testing" 0.85%float VerdictPass [] true;
    TechniqueResult.mk "differential_testing" 0.80%float VerdictPass [] true ].

(** [TestScorerMendAction] *)
Definition test_two_fail : list TechniqueResult.t :=
  [ TechniqueResult.mk "translation_validation" 0.60%float VerdictFail [] false;
    TechniqueResult.mk "mutation_testing" 0.70%float VerdictFail [] true ].

(** [TestScorerInvalidWithFewerThanTwo], "one pass one skip" *)
Definition test_one_pass_one_skip : list TechniqueResult.t :=
  [ TechniqueResult.mk "mutation_testing" 0.90%float VerdictPass [] true;
    TechniqueResult.mk "differential_testing" 0%float VerdictSkip [] true ].

(** [TestScorerInvalidWithFewerThanTwo], "all skip" *)
Definition test_all_skip : list TechniqueResult.t :=
  [ TechniqueResult.mk "mutation_testing" 0%float VerdictSkip [] true;
    TechniqueResult.mk "differential_testing" 0%float VerdictSkip [] true ].

(** The configuration of [TestScorerCustomWeights] with both weights
    set to zero: every weight is within [[0,1]]. *)
Definition zeroWeightsConfig : ScorerConfig.t :=
  {| ScorerConfig.Weights :=
       <["translation_validation" := 0%float]>
       (<["mutation_testing" := 0%float]> ∅);
     ScorerConfig.AcceptThreshold := 0.80%float;
     ScorerConfig.MendThreshold := 0.50%float;
     ScorerConfig.MinDeterministic := 0.50%float |}.

(** The configuration of [TestScorerCustomWeights] with one weight
    below zero. *)
Definition negativeWeightConfig : ScorerConfig.t :=
  {| ScorerConfig.Weights :=
       <["translation_validation" := (-0.50)%float]>
       (<["mutation_testing" := 1%float]> ∅);
     ScorerConfig.AcceptThreshold := 0.80%float;
     ScorerConfig.MendThreshold := 0.50%float;
     ScorerConfig.MinDeterministic := 0.50%float |}.

Definition test_zero_and_one : list TechniqueResult.t :=
  [ TechniqueResult.mk "translation_validation" 0%float VerdictFail [] false;
    TechniqueResult.mk "mutation_testing" 1%float VerdictPass [] true ].

(** A disk on which every write succeeds. *)
Definition os_WriteFile_ok : string -> string -> World.t unit -> World.t unit * option error :=
  fun path data w => (World_store path data w, None).

(** A disk that has become read-only for the bytes [refused]: writing
    them fails and leaves the file as it is. *)
Definition os_WriteFile_refusing (refused : string)
    : string -> string -> World.t unit -> World.t unit * option error :=
  fun path data w =>
    if String.eqb data refused then (w, Some "open calc.go: permission denied")
    else (World_store path data w, None).

Definition calc_go : string :=
  "package calc" ++ newline ++ "func Sum(a, b int) int { return a + b }" ++ newline.

Definition calc_go_mutated : string :=
  "package calc" ++ newline ++ "func Sum(a, b int) int { return a - b }" ++ newline.

Definition calc_world : World.t unit :=
  {| World.files := <["calc.go" := calc_go]> ∅; World.ext := tt |}.

(** A test command that inspects nothing and fails: every mutant it is
    run on counts as killed. *)
Definition failing_tests : MutationRunner.t unit :=
  {| MutationRunner.runTests := fun _ w => (w, Some "tests failed") |}.

(** A test command that always passes: every mutant survives. *)
Definition passing_tests : MutationRunner.t unit :=
  {| MutationRunner.runTests := fun _ w => (w, None) |}.

(** The tree of [func Sum(a, b int) int { return a + b }] on line 2. *)
Definition calc_tree : Node :=
  OtherNode [ OtherNode []; OtherNode [ OtherNode [ BinaryExpr 2 (OtherNode []) ADD (OtherNode []) ] ] ].

Definition calc_parser : string -> World.t unit -> option Node :=
  fun path w => if String.eqb path "calc.go" then Some calc_tree else None.

(** The validator of [TestTranslationValidatorEvidenceRecorded]: only
    [exists.go] is on disk; build and tests succeed. *)
Definition test_validator : TranslationValidator.t unit :=
  {| TranslationValidator.fileExists := fun path w => (w, String.eqb path "exists.go");
     TranslationValidator.buildCheck := fun _ w => (w, None);
     TranslationValidator.testCheck := fun _ w => (w, None) |}.

(** The input of [TestTranslationValidatorEvidenceRecorded]. *)
Definition input_two_files : InspectInput.t :=
  {| InspectInput.CrumbID := "test-1";
     InspectInput.WorkType := "";
     InspectInput.ModifiedFiles := ["exists.go"; "missing.go"];
     InspectInput.ModifiedPackages := [];
     InspectInput.Diff := "";
     InspectInput.PRDCriteria := ["Files present"];
     InspectInput.UCCriteria := [];
     InspectInput.FixtureDir := "";
     InspectInput.PRDRequirements := ∅ |}.

(** A code change that touched a test file and a document only, with no
    criteria attached. *)
Definition input_no_candidates : InspectInput.t :=
  {| InspectInput.CrumbID := "test-2";
     InspectInput.WorkType := "code";
     InspectInput.ModifiedFiles := ["calc_test.go"; "README.md"];
     InspectInput.ModifiedPackages := ["./calc"];
     InspectInput.Diff := "";
     InspectInput.PRDCriteria := [];
     InspectInput.UCCriteria := [];
     InspectInput.FixtureDir := "";
     InspectInput.PRDRequirements := ∅ |}.

(** A code change to [calc.go] and its test file. *)
Definition input_calc : InspectInput.t :=
  {| InspectInput.CrumbID := "test-3";
     InspectInput.WorkType := "code";
     InspectInput.ModifiedFiles := ["calc.go"; "calc_test.go"];
     InspectInput.ModifiedPackages := ["./calc"];
     InspectInput.Diff := "";
     InspectInput.PRDCriteria := [];
     InspectInput.UCCriteria := [];
     InspectInput.FixtureDir := "";
     InspectInput.PRDRequirements := ∅ |}.

(** The tree of [if a < b { return a + b }; return a - b], all on
    line 1: the statements of the body, the condition walked before the
    branch. *)
Definition scenario_tree : Node :=
  OtherNode
    [ OtherNode [ BinaryExpr 1 (OtherNode []) LSS (OtherNode []);
                  OtherNode [ OtherNode [ BinaryExpr 1 (OtherNode []) ADD (OtherNode []) ] ] ];
      OtherNode [ BinaryExpr 1 (OtherNode []) SUB (OtherNode []) ] ].

(** ** The order of all [float64] values *)

Section FloatKeys.
Local Open Scope Z_scope.

(** The place of a float that is not a NaN in the order of [float64]:
    its signed value in units of [2^-1074], the two infinities beyond
    every finite value. *)
Definition okey (x : spec_float) : Z :=
  match x with
  | S754_zero _ => 0
  | S754_infinity s => if s then - 2 ^ 2200 else 2 ^ 2200
  | S754_nan => 0
  | S754_finite s m e =>
      if s then - (Zpos m * 2 ^ (e + 1074)) else Zpos m * 2 ^ (e + 1074)
  end.

Definition not_nan (x : spec_float) : bool :=
  match x with S754_nan => false | _ => true end.

End FloatKeys.

(** ** Further inputs for the scorer *)

(** Two results with the verdict skip around one scored result. *)
Definition test_skips_around : list TechniqueResult.t :=
  [ TechniqueResult.mk "differential_testing" 0.25%float VerdictSkip [] false;
    TechniqueResult.mk "translation_validation" 0.60%float VerdictFail [] false;
    TechniqueResult.mk "property_based_testing" 1%float VerdictSkip [] true;
    TechniqueResult.mk "mutation_testing" 0.70%float VerdictFail [] true ].

(** The default configuration with another minimum for the
    deterministic fraction. *)
Definition strictDeterministicConfig : ScorerConfig.t :=
  {| ScorerConfig.Weights := DefaultWeights;
     ScorerConfig.AcceptThreshold := DefaultAcceptThreshold;
     ScorerConfig.MendThreshold := DefaultMendThreshold;
     ScorerConfig.MinDeterministic := 1%float |}.

(** [TestScorerAcceptAction] with every score at 1.0, and with every
    score at 0.0. *)
Definition test_all_ones : list TechniqueResult.t :=
  [ TechniqueResult.mk "translation_validation" 1%float VerdictPass [] true;
    TechniqueResult.mk "mutation_testing" 1%float VerdictPass [] true;
    TechniqueResult.mk "differential_testing" 1%float VerdictPass [] true ].

Definition test_all_zeros : list TechniqueResult.t :=
  [ TechniqueResult.mk "translation_validation" 0%float VerdictFail [] false;
    TechniqueResult.mk "mutation_testing" 0%float VerdictFail [] false ].

(** ** Vocabulary of the cycles and the sites of a run *)

(** [strings.Contains(s, substr)].  The package does not call it; the
    properties of [applyAndTest] are stated with it. *)
Fixpoint strings_Contains (s substr : string) : bool :=
  String.prefix substr s ||
  match s with
  | "" => false
  | String _ rest => strings_Contains rest substr
  end.

(** The evidence entry [Run] appends for a mutant that survived. *)
Definition survivorEvidence (mut : Mutant.t) : Evidence.t :=
  {| Evidence.CriterionID := "";
     Evidence.FilePath := Mutant.FilePath mut;
     Evidence.Detail :=
       "surviving mutant at line " ++ pretty (Mutant.Line mut) ++ ": "
       ++ Mutant.Original mut ++ " → " ++ Mutant.Mutated mut
       ++ " (" ++ Mutant.Type_ mut ++ ")" |}.

(** The assignment [allMutants[i].Killed = killed]. *)
Definition Mutant_setKilled (mut : Mutant.t) (killed : bool) : Mutant.t :=
  {| Mutant.FilePath := Mutant.FilePath mut; Mutant.Line := Mutant.Line mut;
     Mutant.Type_ := Mutant.Type_ mut; Mutant.Original := Mutant.Original mut;
     Mutant.Mutated := Mutant.Mutated mut; Mutant.Killed := killed;
     Mutant.Equivalent := Mutant.Equivalent mut;
     Mutant.KillingTest := Mutant.KillingTest mut |}.

(** What one modified file adds to [allMutants] in the first loop of
    [Run]: its sites if it is a candidate and parses, nothing
    otherwise. *)
Definition candidateSites {Ext : Type} (parser_ParseFile : string -> World.t Ext -> option Node)
    (w : World.t Ext) (file : string) : list Mutant.t :=
  if qualifies file
  then default [] (MutationRunner_findMutationSites parser_ParseFile file w)
  else [].


(** The properties every mutant has when site discovery returns it. *)
Definition freshSite (filePath : string) (mut : Mutant.t) : Prop :=
  Mutant.FilePath mut = filePath
  /\ Mutant.Killed mut = false /\ Mutant.Equivalent mut = false
  /\ Mutant.KillingTest mut = ""
  /\ Mutant.Type_ mut ∈ [MutationOperatorReplace; MutationConditionNegate; MutationBoundaryChange]
  /\ Mutant.Type_ mut <> MutationStatementDelete
  /\ Mutant.Original mut <> Mutant.Mutated mut
  /\ Mutant.Original mut <> "".

(** [guard.go]: a function whose body negates its argument, on line 2. *)
Definition guard_go : string :=
  "package guard" ++ newline ++ "func Open(done bool) bool { return !done }" ++ newline.

Definition guard_world : World.t unit :=
  {| World.files := <["guard.go" := guard_go]> ∅; World.ext := tt |}.




(** A test command that fails as soon as [calc.go] differs from the
    original: it kills every mutant that was applied to that file. *)
Definition calc_tests : MutationRunner.t unit :=
  {| MutationRunner.runTests := fun _ w =>
       if bool_decide (World.files w !! "calc.go" = Some calc_go)
       then (w, None) else (w, Some "FAIL ./calc") |}.

(** A disk on which a write changes the named file only, and may fail
    for the file [locked]. *)
Definition os_WriteFile_locking (locked : string)
    : string -> string -> World.t unit -> World.t unit * option error :=
  fun path data w =>
    if String.eqb path locked then (w, Some "permission denied")
    else (World_store path data w, None).

(** [calc.go] with its test file and a document beside it. *)
Definition project_world : World.t unit :=
  {| World.files :=
       <["calc.go" := calc_go]>
       (<["calc_test.go" := "package calc"]>
       (<["README.md" := "a + b"]> ∅));
     World.ext := tt |}.

(** ** Vocabulary of the translation validator *)

(** The evidence entry [Run] appends for one check and its outcome. *)
Definition checkEvidence {Ext : Type} (mc : MechanicalCheck.t Ext) (ok : bool) : Evidence.t :=
  {| Evidence.CriterionID := MechanicalCheck.CriterionID mc;
     Evidence.FilePath := "";
     Evidence.Detail :=
       (if ok then "passed: " else "failed: ") ++ MechanicalCheck.Description mc |}.

(** The outcomes of the checks, each run on the world the previous one
    left. *)
Fixpoint checkOutcomes {Ext : Type} (input : InspectInput.t)
    (checks : list (MechanicalCheck.t Ext)) (w : World.t Ext) : list bool :=
  match checks with
  | [] => []
  | mc :: rest =>
      let '(w, ok) := MechanicalCheck.Check mc input w in
      ok :: checkOutcomes input rest w
  end.

(** The world after the checks. *)
Fixpoint checkWorld {Ext : Type} (input : InspectInput.t)
    (checks : list (MechanicalCheck.t Ext)) (w : World.t Ext) : World.t Ext :=
  match checks with
  | [] => w
  | mc :: rest => checkWorld input rest (fst (MechanicalCheck.Check mc input w))
  end.

(** A validator whose build fails and whose tests pass. *)
Definition broken_build_validator : TranslationValidator.t unit :=
  {| TranslationValidator.fileExists := fun path w => (w, true);
     TranslationValidator.buildCheck := fun _ w => (w, Some "build failed");
     TranslationValidator.testCheck := fun _ w => (w, None) |}.

(** The input of [TestTranslationValidatorCompilationAndTests]. *)
Definition input_main_pkg : InspectInput.t :=
  {| InspectInput.CrumbID := "test-5";
     InspectInput.WorkType := "code";
     InspectInput.ModifiedFiles := ["main.go"];
     InspectInput.ModifiedPackages := ["./cmd/..."];
     InspectInput.Diff := "";
     InspectInput.PRDCriteria := ["Compiles and tests pass"];
     InspectInput.UCCriteria := [];
     InspectInput.FixtureDir := "";
     InspectInput.PRDRequirements := ∅ |}.

(** The same change under other criteria, another crumb and another
    work type. *)
Definition input_main_pkg_other : InspectInput.t :=
  {| InspectInput.CrumbID := "test-6";
     InspectInput.WorkType := "docs";
     InspectInput.ModifiedFiles := ["main.go"];
     InspectInput.ModifiedPackages := ["./cmd/..."];
     InspectInput.Diff := "+ func main() {}";
     InspectInput.PRDCriteria := [];
     InspectInput.UCCriteria := ["The binary prints a greeting"; "Exit code is 0"];
     InspectInput.FixtureDir := "benchmarks/hello-world";
     InspectInput.PRDRequirements := <["R2.1" := "Output matches the criteria"]> ∅ |}.

(** ** The contract of a technique *)

(** A documentation change with a criterion attached. *)
Definition input_docs : InspectInput.t :=
  {| InspectInput.CrumbID := "test-7";
     InspectInput.WorkType := "docs";
     InspectInput.ModifiedFiles := ["exists.go"];
     InspectInput.ModifiedPackages := ["./calc"];
     InspectInput.Diff := "";
     InspectInput.PRDCriteria := ["Files present"];
     InspectInput.UCCriteria := [];
     InspectInput.FixtureDir := "";
     InspectInput.PRDRequirements := ∅ |}.

(** A code change to [calc.go] with a criterion attached. *)
Definition input_calc_criteria : InspectInput.t :=
  {| InspectInput.CrumbID := "test-8";
     InspectInput.WorkType := "code";
     InspectInput.ModifiedFiles := ["calc.go"];
     InspectInput.ModifiedPackages := ["./calc"];
     InspectInput.Diff := "";
     InspectInput.PRDCriteria := ["Sum adds"];
     InspectInput.UCCriteria := [];
     InspectInput.FixtureDir := "";
     InspectInput.PRDRequirements := ∅ |}.

(** What a caller of [Technique.Run] can rely on: no error, the name of
    the technique, the deterministic flag, one of the three verdicts,
    and a skip that carries neither score nor evidence. *)
Definition wellFormedResult (name : string) (out : TechniqueResult.t * option error) : Prop :=
  snd out = None
  /\ TechniqueResult.Name (fst out) = name
  /\ TechniqueResult.Deterministic (fst out) = true
  /\ (TechniqueResult.Verdict (fst out) = VerdictSkip
      \/ TechniqueResult.Verdict (fst out) = VerdictPass
      \/ TechniqueResult.Verdict (fst out) = VerdictFail)
  /\ (TechniqueResult.Verdict (fst out) = VerdictSkip ->
      TechniqueResult.Score (fst out) = 0%float /\ TechniqueResult.Evidence (fst out) = []).

(** ** internal/crumbs: cupboard.go

    The wrapper around the crumbs cupboard.  The backend lives in
    another module; the wrapper is embedded over its interface. *)

(** An [error] of this package with its chain: [fmt.Errorf] without
    [%w] builds a plain error, with one [%w] an error that wraps its
    operand ([errors.Unwrap] returns it). *)
Inductive goerror :=
  | errorString (s : string)
  | wrapError (msg : string) (err : goerror).

#[global] Instance goerror_eq_dec : EqDecision goerror.
Proof. solve_decision. Defined.

(** [err.Error()] *)
Definition goerror_Error (e : goerror) : string :=
  match e with
  | errorString s => s
  | wrapError msg _ => msg
  end.

(** [errors.Unwrap(err)] *)
Definition errors_Unwrap (e : goerror) : option goerror :=
  match e with
  | errorString _ => None
  | wrapError _ err => Some err
  end.

(** [errors.Is(err, target)]: [target] is [err] or is in its chain. *)
Fixpoint errors_Is (e target : goerror) : bool :=
  bool_decide (e = target) ||
  match e with
  | errorString _ => false
  | wrapError _ err => errors_Is err target
  end.

(** [fmt.Errorf("%w: " + detail, sentinel)] *)
Definition fmt_Errorf_wrap (sentinel : goerror) (detail : string) : goerror :=
  wrapError (goerror_Error sentinel ++ ": " ++ detail) sentinel.

Definition DefaultDataDir : string := ".crumbs".

Definition ErrCupboardInit : goerror := errorString "cobbler: cupboard initialization failed".
Definition ErrCupboardAttach : goerror := errorString "cobbler: cupboard attach failed".
Definition ErrTableAccess : goerror := errorString "cobbler: table access failed".
Definition ErrCrumbGet : goerror := errorString "cobbler: crumb get failed".
Definition ErrCrumbSet : goerror := errorString "cobbler: crumb set failed".
Definition ErrCrumbFetch : goerror := errorString "cobbler: crumb fetch failed".

(** [types.Config] *)
Module Config.
Record t := mk {
  Backend : string;
  DataDir : string
}.
End Config.

(** What the wrapper uses of the crumbs module: the two constants, the
    backend behind [types.Cupboard], its tables, and the dynamic type
    of an entity.  [DB] is the state of the store; every call may
    change it. *)
Class CrumbsModule (DB : Type) := {
  types_BackendSQLite : string;
  types_CrumbsTable : string;
  (** the value behind [types.Cupboard], a [types.Table], an entity
      ([any]), a [*types.Crumb], a filter ([map[string]any]) *)
  Backend : Type;
  Table : Type;
  Entity : Type;
  Crumb : Type;
  Filter : Type;
  (** the type assertion of an entity to [*types.Crumb], and the [%T]
      of an entity *)
  asCrumb : Entity -> option Crumb;
  typeName : Entity -> string;
  (** a [*types.Crumb] passed as [any] *)
  ofCrumb : Crumb -> Entity;
  sqlite_NewBackend : DB -> DB * Backend;
  Backend_Attach : Backend -> Config.t -> DB -> DB * option goerror;
  Backend_Detach : Backend -> DB -> DB * option goerror;
  Backend_GetTable : Backend -> string -> DB -> DB * (Table + goerror);
  Table_Get : Table -> string -> DB -> DB * (Entity + goerror);
  Table_Set : Table -> string -> Entity -> DB -> DB * (string + goerror);
  Table_Fetch : Table -> Filter -> DB -> DB * (list Entity + goerror)
}.

(** [Cupboard]; a [nil] backend is [None]. *)
Module Cupboard.
Record t (Backend : Type) := mk {
  backend : option Backend;
  dataDir : string
}.
Arguments mk {Backend}.
Arguments backend {Backend}.
Arguments dataDir {Backend}.
End Cupboard.

Section CupboardMethods.
Context {DB : Type} {module : CrumbsModule DB}.

(** A call either returns, with the state it left, or panics (a
    method called on a [nil] backend). *)
Definition call (A : Type) : Type := option (DB * A).

Definition NewCupboard (dataDir : string) (db : DB)
    : DB * (option (Cupboard.t Backend) * option goerror) :=
  let dataDir := if String.eqb dataDir "" then DefaultDataDir else dataDir in
  let '(db, backend) := sqlite_NewBackend db in
  let config := {| Config.Backend := types_BackendSQLite; Config.DataDir := dataDir |} in
  match Backend_Attach backend config db with
  | (db, Some err) =>
      (db, (None, Some (fmt_Errorf_wrap ErrCupboardAttach (goerror_Error err))))
  | (db, None) =>
      (db, (Some {| Cupboard.backend := Some backend; Cupboard.dataDir := dataDir |}, None))
  end.

Definition Cupboard_Close (c : Cupboard.t Backend) (db : DB) : call (option goerror) :=
  match Cupboard.backend c with
  | None => Some (db, None)
  | Some backend => Some (Backend_Detach backend db)
  end.

Definition Cupboard_GetCrumb (c : Cupboard.t Backend) (id : string) (db : DB)
    : call (Crumb + goerror) :=
  match Cupboard.backend c with
  | None => None
  | Some backend =>
      match Backend_GetTable backend types_CrumbsTable db with
      | (db, inr err) => Some (db, inr (fmt_Errorf_wrap ErrTableAccess (goerror_Error err)))
      | (db, inl table) =>
          match Table_Get table id db with
          | (db, inr err) => Some (db, inr (fmt_Errorf_wrap ErrCrumbGet (goerror_Error err)))
          | (db, inl entity) =>
              match asCrumb entity with
              | None =>
                  Some (db, inr (fmt_Errorf_wrap ErrCrumbGet
                                   ("unexpected type " ++ typeName entity)))
              | Some crumb => Some (db, inl crumb)
              end
          end
      end
  end.

Definition Cupboard_SetCrumb (c : Cupboard.t Backend) (id : string) (crumb : Crumb) (db : DB)
    : call (string + goerror) :=
  match Cupboard.backend c with
  | None => None
  | Some backend =>
      match Backend_GetTable backend types_CrumbsTable db with
      | (db, inr err) => Some (db, inr (fmt_Errorf_wrap ErrTableAccess (goerror_Error err)))
      | (db, inl table) =>
          match Table_Set table id (ofCrumb crumb) db with
          | (db, inr err) => Some (db, inr (fmt_Errorf_wrap ErrCrumbSet (goerror_Error err)))
          | (db, inl actualID) => Some (db, inl actualID)
          end
      end
  end.

(** The loop of [FetchCrumbs] over the entities, with the local
    [crumbs]. *)
Fixpoint FetchCrumbs_loop (entities : list Entity) (crumbs : list Crumb)
    : list Crumb + goerror :=
  match entities with
  | [] => inl crumbs
  | entity :: rest =>
      match asCrumb entity with
      | None =>
          inr (fmt_Errorf_wrap ErrCrumbFetch
                 ("unexpected type " ++ typeName entity ++ " in results"))
      | Some crumb => FetchCrumbs_loop rest (crumbs ++ [crumb])
      end
  end.

Definition Cupboard_FetchCrumbs (c : Cupboard.t Backend) (filter : Filter) (db : DB)
    : call (list Crumb + goerror) :=
  match Cupboard.backend c with
  | None => None
  | Some backend =>
      match Backend_GetTable backend types_CrumbsTable db with
      | (db, inr err) => Some (db, inr (fmt_Errorf_wrap ErrTableAccess (goerror_Error err)))
      | (db, inl table) =>
          match Table_Fetch table filter db with
          | (db, inr err) => Some (db, inr (fmt_Errorf_wrap ErrCrumbFetch (goerror_Error err)))
          | (db, inl entities) => Some (db, FetchCrumbs_loop entities [])
          end
      end
  end.

Definition Cupboard_GetTable (c : Cupboard.t Backend) (name : string) (db : DB)
    : call (Table + goerror) :=
  match Cupboard.backend c with
  | None => None
  | Some backend => Some (Backend_GetTable backend name db)
  end.

Definition Cupboard_DataDir (c : Cupboard.t Backend) : string := Cupboard.dataDir c.

End CupboardMethods.

(** The five sentinels a method of the wrapper can wrap. *)
Definition sentinels : list goerror :=
  [ErrCupboardAttach; ErrTableAccess; ErrCrumbGet; ErrCrumbSet; ErrCrumbFetch].

(** An error that wraps the sentinel [S] and no other: [S] is what
    [errors.Unwrap] returns and what [errors.Is] finds, no other
    sentinel of the package is in the chain, and the message is the
    message of [S], a colon, and a detail. *)
Definition wrapsExactly (e S : goerror) : Prop :=
  errors_Unwrap e = Some S
  /\ errors_Is e S = true
  /\ (forall S', S' ∈ ErrCupboardInit :: sentinels -> S' <> S -> errors_Is e S' = false)
  /\ exists detail, goerror_Error e = goerror_Error S ++ ": " ++ detail.

(** A store in memory standing for the SQLite backend: named rows that
    are crumbs or stashes, one table per name, and a flag for the
    attachment. *)
Inductive MemEntity :=
  | aCrumb (name : string)
  | aStash (name : string).

Module MemDB.
Record t := mk {
  attached : bool;
  rows : list (string * MemEntity)
}.
End MemDB.

Fixpoint mem_lookup (rows : list (string * MemEntity)) (id : string) : option MemEntity :=
  match rows with
  | [] => None
  | (k, v) :: rest => if String.eqb k id then Some v else mem_lookup rest id
  end.

#[global] Instance memory_module : CrumbsModule MemDB.t := {|
  types_BackendSQLite := "sqlite";
  types_CrumbsTable := "crumbs";
  Backend := unit;
  Table := string;
  Entity := MemEntity;
  Crumb := string;
  Filter := unit;
  asCrumb := fun e => match e with aCrumb n => Some n | aStash _ => None end;
  typeName := fun e => match e with aCrumb _ => "*types.Crumb" | aStash _ => "*types.Stash" end;
  ofCrumb := aCrumb;
  sqlite_NewBackend := fun db => (db, tt);
  Backend_Attach := fun _ config db =>
    if String.eqb (Config.DataDir config) "/proc"
    then (db, Some (errorString "unable to open database file"))
    else ({| MemDB.attached := true; MemDB.rows := MemDB.rows db |}, None);
  Backend_Detach := fun _ db =>
    ({| MemDB.attached := false; MemDB.rows := MemDB.rows db |}, None);
  Backend_GetTable := fun _ name db =>
    if MemDB.attached db
    then (if String.eqb name "crumbs" then (db, inl name)
          else (db, inr (errorString ("table not found: " ++ name))))
    else (db, inr (errorString "cupboard is detached"));
  Table_Get := fun _ id db =>
    match mem_lookup (MemDB.rows db) id with
    | Some e => (db, inl e)
    | None => (db, inr (errorString "entity not found"))
    end;
  Table_Set := fun _ id e db =>
    let id := if String.eqb id "" then "crumb-" ++ pretty (length (MemDB.rows db)) else id in
    ({| MemDB.attached := MemDB.attached db; MemDB.rows := (id, e) :: MemDB.rows db |}, inl id);
  Table_Fetch := fun _ _ db => (db, inl (map snd (MemDB.rows db)))
|}.

(** An attached store with two crumbs, and one in which a stash has
    found its way among them. *)
Definition two_crumbs_db : MemDB.t :=
  {| MemDB.attached := true;
     MemDB.rows := [("c1", aCrumb "Crumb 1"); ("c2", aCrumb "Crumb 2")] |}.

Definition mixed_db : MemDB.t :=
  {| MemDB.attached := true;
     MemDB.rows := [("c1", aCrumb "Crumb 1"); ("s1", aStash "Stash 1"); ("c2", aCrumb "Crumb 2")] |}.

Definition empty_db : MemDB.t := {| MemDB.attached := false; MemDB.rows := [] |}.

Definition mem_cupboard : Cupboard.t unit :=
  {| Cupboard.backend := Some tt; Cupboard.dataDir := ".crumbs" |}.

(** [TestScorerMendAction] with a score that is not a number. *)
Definition test_nan_score : list TechniqueResult.t :=
  [ TechniqueResult.mk "translation_validation" 0.60%float VerdictFail [] false;
    TechniqueResult.mk "mutation_testing" nan VerdictPass [] true;
    TechniqueResult.mk "differential_testing" 1%float VerdictPass [] true ].

(** * Properties *)

(** ** The order and the arithmetic of non-negative [float64] *)

Section FloatOrder.
Local Open Scope Z_scope.

Local Abbreviation fexp := (SpecFloat.fexp prec emax).

Lemma pow2_pos k : 0 <= k -> 0 < 2 ^ k.
Proof. intros. apply Z.pow_pos_nonneg; lia. Qed.

Lemma pow2_succ k : 0 <= k -> 2 ^ (k + 1) = 2 * 2 ^ k.
Proof. intros. rewrite Z.pow_add_r by lia. change (2 ^ 1) with 2. lia. Qed.

Lemma pow2_split a b : 0 <= b <= a -> 2 ^ a = 2 ^ (a - b) * 2 ^ b.
Proof. intros. rewrite <- Z.pow_add_r by lia. f_equal. lia. Qed.

Lemma pow2_le a b : 0 <= a <= b -> 2 ^ a <= 2 ^ b.
Proof. intros. apply Z.pow_le_mono_r; lia. Qed.

Lemma pow2_lt_inv a b : 0 <= a -> 0 <= b -> 2 ^ a < 2 ^ b -> a < b.
Proof. intros Ha Hb H. apply (Z.pow_lt_mono_r_iff 2); lia. Qed.

(** The number of binary digits of a positive number. *)
Lemma digits2_pos_bounds p :
  2 ^ (Zpos (digits2_pos p) - 1) <= Zpos p < 2 ^ Zpos (digits2_pos p).
Proof.
  induction p as [p IH|p IH|]; cbn [digits2_pos].
  - rewrite Pos2Z.inj_succ. replace (Z.succ (Zpos (digits2_pos p)) - 1) with (Zpos (digits2_pos p) - 1 + 1) by lia.
    rewrite (pow2_succ (Zpos (digits2_pos p) - 1)) by lia.
    replace (Z.succ (Zpos (digits2_pos p))) with (Zpos (digits2_pos p) + 1) by lia.
    rewrite (pow2_succ (Zpos (digits2_pos p))) by lia. lia.
  - rewrite Pos2Z.inj_succ. replace (Z.succ (Zpos (digits2_pos p)) - 1) with (Zpos (digits2_pos p) - 1 + 1) by lia.
    rewrite (pow2_succ (Zpos (digits2_pos p) - 1)) by lia.
    replace (Z.succ (Zpos (digits2_pos p))) with (Zpos (digits2_pos p) + 1) by lia.
    rewrite (pow2_succ (Zpos (digits2_pos p))) by lia. lia.
  - cbn. lia.
Qed.

Lemma Zdigits2_nonneg n : 0 <= n -> 0 <= Zdigits2 n.
Proof. destruct n; cbn; lia. Qed.

Lemma Zdigits2_bounds n :
  0 < n -> 0 < Zdigits2 n /\ 2 ^ (Zdigits2 n - 1) <= n < 2 ^ Zdigits2 n.
Proof.
  destruct n as [|p|p]; try lia. intros _. cbn [Zdigits2].
  split; [lia | apply digits2_pos_bounds].
Qed.

Lemma Zdigits2_unique n k :
  0 < k -> 2 ^ (k - 1) <= n < 2 ^ k -> Zdigits2 n = k.
Proof.
  intros Hk [Hlo Hhi].
  assert (Hn : 0 < n) by (pose proof (pow2_pos (k - 1)); lia).
  destruct (Zdigits2_bounds n Hn) as (Hd & Hdlo & Hdhi).
  assert (Zdigits2 n - 1 < k) by (apply pow2_lt_inv; lia).
  assert (k - 1 < Zdigits2 n) by (apply pow2_lt_inv; lia).
  lia.
Qed.

Lemma Zdigits2_le a b : 0 <= a <= b -> Zdigits2 a <= Zdigits2 b.
Proof.
  intros [Ha Hab]. destruct (Z.eq_dec a 0) as [->|Hne].
  - cbn. apply Zdigits2_nonneg. lia.
  - destruct (Zdigits2_bounds a ltac:(lia)) as (Hda & Halo & Hahi).
    destruct (Zdigits2_bounds b ltac:(lia)) as (Hdb & Hblo & Hbhi).
    assert (Zdigits2 a - 1 < Zdigits2 b) by (apply pow2_lt_inv; lia). lia.
Qed.

Lemma Zdigits2_lt_pow n k : 0 <= n -> 0 <= k -> n < 2 ^ k -> Zdigits2 n <= k.
Proof.
  intros Hn Hk H. destruct (Z.eq_dec n 0) as [->|Hne]; [cbn; lia|].
  destruct (Zdigits2_bounds n ltac:(lia)) as (Hd & Hlo & Hhi).
  assert (Zdigits2 n - 1 < k) by (apply pow2_lt_inv; lia). lia.
Qed.

Lemma Zdigits2_ge_pow n k : 0 <= k -> 2 ^ k <= n -> k + 1 <= Zdigits2 n.
Proof.
  intros Hk H. pose proof (pow2_pos k Hk).
  destruct (Zdigits2_bounds n ltac:(lia)) as (Hd & Hlo & Hhi).
  assert (k < Zdigits2 n) by (apply pow2_lt_inv; lia). lia.
Qed.

Lemma Zdigits2_mul_pow2 n j : 0 < n -> 0 <= j -> Zdigits2 (n * 2 ^ j) = Zdigits2 n + j.
Proof.
  intros Hn Hj. destruct (Zdigits2_bounds n Hn) as (Hd & Hlo & Hhi).
  pose proof (pow2_pos j Hj).
  apply Zdigits2_unique; [lia|].
  rewrite (pow2_split (Zdigits2 n + j - 1) j) by lia.
  rewrite (pow2_split (Zdigits2 n + j) j) by lia.
  replace (Zdigits2 n + j - 1 - j) with (Zdigits2 n - 1) by lia.
  replace (Zdigits2 n + j - j) with (Zdigits2 n) by lia.
  nia.
Qed.

(** [iter_pos] is iteration. *)
Lemma iter_pos_nat {A : Type} (f : A -> A) p : forall x,
  SpecFloat.iter_pos f p x = Nat.iter (Pos.to_nat p) f x.
Proof.
  induction p as [p IH|p IH|]; intros x; cbn [SpecFloat.iter_pos].
  - rewrite !IH, Pos2Nat.inj_xI.
    replace (S (2 * Pos.to_nat p))%nat with (Pos.to_nat p + (Pos.to_nat p + 1))%nat by lia.
    rewrite !Nat.iter_add. reflexivity.
  - rewrite !IH, Pos2Nat.inj_xO.
    replace (2 * Pos.to_nat p)%nat with (Pos.to_nat p + Pos.to_nat p)%nat by lia.
    rewrite Nat.iter_add. reflexivity.
  - reflexivity.
Qed.

Lemma div_mod_double A D :
  0 < D -> 0 <= A ->
  A / (2 * D) = (A / D) / 2 /\ A mod (2 * D) = ((A / D) mod 2) * D + A mod D.
Proof.
  intros HD HA. split.
  - rewrite (Z.mul_comm 2 D), Z.div_div by lia. reflexivity.
  - rewrite (Z.mul_comm 2 D), Z.rem_mul_r by lia. lia.
Qed.

Lemma shr_1_locates A D mrs : locates A D mrs -> locates A (2 * D) (shr_1 mrs).
Proof.
  destruct mrs as [m r s]. unfold locates. cbn [shr_m shr_r shr_s].
  intros (HD & HA & Hm & Hr & Hs).
  destruct (div_mod_double A D HD HA) as [Hdiv Hmod].
  pose proof (Z.mod_pos_bound A D HD) as Hrem.
  assert (Hrs : orb r s = true <-> A mod D <> 0).
  { rewrite orb_true_iff, Hr, Hs. lia. }
  rewrite <- Hm in Hdiv, Hmod.
  assert (Hm0 : 0 <= m) by (rewrite Hm; apply Z.div_pos; lia).
  split; [lia|]. split; [lia|].
  destruct m as [|[p|p|]|p]; try lia; cbn [shr_1 shr_m shr_r shr_s].
  - change (0 / 2) with 0 in Hdiv. change (0 mod 2) with 0 in Hmod.
    rewrite Hdiv, Hmod, Hrs.
    split; [reflexivity|]. split; [split; [discriminate|lia]|]. lia.
  - assert (E1 : Zpos p~1 / 2 = Zpos p) by (rewrite Pos2Z.inj_xI; symmetry; apply Z.div_unique with 1; lia).
    assert (E2 : Zpos p~1 mod 2 = 1) by (rewrite Pos2Z.inj_xI; symmetry; apply Z.mod_unique with (Zpos p); lia).
    rewrite E1 in Hdiv. rewrite E2 in Hmod. rewrite Hdiv, Hmod, Hrs.
    split; [reflexivity|]. split; [split; [lia|reflexivity]|]. lia.
  - assert (E1 : Zpos p~0 / 2 = Zpos p) by (rewrite Pos2Z.inj_xO; symmetry; apply Z.div_unique with 0; lia).
    assert (E2 : Zpos p~0 mod 2 = 0) by (rewrite Pos2Z.inj_xO; symmetry; apply Z.mod_unique with (Zpos p); lia).
    rewrite E1 in Hdiv. rewrite E2 in Hmod. rewrite Hdiv, Hmod, Hrs.
    split; [reflexivity|]. split; [split; [discriminate|lia]|]. lia.
  - change (1 / 2) with 0 in Hdiv. change (1 mod 2) with 1 in Hmod.
    rewrite Hdiv, Hmod, Hrs.
    split; [reflexivity|]. split; [split; [lia|reflexivity]|]. lia.
Qed.

Lemma shr_iter_locates A D mrs (n : nat) :
  locates A D mrs -> locates A (2 ^ Z.of_nat n * D) (Nat.iter n shr_1 mrs).
Proof.
  intros H. induction n as [|n IH].
  - cbn [Nat.iter]. change (2 ^ Z.of_nat 0) with 1. now rewrite Z.mul_1_l.
  - cbn [Nat.iter]. apply shr_1_locates in IH.
    replace (2 ^ Z.of_nat (S n) * D) with (2 * (2 ^ Z.of_nat n * D)); [exact IH|].
    rewrite Nat2Z.inj_succ, Z.pow_succ_r by lia. lia.
Qed.

Lemma shr_record_of_loc_exact M : 0 <= M -> locates M 1 (shr_record_of_loc M loc_Exact).
Proof.
  intros HM. unfold locates. cbn. rewrite Z.div_1_r, Z.mod_1_r.
  repeat split; try lia; try discriminate.
Qed.

Lemma round_nearest_even_locates A D mrs :
  locates A D mrs ->
  round_nearest_even (shr_m mrs) (loc_of_shr_record mrs) = rne A D.
Proof.
  destruct mrs as [m r s]. unfold locates, rne. cbn [shr_m shr_r shr_s].
  intros (HD & HA & Hm & Hr & Hs). rewrite <- Hm.
  pose proof (Z.mod_pos_bound A D HD) as Hrem.
  destruct r, s; cbn [loc_of_shr_record round_nearest_even].
  - assert (D <= 2 * (A mod D)) by (apply Hr; reflexivity).
    assert (A mod D <> 0 /\ 2 * (A mod D) <> D) by (apply Hs; reflexivity).
    destruct (Z.ltb_spec D (2 * (A mod D))); [reflexivity|lia].
  - assert (D <= 2 * (A mod D)) by (apply Hr; reflexivity).
    assert (2 * (A mod D) = D).
    { destruct (Z.eq_dec (2 * (A mod D)) D) as [e|ne]; [exact e|].
      assert (false = true) by (apply Hs; lia). discriminate. }
    destruct (Z.ltb_spec D (2 * (A mod D))); [lia|].
    destruct (Z.eqb_spec (2 * (A mod D)) D); [reflexivity|lia].
  - assert (~ D <= 2 * (A mod D)) by (intros H; apply Hr in H; discriminate).
    destruct (Z.ltb_spec D (2 * (A mod D))); [lia|].
    destruct (Z.eqb_spec (2 * (A mod D)) D); [lia|reflexivity].
  - assert (~ D <= 2 * (A mod D)) by (intros H; apply Hr in H; discriminate).
    destruct (Z.ltb_spec D (2 * (A mod D))); [lia|].
    destruct (Z.eqb_spec (2 * (A mod D)) D); [lia|reflexivity].
Qed.

Lemma rne_bounds A D :
  0 < D -> A / D <= rne A D <= A / D + 1 /\ (A mod D = 0 -> rne A D = A / D).
Proof.
  intros HD. unfold rne. cbn zeta.
  destruct (Z.ltb_spec D (2 * (A mod D))); [lia|].
  destruct (Z.eqb_spec (2 * (A mod D)) D); [destruct (Z.even (A / D)); lia|lia].
Qed.

Lemma rne_upper A D B : 0 < D -> A <= B * D -> rne A D <= B.
Proof.
  intros HD H. destruct (rne_bounds A D HD) as [[_ Hhi] Hex].
  pose proof (Z.mod_pos_bound A D HD) as Hrem.
  pose proof (Z.div_mod A D ltac:(lia)) as HA.
  destruct (Z.eq_dec (A mod D) 0) as [E|NE].
  - rewrite (Hex E). nia.
  - assert (A / D < B) by nia. lia.
Qed.

Lemma rne_lower A D B : 0 < D -> B * D <= A -> B <= rne A D.
Proof.
  intros HD H. destruct (rne_bounds A D HD) as [[Hlo _] _].
  assert (B <= A / D) by (apply Z.div_le_lower_bound; lia). lia.
Qed.

Lemma rne_exact B D : 0 < D -> rne (B * D) D = B.
Proof.
  intros HD. destruct (rne_bounds (B * D) D HD) as [_ Hex].
  rewrite Hex by (apply Z.mod_mul; lia). apply Z.div_mul. lia.
Qed.

Lemma rne_mono A1 A2 D : 0 < D -> A1 <= A2 -> rne A1 D <= rne A2 D.
Proof.
  intros HD H.
  pose proof (Z.div_mod A1 D ltac:(lia)) as HA1.
  pose proof (Z.div_mod A2 D ltac:(lia)) as HA2.
  pose proof (Z.mod_pos_bound A1 D HD) as Hr1.
  pose proof (Z.mod_pos_bound A2 D HD) as Hr2.
  assert (Hq : A1 / D <= A2 / D) by (apply Z.div_le_mono; lia).
  destruct (Z.eq_dec (A1 / D) (A2 / D)) as [E|NE].
  - assert (A1 mod D <= A2 mod D) by nia.
    unfold rne. cbn zeta. rewrite E.
    destruct (Z.ltb_spec D (2 * (A1 mod D))), (Z.ltb_spec D (2 * (A2 mod D))); try lia.
    + destruct (Z.eqb_spec (2 * (A1 mod D)) D); [destruct (Z.even (A2 / D)); lia|lia].
    + destruct (Z.eqb_spec (2 * (A1 mod D)) D), (Z.eqb_spec (2 * (A2 mod D)) D);
        try lia; destruct (Z.even (A2 / D)); lia.
  - destruct (rne_bounds A1 D HD) as [[_ Hhi] _].
    destruct (rne_bounds A2 D HD) as [[Hlo _] _]. lia.
Qed.

Lemma rne_scale A D c : 0 < D -> 0 < c -> rne (A * c) (D * c) = rne A D.
Proof.
  intros HD Hc. unfold rne. cbn zeta.
  rewrite Z.div_mul_cancel_r by lia.
  rewrite Zmult_mod_distr_r.
  replace (2 * (A mod D * c)) with ((2 * (A mod D)) * c) by lia.
  destruct (Z.ltb_spec (D * c) (2 * (A mod D) * c)), (Z.ltb_spec D (2 * (A mod D)));
    try nia; try reflexivity.
  destruct (Z.eqb_spec (2 * (A mod D) * c) (D * c)), (Z.eqb_spec (2 * (A mod D)) D);
    try nia; reflexivity.
Qed.

(** *** The rounding of [SpecFloat] on located values *)

Lemma fexp_eq k : fexp k = Z.max (k - 53) (-1074).
Proof. reflexivity. Qed.

Lemma shr_locates A D mrs e n :
  locates A D mrs ->
  locates A (2 ^ Z.max n 0 * D) (fst (shr mrs e n)) /\ snd (shr mrs e n) = e + Z.max n 0.
Proof.
  intros H. destruct n as [|p|p]; cbn [shr fst snd].
  - change (2 ^ Z.max 0 0) with 1. rewrite Z.mul_1_l. split; [exact H|lia].
  - rewrite iter_pos_nat. rewrite Z.max_l by lia.
    rewrite <- (positive_nat_Z p) at 1. split; [now apply shr_iter_locates|lia].
  - rewrite Z.max_r by lia. change (2 ^ 0) with 1. rewrite Z.mul_1_l. split; [exact H|lia].
Qed.

Lemma binary_round_aux_located A D M E loc :
  locates A D (shr_record_of_loc M loc) ->
  binary_round_aux prec emax false M E loc = round_located A D M E.
Proof.
  intros H. unfold binary_round_aux, round_located, shr_fexp.
  destruct (shr_locates A D _ E (fexp (Zdigits2 M + E) - E) H) as [Hl He].
  destruct (shr (shr_record_of_loc M loc) E (fexp (Zdigits2 M + E) - E)) as [mrs' e'].
  cbn [fst snd] in Hl, He. subst e'.
  rewrite (round_nearest_even_locates _ _ _ Hl).
  set (n := Z.max (fexp (Zdigits2 M + E) - E) 0) in *.
  set (M1 := rne A (2 ^ n * D)).
  assert (HM1 : 0 <= M1).
  { destruct Hl as (HD & HA & _). subst M1.
    apply rne_lower; lia. }
  destruct (shr_locates M1 1 _ (E + n) (fexp (Zdigits2 M1 + (E + n)) - (E + n))
              (shr_record_of_loc_exact M1 HM1)) as [Hl2 He2].
  destruct (shr (shr_record_of_loc M1 loc_Exact) (E + n)
              (fexp (Zdigits2 M1 + (E + n)) - (E + n))) as [mrs'' e''].
  cbn [fst snd] in Hl2, He2. subst e''.
  destruct Hl2 as (_ & _ & Hm & _). rewrite Hm, Z.mul_1_r. cbn zeta. reflexivity.
Qed.

(** *** Values and order of the non-negative floats *)

Lemma valid_finite s m e :
  valid_binary (S754_finite s m e) = true ->
  fexp (Zpos (digits2_pos m) + e) = e /\ -1074 <= e <= 971
  /\ Zpos (digits2_pos m) <= 53.
Proof.
  cbn [SpecFloat.valid_binary]. unfold bounded, canonical_mantissa.
  intros [Hc He]%andb_prop. apply Z.eqb_eq in Hc. apply Z.leb_le in He.
  change (emax - prec) with 971 in He. rewrite fexp_eq in *. lia.
Qed.

Lemma sval_nonneg x : 0 <= sval x.
Proof.
  destruct x as [| | |s m e]; cbn [sval]; lia.
Qed.

Lemma sval_finite_pos s m e : -1074 <= e -> 0 < sval (S754_finite s m e).
Proof. intros He. cbn [sval]. pose proof (pow2_pos (e + 1074)). nia. Qed.

(** A canonical float of smaller exponent is smaller. *)
Lemma canonical_exponent_lt m1 e1 m2 e2 s1 s2 :
  valid_binary (S754_finite s1 m1 e1) = true ->
  valid_binary (S754_finite s2 m2 e2) = true ->
  e1 < e2 ->
  Zpos m1 * 2 ^ (e1 + 1074) < Zpos m2 * 2 ^ (e2 + 1074).
Proof.
  intros (Hc1 & He1 & Hd1)%valid_finite (Hc2 & He2 & Hd2)%valid_finite Hlt.
  rewrite fexp_eq in Hc1, Hc2.
  assert (Hd2' : Zpos (digits2_pos m2) = 53) by lia.
  pose proof (digits2_pos_bounds m1) as [_ Hm1].
  pose proof (digits2_pos_bounds m2) as [Hm2 _].
  rewrite Hd2' in Hm2. change (2 ^ (53 - 1)) with 4503599627370496 in Hm2.
  assert (Hm1' : Zpos m1 < 9007199254740992).
  { eapply Z.lt_le_trans; [exact Hm1|]. change 9007199254740992 with (2 ^ 53).
    apply pow2_le. lia. }
  rewrite (pow2_split (e2 + 1074) (e1 + 1074)) by lia.
  replace (e2 + 1074 - (e1 + 1074)) with (e2 - e1 - 1 + 1) by lia.
  rewrite pow2_succ by lia.
  pose proof (pow2_pos (e2 - e1 - 1) ltac:(lia)) as Hb.
  pose proof (pow2_pos (e1 + 1074) ltac:(lia)) as Ha.
  set (a := 2 ^ (e1 + 1074)) in *. set (b := 2 ^ (e2 - e1 - 1)) in *.
  assert (H1 : Zpos m1 * a < 9007199254740992 * a) by (apply Z.mul_lt_mono_pos_r; lia).
  assert (H2 : 9007199254740992 <= Zpos m2 * (2 * b)) by nia.
  assert (H3 : 9007199254740992 * a <= Zpos m2 * (2 * b) * a)
    by (apply Z.mul_le_mono_nonneg_r; lia).
  lia.
Qed.

Lemma SFcompare_nonneg x y :
  valid_binary x = true -> valid_binary y = true ->
  nonneg x = true -> nonneg y = true ->
  SFcompare x y = Some (sval x ?= sval y).
Proof.
  intros Hvx Hvy Hx Hy.
  destruct x as [sx|sx| |sx mx ex], y as [sy|sy| |sy my ey]; try discriminate; cbn [SFcompare].
  - reflexivity.
  - destruct sy; [discriminate|].
    pose proof (valid_finite _ _ _ Hvy) as (_ & He & _).
    pose proof (sval_finite_pos false my ey ltac:(lia)) as Hp.
    change (sval (S754_zero sx)) with 0. symmetry. f_equal. apply Z.compare_lt_iff. exact Hp.
  - destruct sx; [discriminate|].
    pose proof (valid_finite _ _ _ Hvx) as (_ & He & _).
    pose proof (sval_finite_pos false mx ex ltac:(lia)) as Hp.
    change (sval (S754_zero sy)) with 0. symmetry. f_equal. apply Z.compare_gt_iff. exact Hp.
  - destruct sx, sy; try discriminate. f_equal. cbn [sval].
    destruct (Z.compare_spec ex ey) as [E|L|G].
    + subst ey. pose proof (valid_finite _ _ _ Hvx) as (_ & He & _).
      pose proof (pow2_pos (ex + 1074) ltac:(lia)) as Hp.
      rewrite Pos.compare_cont_spec. cbn [Pos.switch_Eq].
      change (Pos.compare mx my) with (Z.compare (Zpos mx) (Zpos my)).
      symmetry. destruct (Z.compare_spec (Zpos mx) (Zpos my)) as [E|L|G].
      * apply Z.compare_eq_iff. congruence.
      * apply Z.compare_lt_iff. nia.
      * apply Z.compare_gt_iff. nia.
    + symmetry. apply Z.compare_lt_iff. eapply canonical_exponent_lt; eauto.
    + symmetry. apply Z.compare_gt_iff. eapply canonical_exponent_lt; eauto.
Qed.

Lemma SFleb_nonneg x y :
  valid_binary x = true -> valid_binary y = true ->
  nonneg x = true -> nonneg y = true ->
  SFleb x y = (sval x <=? sval y).
Proof.
  intros Hvx Hvy Hx Hy. unfold SFleb. rewrite (SFcompare_nonneg x y) by assumption.
  unfold Z.leb. destruct (sval x ?= sval y); reflexivity.
Qed.

(** *** An upper bound through the rounding

    A located value that does not exceed a float-like bound [B * 2^eB]
    rounds to a non-negative float that does not exceed it either. *)
Lemma round_located_upper A D M E B eB :
  0 < D -> 0 <= A -> M = A / D ->
  let n := Z.max (fexp (Zdigits2 M + E) - E) 0 in
  let e1 := E + n in
  -1074 <= e1 -> e1 <= eB -> eB <= 971 -> 0 < B ->
  fexp (Zdigits2 B + eB) <= eB ->
  A <= (B * 2 ^ (eB - e1)) * (2 ^ n * D) ->
  nonneg (round_located A D M E) = true
  /\ sval (round_located A D M E) <= B * 2 ^ (eB + 1074).
Proof.
  intros HD HA HM n e1 He1 He1B HeB HB Hcan Hle.
  unfold round_located. fold n. fold e1.
  set (M1 := rne A (2 ^ n * D)).
  assert (Hn : 0 <= n) by (subst n; lia).
  pose proof (pow2_pos n Hn) as Hpn.
  assert (HD' : 0 < 2 ^ n * D) by nia.
  assert (HM1lo : 0 <= M1) by (apply rne_lower; lia).
  assert (HM1hi : M1 <= B * 2 ^ (eB - e1)) by (apply rne_upper; lia).
  pose proof (pow2_pos (eB - e1) ltac:(lia)) as Hpb.
  assert (Hdig : Zdigits2 M1 + e1 <= Zdigits2 B + eB).
  { assert (Zdigits2 M1 <= Zdigits2 (B * 2 ^ (eB - e1))) by (apply Zdigits2_le; lia).
    rewrite Zdigits2_mul_pow2 in H by lia. lia. }
  set (n2 := Z.max (fexp (Zdigits2 M1 + e1) - e1) 0).
  assert (Hn2 : 0 <= n2 /\ e1 + n2 <= eB).
  { subst n2. rewrite fexp_eq in *. lia. }
  pose proof (pow2_pos n2 ltac:(lia)) as Hpn2.
  assert (Hq : 0 <= M1 / 2 ^ n2) by (apply Z.div_pos; lia).
  pose proof (Z.mul_div_le M1 (2 ^ n2) Hpn2) as Hql.
  destruct (M1 / 2 ^ n2) as [|m|m] eqn:Eq; [split; [reflexivity|cbn [sval]; nia]| |lia].
  replace (e1 + n2 <=? emax - prec) with true
    by (symmetry; apply Z.leb_le; change (emax - prec) with 971; lia).
  split; [reflexivity|]. cbn [sval].
  replace (e1 + n2 + 1074) with (n2 + (e1 + 1074)) by lia.
  rewrite Z.pow_add_r by lia.
  replace (eB + 1074) with ((eB - e1) + (e1 + 1074)) by lia.
  rewrite (Z.pow_add_r 2 (eB - e1)) by lia.
  pose proof (pow2_pos (e1 + 1074) ltac:(lia)) as Hpe.
  assert (Zpos m * 2 ^ n2 <= B * 2 ^ (eB - e1)) by lia.
  rewrite !Z.mul_assoc. apply Z.mul_le_mono_nonneg_r; lia.
Qed.

Lemma fexp_mono a b : a <= b -> fexp a <= fexp b.
Proof. rewrite !fexp_eq. lia. Qed.

(** *** Multiplication by a factor of at most one *)
Lemma SFmul_le x y :
  valid_binary x = true -> valid_binary y = true ->
  nonneg x = true -> nonneg y = true ->
  sval x <= 2 ^ 1074 ->
  nonneg (SF64mul x y) = true /\ sval (SF64mul x y) <= sval y.
Proof.
  intros Hvx Hvy Hx Hy Hone.
  destruct x as [sx|sx| |sx mx ex], y as [sy|sy| |sy my ey]; try discriminate;
    unfold SF64mul; cbn [SFmul].
  - split; [reflexivity|cbn [sval]; lia].
  - split; [reflexivity|]. change (sval (S754_zero (xorb sx sy))) with 0. apply sval_nonneg.
  - split; [reflexivity|cbn [sval]; lia].
  - destruct sx, sy; try discriminate. cbn [xorb].
    pose proof (valid_finite _ _ _ Hvx) as (Hcx & Hex & Hdx).
    pose proof (valid_finite _ _ _ Hvy) as (Hcy & Hey & Hdy).
    cbn [sval] in Hone |- *.
    assert (Hex0 : ex <= 0).
    { destruct (Z_le_gt_dec ex 0) as [H|H]; [exact H|exfalso].
      assert (2 ^ (1074 + 1) <= 2 ^ (ex + 1074)) by (apply pow2_le; lia).
      rewrite pow2_succ in H0 by lia. pose proof (pow2_pos 1074 ltac:(lia)). nia. }
    assert (Hmx : Zpos mx <= 2 ^ (- ex)).
    { rewrite (pow2_split 1074 (ex + 1074)) in Hone by lia.
      replace (1074 - (ex + 1074)) with (- ex) in Hone by lia.
      pose proof (pow2_pos (ex + 1074) ltac:(lia)).
      apply Z.mul_le_mono_pos_r in Hone; lia. }
    rewrite (binary_round_aux_located (Zpos (mx * my)) 1 _ _ _
               (shr_record_of_loc_exact (Zpos (mx * my)) (Pos2Z.is_nonneg _))).
    pose proof (pow2_pos (- ex) ltac:(lia)) as Hpx.
    assert (Hdig : Zdigits2 (Zpos (mx * my)) + (ex + ey) <= Zpos (digits2_pos my) + ey).
    { assert (Zdigits2 (Zpos (mx * my)) <= Zdigits2 (Zpos my * 2 ^ (- ex))).
      { apply Zdigits2_le. rewrite Pos2Z.inj_mul. split; [lia|].
        rewrite (Z.mul_comm (Zpos mx)). apply Z.mul_le_mono_nonneg_l; lia. }
      rewrite Zdigits2_mul_pow2 in H by lia. cbn [Zdigits2] in *. lia. }
    pose proof (fexp_mono _ _ Hdig) as Hfe. rewrite Hcy in Hfe.
    apply (round_located_upper (Zpos (mx * my)) 1 (Zpos (mx * my)) (ex + ey) (Zpos my) ey);
      try lia.
    + now rewrite Z.div_1_r.
    + rewrite fexp_eq. lia.
    + cbn [Zdigits2]. lia.
    + set (n := Z.max (fexp (Zdigits2 (Zpos (mx * my)) + (ex + ey)) - (ex + ey)) 0).
      assert (Hn : 0 <= n) by (subst n; lia).
      rewrite Z.mul_1_r, <- Z.mul_assoc, <- Z.pow_add_r by lia.
      replace (ey - (ex + ey + n) + n) with (- ex) by lia.
      rewrite Pos2Z.inj_mul, (Z.mul_comm (Zpos mx)).
      apply Z.mul_le_mono_nonneg_l; lia.
Qed.

(** *** Division of a number by one that is not smaller *)
Lemma new_location_locates A D :
  0 < D -> 0 <= A ->
  locates A D (shr_record_of_loc (A / D) (new_location D (A mod D))).
Proof.
  intros HD HA. pose proof (Z.mod_pos_bound A D HD) as Hrem.
  unfold locates. split; [exact HD|]. split; [exact HA|].
  unfold new_location, new_location_even, new_location_odd.
  destruct (Z.even D) eqn:Ev.
  - destruct (Z.eqb_spec (A mod D) 0) as [E0|N0].
    + cbn. rewrite E0. repeat split; try lia; try discriminate.
    + destruct (Z.compare_spec (2 * (A mod D)) D) as [E|L|G]; cbn;
        repeat split; try lia; try discriminate.
  - assert (Hodd : 2 * (A mod D) <> D).
    { intros E. rewrite <- E, Z.even_mul in Ev. discriminate. }
    destruct (Z.eqb_spec (A mod D) 0) as [E0|N0].
    + cbn. rewrite E0. repeat split; try lia; try discriminate.
    + destruct (Z.compare_spec (2 * (A mod D) + 1) D) as [E|L|G]; cbn;
        repeat split; try lia; try discriminate.
Qed.

Lemma SFdiv_core_binary_locates m1 e1 m2 e2 :
  0 < m1 -> 0 < m2 ->
  let e' := Z.min (fexp (Zdigits2 m1 + e1 - (Zdigits2 m2 + e2))) (e1 - e2) in
  let A := m1 * 2 ^ (e1 - e2 - e') in
  exists q l,
    SFdiv_core_binary prec emax m1 e1 m2 e2 = (q, e', l)
    /\ q = A / m2 /\ locates A m2 (shr_record_of_loc q l).
Proof.
  intros Hm1 Hm2 e' A. unfold SFdiv_core_binary. fold e'.
  assert (Hs : 0 <= e1 - e2 - e') by (subst e'; lia).
  assert (HA : match e1 - e2 - e' with
               | Zpos _ => Z.shiftl m1 (e1 - e2 - e')
               | Z0 => m1
               | Zneg _ => 0
               end = A).
  { subst A. destruct (e1 - e2 - e') as [|p|p] eqn:E; [|rewrite Z.shiftl_mul_pow2|]; lia. }
  rewrite HA.
  pose proof (pow2_pos (e1 - e2 - e') Hs) as Hp.
  assert (HA0 : 0 <= A) by (subst A; nia).
  exists (A / m2), (new_location m2 (A mod m2)).
  unfold Z.div, Z.modulo. destruct (Z.div_eucl A m2) as [q r] eqn:Ediv.
  split; [reflexivity|]. split; [reflexivity|].
  pose proof (new_location_locates A m2 Hm2 HA0) as Hl.
  unfold Z.div, Z.modulo in Hl. rewrite Ediv in Hl. exact Hl.
Qed.

Lemma SFdiv_le x y :
  valid_binary x = true -> valid_binary y = true ->
  nonneg x = true -> nonneg y = true ->
  0 < sval y -> sval x <= sval y ->
  nonneg (SF64div x y) = true /\ sval (SF64div x y) <= 2 ^ 1074.
Proof.
  intros Hvx Hvy Hx Hy Hpos Hle.
  destruct y as [sy|sy| |sy my ey]; try discriminate.
  destruct x as [sx|sx| |sx mx ex]; try discriminate; unfold SF64div; cbn [SFdiv].
  - split; [reflexivity|]. cbn [sval]. lia.
  - destruct sx, sy; try discriminate. cbn [xorb].
    pose proof (valid_finite _ _ _ Hvx) as (Hcx & Hex & Hdx).
    pose proof (valid_finite _ _ _ Hvy) as (Hcy & Hey & Hdy).
    cbn [sval] in Hle.
    destruct (SFdiv_core_binary_locates (Zpos mx) ex (Zpos my) ey ltac:(lia) ltac:(lia))
      as (q & l & Hcore & Hq & Hloc).
    rewrite Hcore. rewrite (binary_round_aux_located _ _ _ _ _ Hloc).
    set (e' := Z.min (fexp (Zdigits2 (Zpos mx) + ex - (Zdigits2 (Zpos my) + ey))) (ex - ey)) in *.
    set (A := Zpos mx * 2 ^ (ex - ey - e')) in *.
    (* the quotient is at most one *)
    assert (Hmag : Zdigits2 (Zpos mx) + ex <= Zdigits2 (Zpos my) + ey).
    { assert (H : Zdigits2 (Zpos mx * 2 ^ (ex + 1074)) <= Zdigits2 (Zpos my * 2 ^ (ey + 1074))).
      { apply Zdigits2_le. pose proof (pow2_pos (ex + 1074) ltac:(lia)). nia. }
      rewrite !Zdigits2_mul_pow2 in H by lia. lia. }
    assert (He' : e' <= -53).
    { subst e'.
      pose proof (fexp_mono (Zdigits2 (Zpos mx) + ex - (Zdigits2 (Zpos my) + ey)) 0
                    ltac:(lia)) as H.
      change (fexp 0) with (-53) in H.
      eapply Z.le_trans; [apply Z.le_min_l|]. exact H. }
    assert (Hs : 0 <= ex - ey - e') by (subst e'; lia).
    assert (HAle : A <= Zpos my * 2 ^ (- e')).
    { subst A. pose proof (pow2_pos (ey + 1074) ltac:(lia)) as Hc.
      apply (Z.mul_le_mono_pos_r _ _ (2 ^ (ey + 1074))); [exact Hc|].
      assert (E1 : Zpos mx * 2 ^ (ex - ey - e') * 2 ^ (ey + 1074)
                   = Zpos mx * 2 ^ (ex + 1074) * 2 ^ (- e')).
      { rewrite <- !Z.mul_assoc, <- !Z.pow_add_r by lia. do 2 f_equal. lia. }
      assert (E2 : Zpos my * 2 ^ (- e') * 2 ^ (ey + 1074)
                   = Zpos my * 2 ^ (ey + 1074) * 2 ^ (- e')) by ring.
      rewrite E1, E2. apply Z.mul_le_mono_nonneg_r; [|exact Hle].
      apply Z.pow_nonneg. lia. }
    pose proof (pow2_pos (- e') ltac:(lia)) as Hpe.
    assert (HA0 : 0 <= A) by (subst A; pose proof (pow2_pos _ Hs); nia).
    assert (Hq0 : 0 <= q) by (subst q; apply Z.div_pos; lia).
    assert (Hqle : q <= 2 ^ (- e')).
    { subst q. apply Z.div_le_upper_bound; [lia|]. lia. }
    assert (Hdq : Zdigits2 q + e' <= 1).
    { assert (Zdigits2 q <= - e' + 1); [|lia].
      apply Zdigits2_lt_pow; try lia. rewrite pow2_succ by lia. lia. }
    pose proof (fexp_mono _ _ Hdq) as Hfq. change (fexp 1) with (-52) in Hfq.
    apply (round_located_upper A (Zpos my) q e' 1 0); try lia.
    + rewrite fexp_eq. lia.
    + change (fexp (Zdigits2 1 + 0)) with (-52). lia.
    + set (n := Z.max (fexp (Zdigits2 q + e') - e') 0).
      assert (Hn : 0 <= n /\ e' + n <= 0) by (subst n; lia).
      rewrite Z.mul_1_l, Z.mul_assoc, <- Z.pow_add_r by lia.
      replace (0 - (e' + n) + n) with (- e') by lia. lia.
Qed.

(** *** Addition

    The sum of two non-negative floats is the rounding [Rnd] of the
    exact sum of their values, and [Rnd] is monotone. *)

Lemma Rnd_nonneg N : 0 <= N -> 0 <= Rnd N.
Proof.
  intros HN. unfold Rnd. cbn zeta.
  set (t := Z.max (Zdigits2 N - 53) 0).
  pose proof (pow2_pos t ltac:(lia)) as Hp.
  assert (0 <= rne N (2 ^ t)) by (apply rne_lower; lia). nia.
Qed.

Lemma Rnd_mono N1 N2 : 0 <= N1 <= N2 -> Rnd N1 <= Rnd N2.
Proof.
  intros [H1 H12].
  destruct (Z.eq_dec N1 0) as [->|Hne]; [apply Rnd_nonneg; lia|].
  pose proof (Zdigits2_le N1 N2 ltac:(lia)) as Hd.
  destruct (Zdigits2_bounds N1 ltac:(lia)) as (Hd1 & Hlo1 & Hhi1).
  destruct (Zdigits2_bounds N2 ltac:(lia)) as (Hd2 & Hlo2 & Hhi2).
  unfold Rnd. cbn zeta.
  set (t1 := Z.max (Zdigits2 N1 - 53) 0). set (t2 := Z.max (Zdigits2 N2 - 53) 0).
  pose proof (pow2_pos t1 ltac:(lia)) as Hp1. pose proof (pow2_pos t2 ltac:(lia)) as Hp2.
  destruct (Z.eq_dec t1 t2) as [E|NE].
  - rewrite <- E. apply Z.mul_le_mono_nonneg_r; [lia|]. apply rne_mono; lia.
  - assert (Hlt : Zdigits2 N1 < Zdigits2 N2) by lia.
    assert (Hu : rne N1 (2 ^ t1) <= 2 ^ (Zdigits2 N1 - t1)).
    { apply rne_upper; [lia|]. rewrite <- Z.pow_add_r by lia.
      replace (Zdigits2 N1 - t1 + t1) with (Zdigits2 N1) by lia. lia. }
    assert (Hl : 2 ^ (Zdigits2 N2 - 1 - t2) <= rne N2 (2 ^ t2)).
    { apply rne_lower; [lia|]. rewrite <- Z.pow_add_r by lia.
      replace (Zdigits2 N2 - 1 - t2 + t2) with (Zdigits2 N2 - 1) by lia. lia. }
    apply (Z.mul_le_mono_nonneg_r _ _ (2 ^ t1)) in Hu; [|lia].
    apply (Z.mul_le_mono_nonneg_r _ _ (2 ^ t2)) in Hl; [|lia].
    rewrite <- Z.pow_add_r in Hu, Hl by lia.
    replace (Zdigits2 N1 - t1 + t1) with (Zdigits2 N1) in Hu by lia.
    replace (Zdigits2 N2 - 1 - t2 + t2) with (Zdigits2 N2 - 1) in Hl by lia.
    pose proof (pow2_le (Zdigits2 N1) (Zdigits2 N2 - 1) ltac:(lia)). lia.
Qed.

(** The value of a float rounds to itself. *)
Lemma Rnd_representable s m e :
  valid_binary (S754_finite s m e) = true ->
  Rnd (Zpos m * 2 ^ (e + 1074)) = Zpos m * 2 ^ (e + 1074).
Proof.
  intros (Hc & He & Hd)%valid_finite. unfold Rnd. cbn zeta.
  rewrite Zdigits2_mul_pow2 by lia. cbn [Zdigits2].
  rewrite fexp_eq in Hc.
  replace (Z.max (Zpos (digits2_pos m) + (e + 1074) - 53) 0) with (e + 1074) by lia.
  rewrite rne_exact by (apply pow2_pos; lia). reflexivity.
Qed.

Lemma Pos_iter_xO m d : Zpos (Pos.iter xO m d) = Zpos m * 2 ^ Zpos d.
Proof.
  induction d as [|d IH] using Pos.peano_ind.
  - cbn [Pos.iter]. change (2 ^ 1) with 2. lia.
  - rewrite Pos.iter_succ, Pos2Z.inj_xO, IH, Pos2Z.inj_succ, Z.pow_succ_r by lia. lia.
Qed.

Lemma shl_align_spec m e e' :
  snd (shl_align m e e') = Z.min e e'
  /\ Zpos (fst (shl_align m e e')) = Zpos m * 2 ^ (e - Z.min e e').
Proof.
  unfold shl_align. destruct (e' - e) as [|p|p] eqn:E; cbn [fst snd].
  - rewrite Z.min_l by lia. replace (e - e) with 0 by lia. change (2 ^ 0) with 1. lia.
  - rewrite Z.min_l by lia. replace (e - e) with 0 by lia. change (2 ^ 0) with 1. lia.
  - rewrite Z.min_r by lia. rewrite Pos_iter_xO. split; [reflexivity|]. do 2 f_equal. lia.
Qed.

(** [binary_round] on an exact non-negative value below the overflow
    threshold. *)
Lemma binary_round_sval M E :
  -1074 <= E ->
  Zpos M * 2 ^ (E + 1074) <= 2 ^ 1128 ->
  nonneg (binary_round prec emax false M E) = true
  /\ sval (binary_round prec emax false M E) = Rnd (Zpos M * 2 ^ (E + 1074)).
Proof.
  intros HE Hbound. unfold binary_round.
  set (f := fexp (Zpos (digits2_pos M) + E)).
  destruct (shl_align_spec M E f) as [Hez Hmz].
  destruct (shl_align M E f) as [mz ez]. cbn [fst snd] in Hez, Hmz.
  assert (Hf : -1074 <= f) by (subst f; rewrite fexp_eq; lia).
  assert (Hez' : -1074 <= ez /\ ez <= E /\ ez <= f) by lia.
  rewrite (binary_round_aux_located (Zpos mz) 1 _ _ _
             (shr_record_of_loc_exact (Zpos mz) (Pos2Z.is_nonneg _))).
  set (N := Zpos M * 2 ^ (E + 1074)) in *.
  assert (HN : N = Zpos mz * 2 ^ (ez + 1074)).
  { subst N. rewrite Hmz, <- Z.mul_assoc, <- Z.pow_add_r by lia.
    do 2 f_equal. lia. }
  assert (HNpos : 0 < N) by (subst N; pose proof (pow2_pos (E + 1074) ltac:(lia)); nia).
  assert (HdN : Zdigits2 N = Zpos (digits2_pos M) + E + 1074).
  { subst N. rewrite Zdigits2_mul_pow2 by lia. cbn [Zdigits2]. lia. }
  assert (Hdz : Zdigits2 (Zpos mz) + ez = Zpos (digits2_pos M) + E).
  { rewrite HN in HdN. rewrite Zdigits2_mul_pow2 in HdN by lia. lia. }
  unfold round_located. rewrite Hdz. fold f.
  set (n := Z.max (f - ez) 0).
  assert (Hn : n = f - ez) by lia.
  rewrite Z.mul_1_r.
  set (M1 := rne (Zpos mz) (2 ^ n)).
  set (t := Z.max (Zdigits2 N - 53) 0).
  assert (Ht : t = f + 1074) by (subst t f; rewrite HdN, fexp_eq; lia).
  assert (Hrnd : Rnd N = M1 * 2 ^ t).
  { unfold Rnd. cbn zeta. fold t. f_equal. subst M1.
    rewrite HN. replace t with (n + (ez + 1074)) by lia.
    rewrite (Z.pow_add_r 2 n (ez + 1074)) by lia.
    apply rne_scale; apply pow2_pos; lia. }
  assert (HM1lo : 0 <= M1) by (subst M1; apply rne_lower; [apply pow2_pos; lia|lia]).
  destruct (Zdigits2_bounds N HNpos) as (HdNpos & HNlo & HNhi).
  assert (HdNle : Zdigits2 N <= 1129).
  { apply Zdigits2_lt_pow; lia. }
  assert (HM1hi : M1 <= 2 ^ (Zdigits2 N - t)).
  { subst M1. apply rne_upper; [apply pow2_pos; lia|].
    rewrite <- Z.pow_add_r by lia.
    replace (Zdigits2 N - t + n) with (Zdigits2 (Zpos mz)) by lia.
    destruct (Zdigits2_bounds (Zpos mz) ltac:(lia)) as (_ & _ & Hhi). lia. }
  set (n2 := Z.max (fexp (Zdigits2 M1 + (ez + n)) - (ez + n)) 0).
  assert (Hexact : 0 <= n2 <= 1 /\ M1 / 2 ^ n2 * 2 ^ n2 = M1).
  { destruct (Z.eq_dec M1 (2 ^ (Zdigits2 N - t))) as [E1|NE1].
    - assert (Hd1 : Zdigits2 M1 = Zdigits2 N - t + 1).
      { rewrite E1. apply Zdigits2_unique; [lia|].
        replace (Zdigits2 N - t + 1 - 1) with (Zdigits2 N - t) by lia.
        split; [lia|]. apply Z.pow_lt_mono_r; lia. }
      subst n2. rewrite Hd1, fexp_eq.
      destruct (Z_le_gt_dec 53 (Zdigits2 N)) as [Hbig|Hsmall].
      + replace (Z.max (Z.max (Zdigits2 N - t + 1 + (ez + n) - 53) (-1074) - (ez + n)) 0)
          with 1 by lia.
        split; [lia|]. change (2 ^ 1) with 2.
        rewrite E1. replace (Zdigits2 N - t) with (52 + 1) by lia.
        rewrite pow2_succ by lia. rewrite (Z.mul_comm 2), Z.div_mul by lia. lia.
      + replace (Z.max (Z.max (Zdigits2 N - t + 1 + (ez + n) - 53) (-1074) - (ez + n)) 0)
          with 0 by lia.
        split; [lia|]. change (2 ^ 0) with 1. rewrite Z.div_1_r. lia.
    - assert (Hd1 : Zdigits2 M1 <= Zdigits2 N - t) by (apply Zdigits2_lt_pow; lia).
      subst n2. rewrite fexp_eq.
      replace (Z.max (Z.max (Zdigits2 M1 + (ez + n) - 53) (-1074) - (ez + n)) 0)
        with 0 by lia.
      split; [lia|]. change (2 ^ 0) with 1. rewrite Z.div_1_r. lia. }
  destruct Hexact as [Hn2 Hex].
  rewrite Hrnd.
  pose proof (pow2_pos n2 ltac:(lia)) as Hpn2.
  assert (Hq : 0 <= M1 / 2 ^ n2) by (apply Z.div_pos; lia).
  destruct (M1 / 2 ^ n2) as [|m|m] eqn:Eq; [| |lia].
  - split; [reflexivity|]. cbn [sval]. lia.
  - replace (ez + n + n2 <=? emax - prec) with true
      by (symmetry; apply Z.leb_le; change (emax - prec) with 971; lia).
    split; [reflexivity|]. cbn [sval]. rewrite <- Hex.
    replace (ez + n + n2 + 1074) with (n2 + t) by lia.
    rewrite Z.pow_add_r by lia. lia.
Qed.

Lemma SFadd_sval x y :
  valid_binary x = true -> valid_binary y = true ->
  nonneg x = true -> nonneg y = true ->
  sval x + sval y <= 2 ^ 1128 ->
  nonneg (SF64add x y) = true /\ sval (SF64add x y) = Rnd (sval x + sval y).
Proof.
  intros Hvx Hvy Hx Hy Hbound.
  destruct x as [sx|sx| |sx mx ex], y as [sy|sy| |sy my ey]; try discriminate;
    unfold SF64add; cbn [SFadd].
  - destruct sx, sy; split; reflexivity.
  - split; [exact Hy|]. cbn [sval]. rewrite Z.add_0_l. symmetry.
    eapply Rnd_representable; eauto.
  - split; [exact Hx|]. cbn [sval]. rewrite Z.add_0_r. symmetry.
    eapply Rnd_representable; eauto.
  - destruct sx, sy; try discriminate. cbn [cond_Zopp].
    pose proof (valid_finite _ _ _ Hvx) as (_ & Hex & _).
    pose proof (valid_finite _ _ _ Hvy) as (_ & Hey & _).
    destruct (shl_align_spec mx ex (Z.min ex ey)) as [_ Ha].
    destruct (shl_align_spec my ey (Z.min ex ey)) as [_ Hb].
    set (a := fst (shl_align mx ex (Z.min ex ey))) in *.
    set (b := fst (shl_align my ey (Z.min ex ey))) in *.
    change (Zpos a + Zpos b) with (Zpos (a + b)). cbn [binary_normalize].
    cbn [sval] in Hbound |- *.
    assert (HN : Zpos (a + b) * 2 ^ (Z.min ex ey + 1074)
                 = Zpos mx * 2 ^ (ex + 1074) + Zpos my * 2 ^ (ey + 1074)).
    { rewrite Pos2Z.inj_add, Ha, Hb, Z.mul_add_distr_r.
      rewrite <- !Z.mul_assoc, <- !Z.pow_add_r by lia.
      f_equal; do 2 f_equal; lia. }
    rewrite <- HN in *. apply binary_round_sval; lia.
Qed.

(** *** The same facts on [float] *)

Lemma fval_one : fval 1%float = 2 ^ 1074.
Proof. reflexivity. Qed.

Lemma leb_fval f g :
  fnonneg f = true -> fnonneg g = true ->
  PrimFloat.leb f g = (fval f <=? fval g).
Proof.
  intros Hf Hg. rewrite FloatAxioms.leb_spec.
  apply SFleb_nonneg; auto using Prim2SF_valid.
Qed.

Lemma leb_zero_nonneg f g :
  PrimFloat.leb 0%float f = true -> PrimFloat.leb f g = true -> fnonneg g = true ->
  fnonneg f = true.
Proof.
  unfold fnonneg. rewrite !FloatAxioms.leb_spec.
  change (Prim2SF 0%float) with (S754_zero false).
  destruct (Prim2SF f) as [s|s| |s m e]; try discriminate; try reflexivity.
  - destruct s; [discriminate|]. intros _.
    destruct (Prim2SF g) as [sg|sg| |sg mg eg]; discriminate.
  - destruct s; [discriminate|reflexivity].
Qed.

Lemma in_unit_fval f :
  (PrimFloat.leb 0%float f && PrimFloat.leb f 1%float = true)
  <-> (fnonneg f = true /\ fval f <= 2 ^ 1074).
Proof.
  split.
  - intros [H0 H1]%andb_prop.
    assert (Hf : fnonneg f = true) by (eapply leb_zero_nonneg; eauto).
    split; [exact Hf|]. rewrite leb_fval in H1 by auto.
    rewrite fval_one in H1. now apply Z.leb_le.
  - intros [Hf Hv]. apply andb_true_intro. split.
    + rewrite leb_fval by auto. apply Z.leb_le. apply sval_nonneg.
    + rewrite leb_fval by auto. apply Z.leb_le. now rewrite fval_one.
Qed.

Lemma fmul_le s w :
  fnonneg s = true -> fval s <= 2 ^ 1074 -> fnonneg w = true ->
  fnonneg (s * w)%float = true /\ fval (s * w)%float <= fval w.
Proof.
  intros Hs Hs1 Hw. unfold fnonneg, fval. rewrite FloatAxioms.mul_spec.
  apply SFmul_le; auto using Prim2SF_valid.
Qed.

Lemma fadd_fval a b :
  fnonneg a = true -> fnonneg b = true -> fval a + fval b <= 2 ^ 1128 ->
  fnonneg (a + b)%float = true /\ fval (a + b)%float = Rnd (fval a + fval b).
Proof.
  intros Ha Hb Hbound. unfold fnonneg, fval. rewrite FloatAxioms.add_spec.
  apply SFadd_sval; auto using Prim2SF_valid.
Qed.

Lemma eqb_zero_fval b :
  fnonneg b = true -> PrimFloat.eqb b 0%float = false -> 0 < fval b.
Proof.
  unfold fnonneg, fval. rewrite FloatAxioms.eqb_spec.
  change (Prim2SF 0%float) with (S754_zero false).
  pose proof (Prim2SF_valid b) as Hv.
  destruct (Prim2SF b) as [s|s| |s m e]; try discriminate.
  intros _ _. apply valid_finite in Hv as (_ & He & _).
  apply sval_finite_pos. lia.
Qed.

Lemma fdiv_unit a b :
  fnonneg a = true -> fnonneg b = true ->
  PrimFloat.eqb b 0%float = false -> fval a <= fval b ->
  fnonneg (a / b)%float = true /\ fval (a / b)%float <= 2 ^ 1074.
Proof.
  intros Ha Hb Hz Hle. pose proof (eqb_zero_fval b Hb Hz) as Hpos.
  unfold fnonneg, fval in *. rewrite FloatAxioms.div_spec.
  apply SFdiv_le; auto using Prim2SF_valid.
Qed.

(** Adding a weight of at most one to a total of at most [2^53] leaves
    it at most [2^53]. *)
Lemma Rnd_total_bound N w :
  0 <= N <= 2 ^ 53 * 2 ^ 1074 -> 0 <= w <= 2 ^ 1074 ->
  Rnd (N + w) <= 2 ^ 53 * 2 ^ 1074.
Proof.
  intros HN Hw.
  assert (E : Rnd (2 ^ 53 * 2 ^ 1074 + 2 ^ 1074) = 2 ^ 53 * 2 ^ 1074) by (vm_compute; reflexivity).
  rewrite <- E. apply Rnd_mono. lia.
Qed.

End FloatOrder.

(** ** The composite scorer *)

Section ScorerProperties.
Implicit Types (s : Scorer.t) (results : list TechniqueResult.t).

Lemma nonSkip_cons_skip r results :
  isSkip r = true -> nonSkip (r :: results) = nonSkip results.
Proof. intros H. unfold nonSkip. simpl. now rewrite H. Qed.

Lemma nonSkip_cons_scored r results :
  isSkip r = false -> nonSkip (r :: results) = r :: nonSkip results.
Proof. intros H. unfold nonSkip. simpl. now rewrite H. Qed.

(** The loop of [Score] computes two running sums and a count over
    the non-skip results, in list order. *)
Lemma Score_loop_spec s results : forall weightedSum totalWeight scored,
  Score_loop s results weightedSum totalWeight scored =
  (fold_left PrimFloat.add (map (contribution s) (nonSkip results)) weightedSum,
   fold_left PrimFloat.add (map (weightOf s) (nonSkip results)) totalWeight,
   scored + length (nonSkip results)).
Proof.
  induction results as [|r rest IH]; intros ws tw n.
  - simpl. now rewrite Nat.add_0_r.
  - cbn [Score_loop]. destruct (isSkip r) eqn:E.
    + rewrite (nonSkip_cons_skip _ _ E). apply IH.
    + rewrite (nonSkip_cons_scored _ _ E), IH. simpl.
      now rewrite Nat.add_succ_r.
Qed.

Lemma weightFor_spec_weight s name :
  Scorer_weightFor s name = spec_weight (Scorer.config s) name.
Proof.
  unfold Scorer_weightFor, spec_weight.
  now destruct (ScorerConfig.Weights (Scorer.config s) !! name).
Qed.

Lemma Score_below_floor s results :
  length (nonSkip results) < 2 ->
  Scorer_Score s results =
  {| CompositeResult.TechniqueResults := results;
     CompositeResult.CompositeScore := 0%float;
     CompositeResult.Action := ActionHumanReview;
     CompositeResult.ValidScore := false |}.
Proof.
  intros H. unfold Scorer_Score. rewrite Score_loop_spec. simpl.
  destruct (Nat.ltb_spec (length (nonSkip results)) 2) as [_|Hge]; [reflexivity | lia].
Qed.

Lemma Score_above_floor s results :
  2 <= length (nonSkip results) ->
  Scorer_Score s results =
  let c := (fsum (map (contribution s) (nonSkip results))
            / fsum (map (weightOf s) (nonSkip results)))%float in
  {| CompositeResult.TechniqueResults := results;
     CompositeResult.CompositeScore := c;
     CompositeResult.Action := Scorer_actionFor s c;
     CompositeResult.ValidScore := true |}.
Proof.
  intros H. unfold Scorer_Score. rewrite Score_loop_spec. simpl.
  destruct (Nat.ltb_spec (length (nonSkip results)) 2) as [Hlt|_]; [lia | reflexivity].
Qed.

(** C1 (validity floor).  Whenever fewer than two results have a
    verdict other than skip -- the empty list, a single result, a list
    of skips only -- [Score] returns ValidScore=false,
    Action=human_review and the composite score zero, whatever the
    scores in the list. *)
Theorem Score_validity_floor s results :
  length (nonSkip results) < 2 ->
  let cr := Scorer_Score s results in
  CompositeResult.ValidScore cr = false
  /\ CompositeResult.Action cr = ActionHumanReview
  /\ CompositeResult.CompositeScore cr = 0%float
  /\ CompositeResult.TechniqueResults cr = results.
Proof.
  intros H cr. subst cr. rewrite (Score_below_floor s results H). simpl. auto.
Qed.

(** The "one pass one skip" case of the package's test: a single
    non-skip result with score 0.90 is still below the floor. *)
Lemma Score_validity_floor_witness :
  length (nonSkip test_one_pass_one_skip) < 2
  /\ CompositeResult.ValidScore
       (Scorer_Score (NewScorer DefaultScorerConfig) test_one_pass_one_skip) = false
  /\ CompositeResult.Action
       (Scorer_Score (NewScorer DefaultScorerConfig) test_one_pass_one_skip)
     = ActionHumanReview
  /\ CompositeResult.CompositeScore
       (Scorer_Score (NewScorer DefaultScorerConfig) test_one_pass_one_skip) = 0%float
  /\ CompositeResult.TechniqueResults
       (Scorer_Score (NewScorer DefaultScorerConfig) test_one_pass_one_skip)
     = test_one_pass_one_skip.
Proof.
  assert (H : length (nonSkip test_one_pass_one_skip) < 2) by (vm_compute; lia).
  split; [exact H|].
  exact (Score_validity_floor (NewScorer DefaultScorerConfig) test_one_pass_one_skip H).
Defined.

Lemma actions_distinct :
  ActionAccept <> ActionMend /\ ActionAccept <> ActionHumanReview
  /\ ActionMend <> ActionHumanReview.
Proof. repeat split; discriminate. Qed.

Lemma spec_composite_sums s results :
  (fsum (map (contribution s) (nonSkip results))
   / fsum (map (weightOf s) (nonSkip results)))%float
  = spec_composite (Scorer.config s) results.
Proof.
  unfold spec_composite. f_equal; f_equal; apply map_ext; intros r;
    unfold contribution, weightOf; now rewrite weightFor_spec_weight.
Qed.

(** C2 (composite formula and routing).  With at least two non-skip
    results, [Score] returns ValidScore=true, the composite is the sum
    of score x weight over the sum of weight, both over exactly the
    non-skip results, the weight being the configured one or 0.10 for a
    name the map lacks; the action is accept iff the composite reaches
    the accept threshold, else mend iff it reaches the mend threshold,
    else human_review. *)
Theorem Score_composite_and_routing s results :
  2 <= length (nonSkip results) ->
  let cfg := Scorer.config s in
  let cr := Scorer_Score s results in
  let c := CompositeResult.CompositeScore cr in
  CompositeResult.ValidScore cr = true
  /\ c = spec_composite cfg results
  /\ CompositeResult.Action cr = spec_action cfg c
  /\ (CompositeResult.Action cr = ActionAccept
      <-> fge c (ScorerConfig.AcceptThreshold cfg) = true)
  /\ (CompositeResult.Action cr = ActionMend
      <-> fge c (ScorerConfig.AcceptThreshold cfg) = false
          /\ fge c (ScorerConfig.MendThreshold cfg) = true)
  /\ (CompositeResult.Action cr = ActionHumanReview
      <-> fge c (ScorerConfig.AcceptThreshold cfg) = false
          /\ fge c (ScorerConfig.MendThreshold cfg) = false)
  /\ (forall name, ScorerConfig.Weights cfg !! name = None ->
        Scorer_weightFor s name = 0.10%float)
  /\ (forall name w, ScorerConfig.Weights cfg !! name = Some w ->
        Scorer_weightFor s name = w).
Proof.
  intros H cfg cr c. subst cfg cr c.
  rewrite (Score_above_floor s results H). cbn zeta.
  cbn [CompositeResult.ValidScore CompositeResult.CompositeScore CompositeResult.Action].
  rewrite spec_composite_sums.
  set (c := spec_composite (Scorer.config s) results).
  destruct actions_distinct as (Ham & Ahr & Mhr).
  unfold Scorer_actionFor, spec_action.
  split; [reflexivity|]. split; [reflexivity|]. split; [reflexivity|].
  repeat split;
    try (destruct (fge c (ScorerConfig.AcceptThreshold (Scorer.config s)));
         destruct (fge c (ScorerConfig.MendThreshold (Scorer.config s)));
         intuition congruence);
    intros; unfold Scorer_weightFor;
    match goal with Hl : _ !! _ = _ |- _ => now rewrite Hl end.
Qed.

(** [TestScorerMendAction]: two failing results under the default
    configuration. *)
Lemma Score_composite_and_routing_witness :
  2 <= length (nonSkip test_two_fail)
  /\ CompositeResult.ValidScore
       (Scorer_Score (NewScorer DefaultScorerConfig) test_two_fail) = true
  /\ CompositeResult.CompositeScore
       (Scorer_Score (NewScorer DefaultScorerConfig) test_two_fail)
     = spec_composite DefaultScorerConfig test_two_fail
  /\ CompositeResult.Action
       (Scorer_Score (NewScorer DefaultScorerConfig) test_two_fail)
     = ActionMend.
Proof.
  assert (H : 2 <= length (nonSkip test_two_fail)) by (vm_compute; lia).
  split; [exact H|].
  destruct (Score_composite_and_routing (NewScorer DefaultScorerConfig) test_two_fail H)
    as (Hv & Hc & Ha & _).
  split; [exact Hv|]. split; [exact Hc|].
  rewrite Ha. vm_compute. reflexivity.
Defined.

(** *** Division by a zero total *)

Lemma feq_zero_inv t : feq t 0%float = true -> exists sg, Prim2SF t = S754_zero sg.
Proof.
  unfold feq. rewrite FloatAxioms.eqb_spec.
  change (Prim2SF 0%float) with (S754_zero false).
  destruct (Prim2SF t) as [sg|sg| |sg m e]; try discriminate.
  - eauto.
  - destruct sg; discriminate.
  - destruct sg; discriminate.
Qed.

(** A quotient by [+0] or [-0] is a NaN or an infinity. *)
Lemma div_zero_class x t :
  feq t 0%float = true ->
  Prim2SF (x / t)%float = S754_nan \/ exists sg, Prim2SF (x / t)%float = S754_infinity sg.
Proof.
  intros H. destruct (feq_zero_inv t H) as [sg Ht].
  rewrite FloatAxioms.div_spec, Ht. unfold SF64div.
  destruct (Prim2SF x) as [sx|sx| |sx m e]; simpl; eauto.
Qed.

Lemma div_zero_not_finite x t :
  feq t 0%float = true -> PrimFloat.is_finite (x / t)%float = false.
Proof.
  intros H. unfold is_finite, is_nan, is_infinity.
  rewrite !FloatAxioms.eqb_spec, FloatAxioms.abs_spec.
  change (Prim2SF infinity) with (S754_infinity false).
  destruct (div_zero_class x t H) as [-> | [sg ->]]; [reflexivity|].
  destruct sg; reflexivity.
Qed.

Lemma div_zero_out_of_range x t :
  feq t 0%float = true -> in_unit_interval (x / t)%float = false.
Proof.
  intros H. unfold in_unit_interval. rewrite !FloatAxioms.leb_spec.
  change (Prim2SF 0%float) with (S754_zero false).
  change (Prim2SF 1%float) with (S754_finite false 4503599627370496 (-52)).
  destruct (div_zero_class x t H) as [-> | [sg ->]]; [reflexivity|].
  destruct sg; reflexivity.
Qed.

(** The loop of [DeterministicWeight] sums the weights of the
    deterministic non-skip results and of all non-skip results. *)
Lemma DeterministicWeight_loop_spec s results : forall deterministicWeight totalWeight,
  DeterministicWeight_loop s results deterministicWeight totalWeight
  = (fold_left PrimFloat.add
       (map (weightOf s) (List.filter TechniqueResult.Deterministic (nonSkip results)))
       deterministicWeight,
     fold_left PrimFloat.add (map (weightOf s) (nonSkip results)) totalWeight).
Proof.
  induction results as [|r rest IH]; intros dw tw; [reflexivity|].
  cbn [DeterministicWeight_loop]. destruct (isSkip r) eqn:E.
  - rewrite (nonSkip_cons_skip _ _ E). apply IH.
  - rewrite (nonSkip_cons_scored _ _ E). cbn zeta. cbn [List.filter].
    destruct (TechniqueResult.Deterministic r); rewrite IH; reflexivity.
Qed.

Lemma nonSkip_all_skip results :
  forallb isSkip results = true -> nonSkip results = [].
Proof.
  induction results as [|r rest IH]; [reflexivity|].
  cbn [forallb]. intros [Hr Hrest]%andb_prop.
  rewrite (nonSkip_cons_skip _ _ Hr). auto.
Qed.

(** *** The range of the two sums and of their quotient *)

Lemma in_unit_interval_fval f :
  in_unit_interval f = true <-> (fnonneg f = true /\ (fval f <= 2 ^ 1074)%Z).
Proof. unfold in_unit_interval. apply in_unit_fval. Qed.

Lemma weightFor_in_range s name :
  weights_in_range (Scorer.config s) ->
  in_unit_interval (Scorer_weightFor s name) = true.
Proof.
  intros H. unfold Scorer_weightFor.
  destruct (ScorerConfig.Weights (Scorer.config s) !! name) as [w|] eqn:E.
  - exact (H name w E).
  - reflexivity.
Qed.

Lemma sums_bound_const : (2 ^ 53 * 2 ^ 1074 + 2 ^ 1074 <= 2 ^ 1128)%Z.
Proof. vm_compute. discriminate. Qed.

Lemma Rnd_fval f : fnonneg f = true -> Rnd (fval f) = fval f.
Proof.
  unfold fnonneg, fval. pose proof (Prim2SF_valid f) as Hv.
  destruct (Prim2SF f) as [sg|sg| |sg m e]; try discriminate; intros _.
  - reflexivity.
  - cbn [sval]. eapply Rnd_representable; eauto.
Qed.

Lemma sums_ok_zero : sums_ok 0%float 0%float.
Proof. unfold sums_ok. repeat split; vm_compute; discriminate. Qed.

(** Both sums grow, the first by no more than the second. *)
Lemma sums_ok_step a b p w :
  sums_ok a b -> fnonneg p = true -> fnonneg w = true ->
  (fval p <= fval w)%Z -> (fval w <= 2 ^ 1074)%Z ->
  sums_ok (a + p)%float (b + w)%float.
Proof.
  intros (Ha & Hb & Hab & Hb53) Hp Hw Hpw Hw1.
  pose proof sums_bound_const as Hc.
  pose proof (sval_nonneg (Prim2SF a)) as Ha0. fold (fval a) in Ha0.
  pose proof (sval_nonneg (Prim2SF p)) as Hp0. fold (fval p) in Hp0.
  destruct (fadd_fval a p Ha Hp ltac:(lia)) as [Hap Eap].
  destruct (fadd_fval b w Hb Hw ltac:(lia)) as [Hbw Ebw].
  unfold sums_ok. rewrite Eap, Ebw. repeat split; auto.
  - apply Rnd_mono. lia.
  - apply Rnd_total_bound; lia.
Qed.

(** Only the second sum grows. *)
Lemma sums_ok_total a b w :
  sums_ok a b -> fnonneg w = true -> (fval w <= 2 ^ 1074)%Z ->
  sums_ok a (b + w)%float.
Proof.
  intros (Ha & Hb & Hab & Hb53) Hw Hw1.
  pose proof sums_bound_const as Hc.
  pose proof (sval_nonneg (Prim2SF b)) as Hb0. fold (fval b) in Hb0.
  pose proof (sval_nonneg (Prim2SF w)) as Hw0. fold (fval w) in Hw0.
  destruct (fadd_fval b w Hb Hw ltac:(lia)) as [Hbw Ebw].
  unfold sums_ok. rewrite Ebw. repeat split; auto.
  - rewrite <- (Rnd_fval b Hb) in Hab.
    eapply Z.le_trans; [exact Hab|]. apply Rnd_mono. lia.
  - apply Rnd_total_bound; lia.
Qed.

Lemma sums_ok_quotient a b :
  sums_ok a b -> feq b 0%float = false -> in_unit_interval (a / b)%float = true.
Proof.
  intros (Ha & Hb & Hab & _) Hz. apply in_unit_interval_fval.
  now apply fdiv_unit.
Qed.

Lemma fold_sums_ok s (l : list TechniqueResult.t) :
  weights_in_range (Scorer.config s) ->
  Forall (fun r => in_unit_interval (TechniqueResult.Score r) = true) l ->
  forall a b, sums_ok a b ->
  sums_ok (fold_left PrimFloat.add (map (contribution s) l) a)
          (fold_left PrimFloat.add (map (weightOf s) l) b).
Proof.
  intros Hw Hl. induction Hl as [|r l Hr _ IH]; intros a b Hab; [exact Hab|].
  cbn [map fold_left]. apply IH.
  pose proof (weightFor_in_range s (TechniqueResult.Name r) Hw) as Hwr.
  apply in_unit_interval_fval in Hwr as [Hwn Hw1].
  apply in_unit_interval_fval in Hr as [Hsn Hs1].
  destruct (fmul_le _ _ Hsn Hs1 Hwn) as [Hpn Hpw].
  apply sums_ok_step; assumption.
Qed.

Lemma DeterministicWeight_loop_ok s results :
  weights_in_range (Scorer.config s) ->
  forall deterministicWeight totalWeight,
  sums_ok deterministicWeight totalWeight ->
  sums_ok (fst (DeterministicWeight_loop s results deterministicWeight totalWeight))
          (snd (DeterministicWeight_loop s results deterministicWeight totalWeight)).
Proof.
  intros Hw. induction results as [|r rest IH]; intros dw tw Hok; [exact Hok|].
  cbn [DeterministicWeight_loop]. destruct (isSkip r); [now apply IH|]. cbn zeta.
  pose proof (weightFor_in_range s (TechniqueResult.Name r) Hw) as Hwr.
  apply in_unit_interval_fval in Hwr as [Hwn Hw1].
  destruct (TechniqueResult.Deterministic r); apply IH.
  - apply sums_ok_step; auto. lia.
  - now apply sums_ok_total.
Qed.

(** With every configured weight in [[0,1]], the deterministic fraction
    is a number in [[0,1]] for every list of results. *)
Lemma DeterministicWeight_in_range s results :
  weights_in_range (Scorer.config s) ->
  in_unit_interval (Scorer_DeterministicWeight s results) = true.
Proof.
  intros Hw. unfold Scorer_DeterministicWeight.
  pose proof (DeterministicWeight_loop_ok s results Hw _ _ sums_ok_zero) as Hok.
  destruct (DeterministicWeight_loop s results 0%float 0%float) as [dw tw].
  cbn [fst snd] in Hok.
  destruct (feq tw 0%float) eqn:Hz; [reflexivity|].
  now apply sums_ok_quotient.
Qed.

(** With every configured weight and every score of a non-skip result
    in [[0,1]], at least two non-skip results and a total weight that is
    not zero, the composite score is a number in [[0,1]]. *)
Theorem Score_composite_in_range s results :
  weights_in_range (Scorer.config s) ->
  Forall (fun r => in_unit_interval (TechniqueResult.Score r) = true) (nonSkip results) ->
  2 <= length (nonSkip results) ->
  feq (fsum (map (weightOf s) (nonSkip results))) 0%float = false ->
  in_unit_interval (CompositeResult.CompositeScore (Scorer_Score s results)) = true.
Proof.
  intros Hw Hs H2 Hz. rewrite (Score_above_floor s results H2). cbn zeta.
  cbn [CompositeResult.CompositeScore].
  apply sums_ok_quotient; [|exact Hz].
  apply fold_sums_ok; auto using sums_ok_zero.
Qed.

Lemma DefaultWeights_in_range : weights_in_range DefaultScorerConfig.
Proof.
  unfold weights_in_range, DefaultScorerConfig, DefaultWeights. cbn [ScorerConfig.Weights].
  repeat (apply map_Forall_insert_2; [reflexivity|]). apply map_Forall_empty.
Qed.

(** [TestScorerAcceptAction]: the composite of the three passing
    results under the default weights. *)
Lemma Score_composite_in_range_witness :
  in_unit_interval
    (CompositeResult.CompositeScore
       (Scorer_Score (NewScorer DefaultScorerConfig) test_three_pass)) = true.
Proof.
  apply Score_composite_in_range.
  - exact DefaultWeights_in_range.
  - repeat constructor.
  - vm_compute. lia.
  - vm_compute. reflexivity.
Defined.

(** C10 (the division guard of the determinism accounting).  When the
    summed weight of the non-skip results is zero --- as it is for the
    empty list and for a list of skips only --- [DeterministicWeight]
    returns exactly 0, a number in [[0,1]], and does not divide; it
    divides, deterministic weight by total weight, only when the total
    is not zero, so that with every configured weight in [[0,1]] its
    result is a number in [[0,1]] for every list.  [Score] has no such
    guard: with two or more non-skip results and a zero total it still
    divides by the total, and its composite is a NaN or an infinity. *)
Theorem DeterministicWeight_zero_total_guard s results :
  let total := fsum (map (weightOf s) (nonSkip results)) in
  let deterministic :=
    fsum (map (weightOf s) (List.filter TechniqueResult.Deterministic (nonSkip results))) in
  (feq total 0%float = true ->
     Scorer_DeterministicWeight s results = 0%float
     /\ in_unit_interval (Scorer_DeterministicWeight s results) = true)
  /\ (feq total 0%float = false ->
      Scorer_DeterministicWeight s results = (deterministic / total)%float)
  /\ (forallb isSkip results = true -> feq total 0%float = true)
  /\ (feq total 0%float = true -> 2 <= length (nonSkip results) ->
       let cr := Scorer_Score s results in
       CompositeResult.ValidScore cr = true
       /\ CompositeResult.CompositeScore cr
          = (fsum (map (contribution s) (nonSkip results)) / total)%float
       /\ PrimFloat.is_finite (CompositeResult.CompositeScore cr) = false
       /\ in_unit_interval (CompositeResult.CompositeScore cr) = false)
  /\ (weights_in_range (Scorer.config s) ->
      in_unit_interval (Scorer_DeterministicWeight s results) = true).
Proof.
  intros total deterministic.
  assert (Hdw : Scorer_DeterministicWeight s results
                = if feq total 0%float then 0%float else (deterministic / total)%float).
  { unfold Scorer_DeterministicWeight. rewrite DeterministicWeight_loop_spec. reflexivity. }
  split; [|split; [|split; [|split]]].
  - intros H. rewrite Hdw, H. split; reflexivity.
  - intros H. rewrite Hdw, H. reflexivity.
  - intros H. subst total. rewrite (nonSkip_all_skip results H). reflexivity.
  - intros H H2 cr. subst cr. rewrite (Score_above_floor s results H2). cbn zeta.
    cbn [CompositeResult.ValidScore CompositeResult.CompositeScore].
    fold total. split; [reflexivity|]. split; [reflexivity|].
    split; [now apply div_zero_not_finite | now apply div_zero_out_of_range].
  - apply DeterministicWeight_in_range.
Qed.

(** The guard on the all-skip list of the package's tests, and the
    missing guard on two scored results whose weights are both zero. *)
Lemma DeterministicWeight_zero_total_guard_witness :
  (Scorer_DeterministicWeight (NewScorer DefaultScorerConfig) test_all_skip = 0%float
   /\ Scorer_DeterministicWeight (NewScorer DefaultScorerConfig) [] = 0%float)
  /\ Scorer_DeterministicWeight (NewScorer zeroWeightsConfig) test_two_fail = 0%float
  /\ CompositeResult.ValidScore (Scorer_Score (NewScorer zeroWeightsConfig) test_two_fail)
     = true
  /\ PrimFloat.is_finite
       (CompositeResult.CompositeScore
          (Scorer_Score (NewScorer zeroWeightsConfig) test_two_fail)) = false
  /\ in_unit_interval
       (Scorer_DeterministicWeight (NewScorer DefaultScorerConfig) test_three_pass) = true.
Proof.
  destruct (DeterministicWeight_zero_total_guard (NewScorer DefaultScorerConfig) test_all_skip)
    as (Hskip & _ & Htot & _).
  destruct (DeterministicWeight_zero_total_guard (NewScorer DefaultScorerConfig) [])
    as (Hnil & _ & Htot0 & _).
  destruct (DeterministicWeight_zero_total_guard (NewScorer zeroWeightsConfig) test_two_fail)
    as (Hdw & _ & _ & Hscore & _).
  destruct (DeterministicWeight_zero_total_guard (NewScorer DefaultScorerConfig) test_three_pass)
    as (_ & _ & _ & _ & Hrange).
  assert (Hz : feq (fsum (map (weightOf (NewScorer zeroWeightsConfig)) (nonSkip test_two_fail)))
                 0%float = true) by (vm_compute; reflexivity).
  assert (H2 : 2 <= length (nonSkip test_two_fail)) by (vm_compute; lia).
  split; [split|split; [|split; [|split]]].
  - exact (proj1 (Hskip (Htot eq_refl))).
  - exact (proj1 (Hnil (Htot0 eq_refl))).
  - exact (proj1 (Hdw Hz)).
  - exact (proj1 (Hscore Hz H2)).
  - exact (proj1 (proj2 (proj2 (Hscore Hz H2)))).
  - exact (Hrange DefaultWeights_in_range).
Defined.

(** C5 (composite range bound), at the input where the code leaves
    it.  Both configured weights are 0, hence within [[0,1]]; both
    scores are within [[0,1]]; two results are non-skip.  [Score]
    divides 0 by 0: the composite it returns with ValidScore=true is
    NaN, which is not in [[0,1]]. *)
Theorem Score_zero_weights_composite_nan :
  let cr := Scorer_Score (NewScorer zeroWeightsConfig) test_two_fail in
  map_Forall (fun _ w => in_unit_interval w = true)
    (ScorerConfig.Weights zeroWeightsConfig)
  /\ Forall (fun r => in_unit_interval (TechniqueResult.Score r) = true) test_two_fail
  /\ 2 <= length (nonSkip test_two_fail)
  /\ CompositeResult.ValidScore cr = true
  /\ CompositeResult.Action cr = ActionHumanReview
  /\ PrimFloat.is_nan (CompositeResult.CompositeScore cr) = true
  /\ in_unit_interval (CompositeResult.CompositeScore cr) = false.
Proof.
  cbn zeta. split; [|split; [|split]].
  - unfold zeroWeightsConfig. cbn [ScorerConfig.Weights].
    repeat (apply map_Forall_insert_2; [reflexivity|]). apply map_Forall_empty.
  - repeat constructor.
  - vm_compute. lia.
  - vm_compute. repeat split; reflexivity.
Qed.

(** C6, as stated, fails: a configuration with the weight -0.5 is not
    rejected.  [NewScorer] returns a scorer that holds it unchanged,
    the aggregation runs with it and yields a valid composite of 2
    and the action accept; and with no result at all (no technique
    ran) [Score] returns a composite result, not an error. *)
Lemma NewScorer_accepts_out_of_range_weight :
  let s := NewScorer negativeWeightConfig in
  let cr := Scorer_Score s test_zero_and_one in
  ScorerConfig.Weights negativeWeightConfig !! "translation_validation"
    = Some (-0.50)%float
  /\ in_unit_interval (-0.50)%float = false
  /\ Scorer.config s = negativeWeightConfig
  /\ CompositeResult.ValidScore cr = true
  /\ CompositeResult.CompositeScore cr = 2%float
  /\ CompositeResult.Action cr = ActionAccept
  /\ Scorer_Score s [] =
     {| CompositeResult.TechniqueResults := [];
        CompositeResult.CompositeScore := 0%float;
        CompositeResult.Action := ActionHumanReview;
        CompositeResult.ValidScore := false |}.
Proof. cbn zeta. vm_compute. repeat split; reflexivity. Qed.

(** C6, amended.  The three named errors are distinct values, but
    nothing returns them: [NewScorer] checks nothing and returns, for
    every configuration, a scorer holding exactly that configuration,
    whose weights [weightFor] then hands out as they are; [Score] on an
    empty result list returns ValidScore=false with human_review. *)
Theorem NewScorer_performs_no_validation (cfg : ScorerConfig.t) :
  Scorer.config (NewScorer cfg) = cfg
  /\ (forall name w, ScorerConfig.Weights cfg !! name = Some w ->
        Scorer_weightFor (NewScorer cfg) name = w)
  /\ Scorer_Score (NewScorer cfg) [] =
     {| CompositeResult.TechniqueResults := [];
        CompositeResult.CompositeScore := 0%float;
        CompositeResult.Action := ActionHumanReview;
        CompositeResult.ValidScore := false |}
  /\ ErrInvalidWeight <> ErrNoTechniques
  /\ ErrInvalidWeight <> ErrInsufficientTechniques
  /\ ErrNoTechniques <> ErrInsufficientTechniques.
Proof.
  split; [reflexivity|]. split; [|split].
  - intros name w H. unfold Scorer_weightFor, NewScorer. cbn [Scorer.config].
    now rewrite H.
  - reflexivity.
  - repeat split; discriminate.
Qed.

Lemma NewScorer_performs_no_validation_witness :
  Scorer.config (NewScorer negativeWeightConfig) = negativeWeightConfig
  /\ Scorer_weightFor (NewScorer negativeWeightConfig) "translation_validation"
     = (-0.50)%float.
Proof.
  destruct (NewScorer_performs_no_validation negativeWeightConfig) as (Hc & Hw & _).
  split; [exact Hc|].
  apply Hw. vm_compute. reflexivity.
Defined.

End ScorerProperties.

(** ** The mutation runner: site discovery *)

Section SiteDiscovery.

(** Induction over a syntax tree, with the hypothesis available for
    every child of a node of another kind. *)
Lemma Node_children_ind (P : Node -> Prop) :
  (forall line X Op Y, P X -> P Y -> P (BinaryExpr line X Op Y)) ->
  (forall line Op X, P X -> P (UnaryExpr line Op X)) ->
  (forall children, Forall P children -> P (OtherNode children)) ->
  forall n, P n.
Proof.
  intros Hbin Hun Hother.
  fix IH 1. intros [line X Op Y | line Op X | children].
  - apply Hbin; apply IH.
  - apply Hun; apply IH.
  - apply Hother. induction children as [|c cs IHcs]; constructor; [apply IH | exact IHcs].
Qed.

(** The walk is a left fold of the callback over [nodes]. *)
Lemma ast_Inspect_nodes {A : Type} (f : Node -> A -> A) (n : Node) :
  forall a, ast_Inspect f n a = fold_left (fun acc m => f m acc) (nodes n) a.
Proof.
  induction n as [line X Op Y IHX IHY | line Op X IHX | children IHc]
    using Node_children_ind; intros a; cbn [ast_Inspect nodes fold_left].
  - now rewrite fold_left_app, IHX, IHY.
  - now rewrite IHX.
  - generalize (f (OtherNode children) a). clear a.
    induction IHc as [|c cs Hc _ IHcs]; intros a; [reflexivity|].
    cbn [fold_left flat_map]. now rewrite fold_left_app, Hc, IHcs.
Qed.

Lemma fold_left_append_flat_map {A B : Type} (g : A -> list B) (l : list A) :
  forall acc, fold_left (fun acc x => (acc ++ g x)%list) l acc = (acc ++ flat_map g l)%list.
Proof.
  induction l as [|x l IH]; intros acc; cbn [fold_left flat_map].
  - now rewrite app_nil_r.
  - now rewrite IH, app_assoc.
Qed.

Lemma operatorReplacement_spec op : operatorReplacement op = spec_replacement op.
Proof. destruct op; reflexivity. Qed.

Lemma boundaryChange_spec op : boundaryChange op = spec_boundary op.
Proof. destruct op; reflexivity. Qed.

Lemma siteMutants_spec filePath n : siteMutants filePath n = spec_siteMutants filePath n.
Proof.
  destruct n as [line X Op Y | line Op X | children]; [| |reflexivity].
  - cbn [siteMutants spec_siteMutants].
    rewrite operatorReplacement_spec, boundaryChange_spec. reflexivity.
  - destruct Op; reflexivity.
Qed.

Lemma inspectSites_spec filePath f :
  inspectSites filePath f = flat_map (spec_siteMutants filePath) (nodes f).
Proof.
  unfold inspectSites. rewrite ast_Inspect_nodes, fold_left_append_flat_map.
  cbn [app]. apply flat_map_ext. intros n. apply siteMutants_spec.
Qed.

(** C4 (mutation taxonomy).  The two tables of the code are the
    pairings of the specification, each its own inverse; the sites of
    a file are, node by node in walk order, exactly the mutants of the
    taxonomy: per binary expression one operator replacement when the
    operator is one of the twelve and, independently, one boundary
    change when it is relational, per logical-not one condition
    negation, and nothing for any other node.  A [<] site yields the
    two mutants [>=] and [<=]. *)
Theorem mutation_taxonomy :
  (forall op, operatorReplacement op = spec_replacement op)
  /\ (forall op, boundaryChange op = spec_boundary op)
  /\ (forall op, from_option (fun r => spec_replacement r = Some op /\ r <> op) True
                   (spec_replacement op))
  /\ (forall op, from_option (fun b => spec_boundary b = Some op /\ b <> op) True
                   (spec_boundary op))
  /\ (forall op, is_Some (spec_replacement op) <->
                 op ∈ [ADD; SUB; MUL; QUO; EQL; NEQ; LSS; GEQ; GTR; LEQ; LAND; LOR])
  /\ (forall op, is_Some (spec_boundary op) <-> op ∈ [LSS; LEQ; GTR; GEQ])
  /\ (forall filePath f,
        inspectSites filePath f = flat_map (spec_siteMutants filePath) (nodes f))
  /\ (forall (Ext : Type) (parser_ParseFile : string -> World.t Ext -> option Node)
             filePath w,
        MutationRunner_findMutationSites parser_ParseFile filePath w =
        (fun f => flat_map (spec_siteMutants filePath) (nodes f))
          <$> parser_ParseFile filePath w)
  /\ (forall filePath line X Y,
        siteMutants filePath (BinaryExpr line X LSS Y) =
        [ siteMutant filePath line MutationOperatorReplace "<" ">=";
          siteMutant filePath line MutationBoundaryChange "<" "<=" ])
  /\ (forall filePath line X,
        siteMutants filePath (UnaryExpr line NOT X) =
        [ siteMutant filePath line MutationConditionNegate "!expr" "expr" ]).
Proof.
  split; [exact operatorReplacement_spec|].
  split; [exact boundaryChange_spec|].
  split; [intros op; destruct op; cbn; (exact I || (split; [reflexivity|discriminate]))|].
  split; [intros op; destruct op; cbn; (exact I || (split; [reflexivity|discriminate]))|].
  split.
  { intros op; split.
    - intros [r Hr]. destruct op; try discriminate Hr; set_solver.
    - intros H. destruct op; cbn; eauto;
        exfalso; repeat (apply elem_of_cons in H as [H|H]; [discriminate H|]);
        now apply elem_of_nil in H. }
  split.
  { intros op; split.
    - intros [r Hr]. destruct op; try discriminate Hr; set_solver.
    - intros H. destruct op; cbn; eauto;
        exfalso; repeat (apply elem_of_cons in H as [H|H]; [discriminate H|]);
        now apply elem_of_nil in H. }
  split; [exact inspectSites_spec|].
  split.
  { intros Ext parser_ParseFile filePath w. unfold MutationRunner_findMutationSites.
    destruct (parser_ParseFile filePath w); cbn; [|reflexivity].
    now rewrite inspectSites_spec. }
  split; reflexivity.
Qed.

(** The sites of [if a < b { return a + b }; return a - b]: two for
    [<], one each for [+] and [-], in walk order. *)
Lemma mutation_taxonomy_witness :
  inspectSites "calc.go" scenario_tree =
  [ siteMutant "calc.go" 1 MutationOperatorReplace "<" ">=";
    siteMutant "calc.go" 1 MutationBoundaryChange "<" "<=";
    siteMutant "calc.go" 1 MutationOperatorReplace "+" "-";
    siteMutant "calc.go" 1 MutationOperatorReplace "-" "+" ].
Proof.
  destruct mutation_taxonomy as (_ & _ & _ & _ & _ & _ & Hsites & _).
  rewrite Hsites. reflexivity.
Defined.

End SiteDiscovery.

(** ** The mutation runner: the apply, test, restore cycle *)

Section CycleProperties.
Context {Ext : Type}.
Variable os_ReadFile : string -> World.t Ext -> option string.
Variable os_WriteFile : string -> string -> World.t Ext -> World.t Ext * option error.

Implicit Types (m : MutationRunner.t Ext) (w : World.t Ext).

(** C3 (restoration).  If the writes to the file succeed, then a
    cycle of [applyAndTest] either writes nothing at all or leaves in
    the file exactly the bytes that were read at the start of the cycle
    --- and so, a read returning what is on disk, the bytes the file
    held before the cycle: whether the mutant applied or not, whatever
    the test command did to the world, and whether it returned an error
    or not. *)
Theorem applyAndTest_restores_file m filePath line original mutated packages w :
  (forall data w', os_WriteFile filePath data w' = (World_store filePath data w', None)) ->
  let after :=
    fst (MutationRunner_applyAndTest os_ReadFile os_WriteFile m
           filePath line original mutated packages w) in
  (os_ReadFile filePath w = None -> after = w)
  /\ (forall content, os_ReadFile filePath w = Some content ->
                      after = w \/ World.files after !! filePath = Some content)
  /\ ((forall content, os_ReadFile filePath w = Some content ->
                       World.files w !! filePath = Some content) ->
      World.files after !! filePath = World.files w !! filePath).
Proof.
  intros Hwrite after.
  assert (Hcases : after = w
                   \/ exists content, os_ReadFile filePath w = Some content
                                      /\ World.files after !! filePath = Some content).
  { subst after. unfold MutationRunner_applyAndTest.
    destruct (os_ReadFile filePath w) as [content|] eqn:Hread; [|now left].
    destruct ((line <? 1)%Z || (Z.of_nat (length (strings_Split_newline content)) <? line)%Z);
      [now left|].
    match goal with |- context [String.eqb ?a ?b] => destruct (String.eqb a b) end;
      [now left|].
    right. exists content. split; [reflexivity|].
    rewrite Hwrite.
    destruct (MutationRunner.runTests m packages _) as [w2 err].
    rewrite Hwrite. cbn [fst World_store World.files].
    apply lookup_insert_eq. }
  split; [|split].
  - intros Hread. destruct Hcases as [H|(content & Hc & _)]; [exact H|congruence].
  - intros content Hread. destruct Hcases as [H|(content' & Hc & Hfile)]; [now left|].
    right. congruence.
  - intros Hdisk. destruct Hcases as [H|(content & Hc & Hfile)]; [now rewrite H|].
    rewrite Hfile. symmetry. now apply Hdisk.
Qed.

(** C7, amended.  On the path that reaches the restoring write, a
    failure of that write is dropped: [applyAndTest] returns the kill
    flag that the test command alone decides, and the world as the
    failed write left it; the error of the write is in no part of the
    result. *)
Theorem applyAndTest_discards_restore_error
    m filePath line original mutated packages w content w1 w2 w3 testErr restoreErr :
  os_ReadFile filePath w = Some content ->
  let lines := strings_Split_newline content in
  (1 <= line <= Z.of_nat (length lines))%Z ->
  let originalLine := nth (Z.to_nat (line - 1)) lines "" in
  let mutatedLine := strings_Replace1 originalLine original mutated in
  mutatedLine <> originalLine ->
  os_WriteFile filePath
    (strings_Join (<[Z.to_nat (line - 1) := mutatedLine]> lines) newline) w = (w1, None) ->
  MutationRunner.runTests m packages w1 = (w2, testErr) ->
  os_WriteFile filePath content w2 = (w3, Some restoreErr) ->
  MutationRunner_applyAndTest os_ReadFile os_WriteFile m filePath line original mutated packages w
  = (w3, bool_decide (testErr <> None)).
Proof.
  intros Hread lines Hrange originalLine mutatedLine Happlies Hw1 Htest Hw3.
  unfold MutationRunner_applyAndTest. rewrite Hread. fold lines.
  replace ((line <? 1)%Z || (Z.of_nat (length lines) <? line)%Z) with false
    by (symmetry; apply orb_false_intro; apply Z.ltb_ge; lia).
  fold originalLine. fold mutatedLine.
  destruct (String.eqb_spec mutatedLine originalLine) as [Heq|_]; [contradiction|].
  rewrite Hw1, Htest, Hw3. reflexivity.
Qed.

End CycleProperties.

(** A cycle on the sample file: the mutant applies, the tests fail,
    every write succeeds, and the file is as it was. *)
Lemma applyAndTest_restores_file_witness :
  (forall data w', os_WriteFile_ok "calc.go" data w' = (World_store "calc.go" data w', None))
  /\ os_ReadFile_disk "calc.go" calc_world = Some calc_go
  /\ snd (MutationRunner_applyAndTest os_ReadFile_disk os_WriteFile_ok failing_tests
            "calc.go" 2 "+" "-" ["./calc"] calc_world) = true
  /\ World.files
       (fst (MutationRunner_applyAndTest os_ReadFile_disk os_WriteFile_ok failing_tests
               "calc.go" 2 "+" "-" ["./calc"] calc_world)) !! "calc.go"
     = World.files calc_world !! "calc.go".
Proof.
  assert (H : forall data w',
             os_WriteFile_ok "calc.go" data w' = (World_store "calc.go" data w', None))
    by (intros data w'; reflexivity).
  split; [exact H|]. split; [vm_compute; reflexivity|]. split; [vm_compute; reflexivity|].
  exact (proj2 (proj2 (applyAndTest_restores_file os_ReadFile_disk os_WriteFile_ok
                         failing_tests "calc.go" 2 "+" "-" ["./calc"] calc_world H))
               (fun content Hread => Hread)).
Defined.

(** C7, as stated, fails.  On a disk that refuses the restoring write,
    the cycle on the sample file leaves the mutated bytes in the file,
    and the caller receives [true], the very value it receives when the
    restoration succeeds: nothing tells it of the failure. *)
Lemma restore_failure_not_reported :
  let refusing := os_WriteFile_refusing calc_go in
  let cycle os :=
    MutationRunner_applyAndTest os_ReadFile_disk os failing_tests "calc.go" 2 "+" "-" ["./calc"] calc_world in
  snd (refusing "calc.go" calc_go (fst (os_WriteFile_ok "calc.go" calc_go_mutated calc_world)))
    = Some "open calc.go: permission denied"
  /\ World.files (fst (cycle refusing)) !! "calc.go" = Some calc_go_mutated
  /\ calc_go_mutated <> calc_go
  /\ snd (cycle refusing) = true
  /\ snd (cycle os_WriteFile_ok) = true.
Proof.
  cbn zeta. split; [vm_compute; reflexivity|]. split; [vm_compute; reflexivity|].
  split; [vm_compute; discriminate|]. split; vm_compute; reflexivity.
Qed.

(** The same cycle, through the theorem: the test error alone decides
    the result. *)
Lemma applyAndTest_discards_restore_error_witness :
  MutationRunner_applyAndTest os_ReadFile_disk (os_WriteFile_refusing calc_go) failing_tests
    "calc.go" 2 "+" "-" ["./calc"] calc_world
  = (World_store "calc.go" calc_go_mutated calc_world, true).
Proof.
  refine (applyAndTest_discards_restore_error os_ReadFile_disk (os_WriteFile_refusing calc_go) failing_tests
            "calc.go" 2 "+" "-" ["./calc"] calc_world calc_go
            (World_store "calc.go" calc_go_mutated calc_world)
            (World_store "calc.go" calc_go_mutated calc_world)
            (World_store "calc.go" calc_go_mutated calc_world)
            (Some "tests failed") "open calc.go: permission denied" _ _ _ _ _ _).
  - vm_compute; reflexivity.
  - vm_compute; split; discriminate.
  - vm_compute; discriminate.
  - vm_compute; reflexivity.
  - reflexivity.
  - vm_compute; reflexivity.
Defined.

(** ** The two techniques: skip results and the validator's score *)

Section RunProperties.
Context {Ext : Type}.
Variable os_ReadFile : string -> World.t Ext -> option string.
Variable os_WriteFile : string -> string -> World.t Ext -> World.t Ext * option error.
Variable parser_ParseFile : string -> World.t Ext -> option Node.

Implicit Types (m : MutationRunner.t Ext) (t : TranslationValidator.t Ext)
               (w : World.t Ext) (input : InspectInput.t).

(** Files that do not qualify add no site. *)
Lemma sites_loop_no_candidate files w : forall allMutants,
  forallb (fun f => negb (qualifies f)) files = true ->
  sites_loop parser_ParseFile files w allMutants = allMutants.
Proof.
  induction files as [|file rest IH]; intros acc H; [reflexivity|].
  cbn [forallb] in H. apply andb_prop in H as [Hq Hrest].
  cbn [sites_loop]. unfold qualifies in Hq.
  rewrite negb_andb, negb_involutive in Hq. rewrite Hq. auto.
Qed.

(** The tally counts the mutants that are not equivalent. *)
Lemma tally_loop_total allMutants : forall killed total evidence,
  snd (fst (tally_loop allMutants killed total evidence))
  = total + nonEquivalentTotal allMutants.
Proof.
  induction allMutants as [|mut rest IH]; intros killed total evidence.
  - cbn. now rewrite Nat.add_0_r.
  - cbn [tally_loop]. unfold nonEquivalentTotal. cbn [List.filter].
    destruct (Mutant.Equivalent mut); cbn [negb].
    + apply IH.
    + destruct (Mutant.Killed mut); rewrite IH; unfold nonEquivalentTotal;
        cbn [length]; lia.
Qed.

(** C8 (skip, never an error).  The mutation runner returns the skip
    result (verdict skip, score 0, deterministic) with a nil error when
    it is not applicable, when no file qualifies, when no site is
    found, and when no mutant is left in the denominator; the
    translation validator does so when it is not applicable and when
    no check was generated. *)
Theorem Run_skip_never_error m t input w :
  (let allMutants := sites_loop parser_ParseFile (InspectInput.ModifiedFiles input) w [] in
   MutationRunner_Applicable input = false
   \/ forallb (fun f => negb (qualifies f)) (InspectInput.ModifiedFiles input) = true
   \/ allMutants = []
   \/ nonEquivalentTotal
        (snd (apply_loop os_ReadFile os_WriteFile m (InspectInput.ModifiedPackages input) allMutants w))
      = 0 ->
   snd (MutationRunner_Run os_ReadFile os_WriteFile parser_ParseFile m input w)
   = (skipResult "mutation_testing", None))
  /\ (TranslationValidator_Applicable input = false
      \/ TranslationValidator_buildChecks t input = [] ->
      TranslationValidator_Run t input w
      = (w, (skipResult "translation_validation", None)))
  /\ (forall name,
        skipResult name =
        {| TechniqueResult.Name := name;
           TechniqueResult.Score := 0%float;
           TechniqueResult.Verdict := VerdictSkip;
           TechniqueResult.Evidence := [];
           TechniqueResult.Deterministic := true |}).
Proof.
  split; [|split; [|reflexivity]].
  - intros allMutants H. unfold MutationRunner_Run. fold allMutants.
    destruct (MutationRunner_Applicable input); [|reflexivity]. cbn [negb].
    assert (Hcases : allMutants = []
                     \/ nonEquivalentTotal
                          (snd (apply_loop os_ReadFile os_WriteFile m
                                  (InspectInput.ModifiedPackages input) allMutants w)) = 0).
    { destruct H as [H|[H|[H|H]]]; [discriminate H| |now left|now right].
      left. subst allMutants. now apply sites_loop_no_candidate. }
    destruct Hcases as [Hnil|Hzero].
    + rewrite Hnil. reflexivity.
    + destruct (Nat.eqb (length allMutants) 0); [reflexivity|].
      destruct (apply_loop os_ReadFile os_WriteFile m (InspectInput.ModifiedPackages input) allMutants w)
        as [w' tested].
      cbn [snd] in Hzero.
      pose proof (tally_loop_total tested 0 0 []) as Htotal.
      destruct (tally_loop tested 0 0 []) as [[killed total] evidence].
      cbn [fst snd] in Htotal. rewrite Hzero in Htotal. subst total. reflexivity.
  - intros H. unfold TranslationValidator_Run.
    destruct (TranslationValidator_Applicable input); [|reflexivity]. cbn [negb].
    destruct H as [H|H]; [discriminate H|]. rewrite H. reflexivity.
Qed.

(** The evidence entry of one file-existence check. *)
Lemma checks_loop_file_exists t input f rest w w1 ok passed evidence :
  TranslationValidator.fileExists t f w = (w1, ok) ->
  checks_loop input (fileChecks t (f :: rest)) w passed evidence
  = checks_loop input (fileChecks t rest) w1
      (if ok then S passed else passed)
      (evidence ++
       [ {| Evidence.CriterionID := "file_exists";
            Evidence.FilePath := "";
            Evidence.Detail :=
              (if ok then "passed: " else "failed: ") ++ "file " ++ f ++ " exists" |} ])%list.
Proof.
  intros H. cbn [fileChecks map checks_loop MechanicalCheck.Check
                 MechanicalCheck.CriterionID MechanicalCheck.Description].
  rewrite H. destruct ok; reflexivity.
Qed.

(** C9 (scenario D).  With a criterion present, exactly two modified
    files of which exactly one exists, and no declared package, [Run]
    returns score 0.5, verdict fail and two evidence entries in
    generation order, both with criterion id "file_exists": the one of
    the existing file begins with "passed:", the other with
    "failed:". *)
Theorem TranslationValidator_scenario_D t input w f1 f2 w1 w2 ok1 ok2 :
  TranslationValidator_Applicable input = true ->
  InspectInput.ModifiedFiles input = [f1; f2] ->
  InspectInput.ModifiedPackages input = [] ->
  TranslationValidator.fileExists t f1 w = (w1, ok1) ->
  TranslationValidator.fileExists t f2 w1 = (w2, ok2) ->
  xorb ok1 ok2 = true ->
  let e1 := {| Evidence.CriterionID := "file_exists"; Evidence.FilePath := "";
               Evidence.Detail :=
                 (if ok1 then "passed: " else "failed: ") ++ "file " ++ f1 ++ " exists" |} in
  let e2 := {| Evidence.CriterionID := "file_exists"; Evidence.FilePath := "";
               Evidence.Detail :=
                 (if ok2 then "passed: " else "failed: ") ++ "file " ++ f2 ++ " exists" |} in
  TranslationValidator_Run t input w
  = (w2, ({| TechniqueResult.Name := "translation_validation";
             TechniqueResult.Score := 0.5%float;
             TechniqueResult.Verdict := VerdictFail;
             TechniqueResult.Evidence := [e1; e2];
             TechniqueResult.Deterministic := true |}, None))
  /\ ((String.prefix "passed:" (Evidence.Detail e1) = true
       /\ String.prefix "failed:" (Evidence.Detail e2) = true)
      \/ (String.prefix "failed:" (Evidence.Detail e1) = true
          /\ String.prefix "passed:" (Evidence.Detail e2) = true)).
Proof.
  intros Happ Hfiles Hpkgs H1 H2 Hxor e1 e2. split.
  - unfold TranslationValidator_Run, TranslationValidator_buildChecks.
    rewrite Happ, Hfiles, Hpkgs. cbn [negb length Nat.ltb Nat.leb].
    change (length (fileChecks t [f1; f2])) with 2. cbn [Nat.eqb].
    rewrite (checks_loop_file_exists t input f1 [f2] w w1 ok1 0 [] H1).
    rewrite (checks_loop_file_exists t input f2 [] w1 w2 ok2 _ _ H2).
    cbn [fileChecks map checks_loop app].
    destruct ok1, ok2; try discriminate Hxor; reflexivity.
  - subst e1 e2. cbn [Evidence.Detail].
    destruct ok1, ok2; try discriminate Hxor; [left|right]; split; reflexivity.
Qed.

End RunProperties.

(** A code change with no candidate file and no criteria: both
    techniques skip. *)
Lemma Run_skip_never_error_witness :
  MutationRunner_Applicable input_no_candidates = true
  /\ snd (MutationRunner_Run os_ReadFile_disk os_WriteFile_ok calc_parser failing_tests
            input_no_candidates calc_world)
     = (skipResult "mutation_testing", None)
  /\ TranslationValidator_Run test_validator input_no_candidates calc_world
     = (calc_world, (skipResult "translation_validation", None)).
Proof.
  destruct (Run_skip_never_error os_ReadFile_disk os_WriteFile_ok calc_parser failing_tests test_validator
              input_no_candidates calc_world) as (Hmutation & Hvalidator & _).
  split; [reflexivity|]. split.
  - apply Hmutation. right. left. vm_compute. reflexivity.
  - apply Hvalidator. left. reflexivity.
Defined.

(** [TestTranslationValidatorEvidenceRecorded], through the theorem. *)
Lemma TranslationValidator_scenario_D_witness :
  TranslationValidator_Run test_validator input_two_files calc_world
  = (calc_world,
     ({| TechniqueResult.Name := "translation_validation";
         TechniqueResult.Score := 0.5%float;
         TechniqueResult.Verdict := VerdictFail;
         TechniqueResult.Evidence :=
           [ {| Evidence.CriterionID := "file_exists"; Evidence.FilePath := "";
                Evidence.Detail := "passed: file exists.go exists" |};
             {| Evidence.CriterionID := "file_exists"; Evidence.FilePath := "";
                Evidence.Detail := "failed: file missing.go exists" |} ];
         TechniqueResult.Deterministic := true |}, None)).
Proof.
  refine (proj1 (TranslationValidator_scenario_D test_validator input_two_files calc_world
                   "exists.go" "missing.go" calc_world calc_world true false _ _ _ _ _ _));
    reflexivity.
Defined.


(** ** The mutation runner: a full run leaves the files as they were *)

Section FullRun.
Context {Ext : Type}.
Variable os_ReadFile : string -> World.t Ext -> option string.
Variable os_WriteFile : string -> string -> World.t Ext -> World.t Ext * option error.
Variable parser_ParseFile : string -> World.t Ext -> option Node.
Variable m : MutationRunner.t Ext.

(** A read returns what is on disk, every write succeeds, and the test
    command writes to no file. *)
Hypothesis reads_disk :
  forall path w content, os_ReadFile path w = Some content ->
                         World.files w !! path = Some content.
Hypothesis writes_succeed :
  forall path data w, os_WriteFile path data w = (World_store path data w, None).
Hypothesis tests_keep_files :
  forall packages w, World.files (fst (MutationRunner.runTests m packages w)) = World.files w.

Lemma applyAndTest_keeps_files filePath line original mutated packages (w : World.t Ext) :
  World.files
    (fst (MutationRunner_applyAndTest os_ReadFile os_WriteFile m filePath line original mutated packages w))
  = World.files w.
Proof.
  unfold MutationRunner_applyAndTest.
  destruct (os_ReadFile filePath w) as [content|] eqn:Hread; [|reflexivity].
  destruct ((line <? 1)%Z || (Z.of_nat (length (strings_Split_newline content)) <? line)%Z);
    [reflexivity|].
  match goal with |- context [String.eqb ?a ?b] => destruct (String.eqb a b) end;
    [reflexivity|].
  rewrite writes_succeed.
  match goal with |- context [MutationRunner.runTests m packages ?w1] =>
    pose proof (tests_keep_files packages w1) as Hkeep;
    destruct (MutationRunner.runTests m packages w1) as [w2 err] end.
  rewrite writes_succeed. cbn [fst World_store World.files] in *.
  rewrite Hkeep, insert_insert_eq. apply insert_id. now apply reads_disk.
Qed.

Lemma apply_loop_keeps_files packages allMutants : forall w : World.t Ext,
  World.files (fst (apply_loop os_ReadFile os_WriteFile m packages allMutants w)) = World.files w.
Proof.
  induction allMutants as [|mut rest IH]; intros w; [reflexivity|].
  cbn [apply_loop].
  pose proof (applyAndTest_keeps_files (Mutant.FilePath mut) (Mutant.Line mut)
                (Mutant.Original mut) (Mutant.Mutated mut) packages w) as Hcycle.
  destruct (MutationRunner_applyAndTest os_ReadFile os_WriteFile m (Mutant.FilePath mut) (Mutant.Line mut)
              (Mutant.Original mut) (Mutant.Mutated mut) packages w) as [w1 killed].
  specialize (IH w1).
  destruct (apply_loop os_ReadFile os_WriteFile m packages rest w1) as [w2 rest'].
  cbn [fst] in *. congruence.
Qed.

(** After a full run every file holds the bytes it held before the
    run, whichever mutants were found, applied, killed or survived. *)
Theorem Run_keeps_files input (w : World.t Ext) :
  World.files (fst (MutationRunner_Run os_ReadFile os_WriteFile parser_ParseFile m input w))
  = World.files w.
Proof.
  unfold MutationRunner_Run.
  destruct (negb (MutationRunner_Applicable input)); [reflexivity|].
  destruct (Nat.eqb _ 0); [reflexivity|].
  match goal with |- context [apply_loop os_ReadFile os_WriteFile m ?pk ?ms w] =>
    pose proof (apply_loop_keeps_files pk ms w) as Hloop;
    destruct (apply_loop os_ReadFile os_WriteFile m pk ms w) as [w' tested] end.
  destruct (tally_loop tested 0 0 []) as [[killed total] evidence].
  destruct (Nat.eqb total 0); exact Hloop.
Qed.

End FullRun.

(** A full run over the sample file with a surviving mutant. *)
Lemma Run_keeps_files_witness :
  TechniqueResult.Verdict
    (fst (snd (MutationRunner_Run os_ReadFile_disk os_WriteFile_ok calc_parser passing_tests
                 input_calc calc_world))) = VerdictFail
  /\ World.files
       (fst (MutationRunner_Run os_ReadFile_disk os_WriteFile_ok calc_parser passing_tests
               input_calc calc_world))
     = World.files calc_world.
Proof.
  split; [vm_compute; reflexivity|].
  apply (Run_keeps_files os_ReadFile_disk os_WriteFile_ok calc_parser passing_tests).
  - intros path w content Hread. exact Hread.
  - intros path data w. reflexivity.
  - intros packages w. reflexivity.
Defined.

(** ** The order of all [float64] values *)

Section FloatOrderAll.
Local Open Scope Z_scope.
Local Abbreviation fexp := (SpecFloat.fexp prec emax).

Lemma finite_below_infinity s m e :
  valid_binary (S754_finite s m e) = true ->
  0 < Zpos m * 2 ^ (e + 1074) < 2 ^ 2200.
Proof.
  intros (Hc & He & Hd)%valid_finite.
  pose proof (digits2_pos_bounds m) as [_ Hm].
  assert (Hm' : Zpos m < 2 ^ 53).
  { eapply Z.lt_le_trans; [exact Hm|]. apply pow2_le. lia. }
  pose proof (pow2_pos (e + 1074) ltac:(lia)) as Hp.
  assert (Hpe : 2 ^ (e + 1074) <= 2 ^ 2045) by (apply pow2_le; lia).
  split; [nia|].
  assert (E : 2 ^ 2200 = 2 ^ 53 * 2 ^ 2045 * 2 ^ 102) by (vm_compute; reflexivity).
  pose proof (pow2_pos 102 ltac:(lia)) as H102.
  pose proof (pow2_pos 2045 ltac:(lia)) as H2045.
  pose proof (pow2_pos 53 ltac:(lia)) as H53.
  assert (H1 : Zpos m * 2 ^ (e + 1074) < 2 ^ 53 * 2 ^ 2045).
  { eapply Z.lt_le_trans; [apply Z.mul_lt_mono_pos_r; [exact Hp|exact Hm']|].
    apply Z.mul_le_mono_nonneg_l; lia. }
  rewrite E. set (c := 2 ^ 53 * 2 ^ 2045) in *. nia.
Qed.

Lemma CompOpp_compare a b : CompOpp (a ?= b) = (- a ?= - b).
Proof. rewrite <- Z.compare_opp. symmetry. apply Z.compare_antisym. Qed.

Lemma SFcompare_okey x y :
  valid_binary x = true -> valid_binary y = true ->
  not_nan x = true -> not_nan y = true ->
  SFcompare x y = Some (okey x ?= okey y).
Proof.
  intros Hvx Hvy Hx Hy.
  destruct x as [sx|sx| |sx mx ex], y as [sy|sy| |sy my ey]; try discriminate;
    cbn [SFcompare okey].
  - reflexivity.
  - f_equal. destruct sy; symmetry;
      [apply Z.compare_gt_iff | apply Z.compare_lt_iff]; pose proof (pow2_pos 2200); lia.
  - pose proof (finite_below_infinity _ _ _ Hvy) as Hb.
    f_equal. destruct sy; symmetry;
      [apply Z.compare_gt_iff | apply Z.compare_lt_iff]; lia.
  - f_equal. destruct sx; symmetry;
      [apply Z.compare_lt_iff | apply Z.compare_gt_iff]; pose proof (pow2_pos 2200); lia.
  - f_equal. pose proof (pow2_pos 2200).
    destruct sx, sy; symmetry;
      first [apply Z.compare_eq_iff; lia | apply Z.compare_lt_iff; lia | apply Z.compare_gt_iff; lia].
  - pose proof (finite_below_infinity _ _ _ Hvy) as Hb. f_equal.
    destruct sx, sy; symmetry;
      first [apply Z.compare_lt_iff; lia | apply Z.compare_gt_iff; lia].
  - pose proof (finite_below_infinity _ _ _ Hvx) as Hb. f_equal.
    destruct sx; symmetry;
      first [apply Z.compare_lt_iff; lia | apply Z.compare_gt_iff; lia].
  - pose proof (finite_below_infinity _ _ _ Hvx) as Hb. f_equal.
    destruct sx, sy; symmetry;
      first [apply Z.compare_lt_iff; lia | apply Z.compare_gt_iff; lia].
  - pose proof (finite_below_infinity _ _ _ Hvx) as Hbx.
    pose proof (finite_below_infinity _ _ _ Hvy) as Hby.
    assert (Hpos : forall s1 s2,
      valid_binary (S754_finite s1 mx ex) = true -> valid_binary (S754_finite s2 my ey) = true ->
      match ex ?= ey with
      | Eq => Pos.compare_cont Eq mx my
      | Lt => Lt
      | Gt => Gt
      end = (Zpos mx * 2 ^ (ex + 1074) ?= Zpos my * 2 ^ (ey + 1074))).
    { intros s1 s2 H1 H2.
      pose proof (SFcompare_nonneg (S754_finite false mx ex) (S754_finite false my ey)) as H.
      cbn [SFcompare sval nonneg negb] in H.
      specialize (H H1 H2 eq_refl eq_refl). now inversion H. }
    f_equal. destruct sx, sy.
    + rewrite <- CompOpp_compare, <- (Hpos true true Hvx Hvy).
      destruct (ex ?= ey); reflexivity.
    + symmetry. apply Z.compare_lt_iff. lia.
    + symmetry. apply Z.compare_gt_iff. lia.
    + apply (Hpos false false Hvx Hvy).
Qed.

Lemma SFleb_true_inv x y :
  valid_binary x = true -> valid_binary y = true ->
  SFleb x y = true <-> (not_nan x = true /\ not_nan y = true /\ okey x <= okey y).
Proof.
  intros Hvx Hvy. split.
  - intros H. unfold SFleb in H.
    assert (Hx : not_nan x = true) by (destruct x; try reflexivity; discriminate H).
    assert (Hy : not_nan y = true)
      by (destruct y; try reflexivity; destruct x; discriminate H).
    rewrite (SFcompare_okey x y) in H by assumption.
    split; [exact Hx|]. split; [exact Hy|].
    destruct (Z.compare_spec (okey x) (okey y)); try lia; discriminate.
  - intros (Hx & Hy & Hle). unfold SFleb. rewrite (SFcompare_okey x y) by assumption.
    destruct (Z.compare_spec (okey x) (okey y)); try lia; reflexivity.
Qed.

(** [<=] on [float64] is transitive. *)
Lemma fleb_trans a b c :
  PrimFloat.leb a b = true -> PrimFloat.leb b c = true -> PrimFloat.leb a c = true.
Proof.
  rewrite !FloatAxioms.leb_spec.
  pose proof (Prim2SF_valid a). pose proof (Prim2SF_valid b). pose proof (Prim2SF_valid c).
  rewrite !SFleb_true_inv by assumption. intuition lia.
Qed.

Lemma fleb_nan_l a b : PrimFloat.is_nan a = true -> PrimFloat.leb a b = false.
Proof.
  unfold is_nan. rewrite FloatAxioms.eqb_spec, FloatAxioms.leb_spec.
  pose proof (Prim2SF_valid a) as Hv.
  destruct (Prim2SF a) as [s|s| |s m e]; [destruct s; discriminate | destruct s; discriminate
    | reflexivity |].
  intros H. exfalso. unfold SFeqb in H. cbn [negb] in H.
  rewrite (SFcompare_okey _ _ Hv Hv eq_refl eq_refl), Z.compare_refl in H. discriminate.
Qed.

Lemma fleb_nan_r a b : PrimFloat.is_nan b = true -> PrimFloat.leb a b = false.
Proof.
  unfold is_nan. rewrite FloatAxioms.eqb_spec, FloatAxioms.leb_spec.
  pose proof (Prim2SF_valid b) as Hv.
  destruct (Prim2SF b) as [s|s| |s m e]; [destruct s; discriminate | destruct s; discriminate
    | destruct (Prim2SF a); reflexivity |].
  intros H. exfalso. unfold SFeqb in H. cbn [negb] in H.
  rewrite (SFcompare_okey _ _ Hv Hv eq_refl eq_refl), Z.compare_refl in H. discriminate.
Qed.

End FloatOrderAll.

(** ** Exact results: one, zero, and the quotient of two counts *)

Section FloatExact.
Local Open Scope Z_scope.
Local Abbreviation fexp := (SpecFloat.fexp prec emax).

(** A located value that is exactly a float rounds to that float. *)
Lemma round_located_exact m e k D :
  valid_binary (S754_finite false m e) = true -> 0 <= k -> 0 < D ->
  round_located (Zpos m * 2 ^ k * D) D (Zpos m * 2 ^ k) (e - k) = S754_finite false m e.
Proof.
  intros (Hc & He & Hd)%valid_finite Hk HD. unfold round_located.
  rewrite Zdigits2_mul_pow2 by lia. cbn [Zdigits2].
  replace (Zpos (digits2_pos m) + k + (e - k)) with (Zpos (digits2_pos m) + e) by lia.
  rewrite Hc. replace (Z.max (e - (e - k)) 0) with k by lia.
  replace (Zpos m * 2 ^ k * D) with (Zpos m * (2 ^ k * D)) by ring.
  pose proof (pow2_pos k Hk) as Hp.
  rewrite rne_exact by nia. cbn [Zdigits2].
  replace (e - k + k) with e by lia. rewrite Hc.
  replace (Z.max (e - e) 0) with 0 by lia. change (2 ^ 0) with 1.
  rewrite Z.div_1_r. replace (e + 0) with e by lia.
  replace (e <=? emax - prec) with true; [reflexivity|].
  symmetry. apply Z.leb_le. change (emax - prec) with 971. lia.
Qed.

(** [1 * w = w] for a weight that is zero or positive. *)
Lemma fmul_one_l w : fnonneg w = true -> (1 * w)%float = w.
Proof.
  intros Hw. apply Prim2SF_inj. rewrite FloatAxioms.mul_spec.
  unfold fnonneg in Hw. pose proof (Prim2SF_valid w) as Hv.
  change (Prim2SF 1%float) with (S754_finite false 4503599627370496 (-52)).
  destruct (Prim2SF w) as [s|s| |s m e]; try discriminate; unfold SF64mul; cbn [SFmul xorb].
  - reflexivity.
  - destruct s; [discriminate|].
    rewrite (binary_round_aux_located (Zpos (4503599627370496 * m)) 1 _ _ _
               (shr_record_of_loc_exact _ (Pos2Z.is_nonneg _))).
    pose proof (round_located_exact m e 52 1 Hv ltac:(lia) ltac:(lia)) as H.
    rewrite Z.mul_1_r in H. change (2 ^ 52) with 4503599627370496 in H.
    replace (Zpos m * 4503599627370496) with (Zpos (4503599627370496 * m)) in H by lia.
    replace (e - 52) with (-52 + e) in H by lia. exact H.
Qed.

(** [t / t = 1] for a positive finite [t]. *)
Lemma fdiv_self t : fnonneg t = true -> 0 < fval t -> (t / t)%float = 1%float.
Proof.
  intros Ht Hpos. apply Prim2SF_inj. rewrite FloatAxioms.div_spec.
  unfold fnonneg, fval in *. pose proof (Prim2SF_valid t) as Hv.
  change (Prim2SF 1%float) with (S754_finite false 4503599627370496 (-52)).
  destruct (Prim2SF t) as [s|s| |s m e]; try discriminate.
  destruct s; [discriminate|]. unfold SF64div. cbn [SFdiv xorb].
  destruct (SFdiv_core_binary_locates (Zpos m) e (Zpos m) e ltac:(lia) ltac:(lia))
    as (q & l & Hcore & Hq & Hloc).
  rewrite Hcore. rewrite (binary_round_aux_located _ _ _ _ _ Hloc).
  replace (Zdigits2 (Zpos m) + e - (Zdigits2 (Zpos m) + e)) with 0 in * by lia.
  change (fexp 0) with (-53) in *.
  replace (Z.min (-53) (e - e)) with (-53) in * by lia.
  replace (e - e - -53) with 53 in * by lia.
  assert (Eq : q = 2 ^ 53).
  { rewrite Hq, Z.mul_comm. apply Z.div_mul. lia. }
  rewrite Eq.
  pose proof (round_located_exact 4503599627370496 (-52) 1 (Zpos m) eq_refl ltac:(lia) ltac:(lia)) as H.
  change (Zpos 4503599627370496 * 2 ^ 1) with (2 ^ 53) in H.
  change (-52 - 1) with (-53) in H.
  rewrite (Z.mul_comm (2 ^ 53)) in H. exact H.
Qed.

(** [0 / t = 0] for a positive finite [t]. *)
Lemma fdiv_zero_l t : fnonneg t = true -> 0 < fval t -> (0 / t)%float = 0%float.
Proof.
  intros Ht Hpos. apply Prim2SF_inj. rewrite FloatAxioms.div_spec.
  unfold fnonneg, fval in *.
  change (Prim2SF 0%float) with (S754_zero false).
  destruct (Prim2SF t) as [s|s| |s m e]; try discriminate.
  destruct s; [discriminate|]. reflexivity.
Qed.

(** Adding the product of zero and a weight to zero leaves zero. *)
Lemma fadd_zero_mul w : fnonneg w = true -> (0 + 0 * w)%float = 0%float.
Proof.
  intros Hw. apply Prim2SF_inj.
  rewrite FloatAxioms.add_spec, FloatAxioms.mul_spec. unfold fnonneg in Hw.
  change (Prim2SF 0%float) with (S754_zero false).
  destruct (Prim2SF w) as [s|s| |s m e]; try discriminate; destruct s; reflexivity.
Qed.

Lemma ltb_fval f g :
  fnonneg f = true -> fnonneg g = true ->
  PrimFloat.ltb f g = (fval f <? fval g).
Proof.
  intros Hf Hg. rewrite FloatAxioms.ltb_spec. unfold SFltb.
  rewrite (SFcompare_nonneg _ _ (Prim2SF_valid f) (Prim2SF_valid g) Hf Hg).
  unfold Z.ltb, fval. destruct (sval (Prim2SF f) ?= sval (Prim2SF g)); reflexivity.
Qed.

Lemma Rnd_zero : Rnd 0 = 0.
Proof. reflexivity. Qed.

(** A count up to [2^54] converts to the rounding of its value. *)
Lemma float64_of_nat_fval n :
  Z.of_nat n <= 2 ^ 54 ->
  fnonneg (float64_of_nat n) = true
  /\ fval (float64_of_nat n) = Rnd (Z.of_nat n * 2 ^ 1074).
Proof.
  intros Hn. unfold fnonneg, fval, float64_of_nat.
  rewrite FloatAxioms.of_uint63_spec, Uint63.of_Z_spec.
  assert (H54 : 2 ^ 54 < 2 ^ 63) by (vm_compute; reflexivity).
  rewrite Z.mod_small by (change wB with (2 ^ 63); lia).
  destruct (Z.of_nat n) as [|p|p] eqn:E; [split; reflexivity| |lia].
  cbn [binary_normalize]. 
  pose proof (binary_round_sval p 0 ltac:(lia)) as H.
  change (0 + 1074) with 1074 in H. apply H.
  assert (Zpos p * 2 ^ 1074 <= 2 ^ 54 * 2 ^ 1074).
  { apply Z.mul_le_mono_nonneg_r; [apply Z.pow_nonneg|]; lia. }
  assert (2 ^ 54 * 2 ^ 1074 <= 2 ^ 1128) by (vm_compute; discriminate).
  lia.
Qed.

(** Counts up to [2^53] convert exactly. *)
Lemma Rnd_count n : 0 <= n <= 2 ^ 53 -> Rnd (n * 2 ^ 1074) = n * 2 ^ 1074.
Proof.
  intros [H0 H53]. destruct (Z.eq_dec n 0) as [->|Hne]; [reflexivity|].
  destruct (Z.eq_dec n (2 ^ 53)) as [->|Hne53]; [clear; vm_compute; reflexivity|].
  unfold Rnd. cbn zeta. rewrite Zdigits2_mul_pow2 by lia.
  destruct (Zdigits2_bounds n ltac:(lia)) as (Hd & Hlo & Hhi).
  assert (Hd53 : Zdigits2 n <= 53) by (apply Zdigits2_lt_pow; lia).
  set (t := Z.max (Zdigits2 n + 1074 - 53) 0).
  assert (Ht : 0 <= t <= 1074) by lia.
  rewrite (pow2_split 1074 t) by lia. rewrite Z.mul_assoc.
  rewrite rne_exact by (apply pow2_pos; lia). reflexivity.
Qed.

Lemma float64_of_nat_exact n :
  Z.of_nat n <= 2 ^ 53 ->
  fnonneg (float64_of_nat n) = true
  /\ fval (float64_of_nat n) = Z.of_nat n * 2 ^ 1074.
Proof.
  intros Hn. assert (H63 : Z.of_nat n <= 2 ^ 54).
  { eapply Z.le_trans; [exact Hn|]. vm_compute. discriminate. }
  destruct (float64_of_nat_fval n H63) as [Hnn Hv]. split; [exact Hnn|].
  rewrite Hv. apply Rnd_count. lia.
Qed.

(** A quotient that stays below one by one part in [2^53] rounds to a
    float below one. *)
Lemma SFdiv_below x y :
  valid_binary x = true -> valid_binary y = true ->
  nonneg x = true -> nonneg y = true ->
  0 < sval y -> sval x * 2 ^ 53 <= (2 ^ 53 - 1) * sval y ->
  nonneg (SF64div x y) = true /\ sval (SF64div x y) <= (2 ^ 53 - 1) * 2 ^ 1021.
Proof.
  intros Hvx Hvy Hx Hy Hpos Hle.
  destruct y as [sy|sy| |sy my ey]; try discriminate.
  destruct x as [sx|sx| |sx mx ex]; try discriminate; unfold SF64div; cbn [SFdiv].
  - split; [reflexivity|]. cbn [sval]. vm_compute. discriminate.
  - destruct sx, sy; try discriminate. cbn [xorb].
    pose proof (valid_finite _ _ _ Hvx) as (Hcx & Hex & Hdx).
    pose proof (valid_finite _ _ _ Hvy) as (Hcy & Hey & Hdy).
    cbn [sval] in Hle.
    destruct (SFdiv_core_binary_locates (Zpos mx) ex (Zpos my) ey ltac:(lia) ltac:(lia))
      as (q & l & Hcore & Hq & Hloc).
    rewrite Hcore. rewrite (binary_round_aux_located _ _ _ _ _ Hloc).
    set (e' := Z.min (fexp (Zdigits2 (Zpos mx) + ex - (Zdigits2 (Zpos my) + ey))) (ex - ey)) in *.
    set (A := Zpos mx * 2 ^ (ex - ey - e')) in *.
    pose proof (pow2_pos (ex + 1074) ltac:(lia)) as Hpx.
    pose proof (pow2_pos (ey + 1074) ltac:(lia)) as Hpy.
    assert (Hlt : Zpos mx * 2 ^ (ex + 1074) <= Zpos my * 2 ^ (ey + 1074)).
    { set (a := Zpos mx * 2 ^ (ex + 1074)) in *. set (b := Zpos my * 2 ^ (ey + 1074)) in *.
      assert (0 < a) by (subst a; nia). assert (0 < b) by (subst b; nia).
      change (2 ^ 53) with 9007199254740992 in Hle. lia. }
    assert (Hmag : Zdigits2 (Zpos mx) + ex <= Zdigits2 (Zpos my) + ey).
    { assert (H : Zdigits2 (Zpos mx * 2 ^ (ex + 1074)) <= Zdigits2 (Zpos my * 2 ^ (ey + 1074))).
      { apply Zdigits2_le. nia. }
      rewrite !Zdigits2_mul_pow2 in H by lia. lia. }
    assert (He' : e' <= -53).
    { subst e'.
      pose proof (fexp_mono (Zdigits2 (Zpos mx) + ex - (Zdigits2 (Zpos my) + ey)) 0
                    ltac:(lia)) as H.
      change (fexp 0) with (-53) in H.
      eapply Z.le_trans; [apply Z.le_min_l|]. exact H. }
    assert (Hs : 0 <= ex - ey - e') by (subst e'; lia).
    pose proof (pow2_pos (- 53 - e') ltac:(lia)) as Hpe.
    (* A * 2^53 <= (2^53 - 1) * my * 2^(-e') *)
    assert (HAle : A <= (2 ^ 53 - 1) * 2 ^ (- 53 - e') * Zpos my).
    { subst A.
      apply (Z.mul_le_mono_pos_r _ _ (2 ^ (ey + 1074) * 2 ^ 53));
        [apply Z.mul_pos_pos; [exact Hpy|apply pow2_pos; lia]|].
      assert (P1 : 2 ^ (ex - ey - e') * 2 ^ (ey + 1074) = 2 ^ (ex + 1074) * 2 ^ (- e')).
      { rewrite <- !Z.pow_add_r by lia. f_equal. lia. }
      assert (P2 : 2 ^ (- 53 - e') * 2 ^ 53 = 2 ^ (- e')).
      { rewrite <- !Z.pow_add_r by lia. f_equal. lia. }
      assert (E1 : Zpos mx * 2 ^ (ex - ey - e') * (2 ^ (ey + 1074) * 2 ^ 53)
                   = Zpos mx * 2 ^ (ex + 1074) * 2 ^ 53 * 2 ^ (- e')).
      { replace (Zpos mx * 2 ^ (ex - ey - e') * (2 ^ (ey + 1074) * 2 ^ 53))
          with (Zpos mx * (2 ^ (ex - ey - e') * 2 ^ (ey + 1074)) * 2 ^ 53) by ring.
        rewrite P1. ring. }
      assert (E2 : (2 ^ 53 - 1) * 2 ^ (- 53 - e') * Zpos my * (2 ^ (ey + 1074) * 2 ^ 53)
                   = (2 ^ 53 - 1) * (Zpos my * 2 ^ (ey + 1074)) * 2 ^ (- e')).
      { replace ((2 ^ 53 - 1) * 2 ^ (- 53 - e') * Zpos my * (2 ^ (ey + 1074) * 2 ^ 53))
          with ((2 ^ 53 - 1) * (Zpos my * 2 ^ (ey + 1074)) * (2 ^ (- 53 - e') * 2 ^ 53)) by ring.
        rewrite P2. reflexivity. }
      rewrite E1, E2.
      apply Z.mul_le_mono_nonneg_r; [apply Z.pow_nonneg; lia|]. exact Hle. }
    assert (HA0 : 0 <= A) by (subst A; pose proof (pow2_pos _ Hs); nia).
    assert (Hq0 : 0 <= q) by (subst q; apply Z.div_pos; lia).
    assert (Hqlt : q < 2 ^ (- e')).
    { subst q. apply Z.div_lt_upper_bound; [lia|].
      eapply Z.le_lt_trans; [exact HAle|].
      rewrite (Z.mul_comm (Zpos my)). apply Z.mul_lt_mono_pos_r; [lia|].
      replace (- e') with (53 + (- 53 - e')) by lia.
      rewrite (Z.pow_add_r 2 53 (- 53 - e')) by lia.
      apply Z.mul_lt_mono_pos_r; lia. }
    assert (Hdq : Zdigits2 q + e' <= 0).
    { assert (Zdigits2 q <= - e'); [|lia]. apply Zdigits2_lt_pow; lia. }
    pose proof (fexp_mono _ _ Hdq) as Hfq. change (fexp 0) with (-53) in Hfq.
    pose proof (round_located_upper A (Zpos my) q e' (2 ^ 53 - 1) (-53)) as H.
    cbn zeta in H. change (-53 + 1074) with 1021 in H.
    apply H; try lia.
    all: try (rewrite fexp_eq; lia).
    { clear. vm_compute. discriminate. }
    set (n := Z.max (fexp (Zdigits2 q + e') - e') 0).
    assert (Hn : 0 <= n /\ e' + n <= -53) by (subst n; rewrite fexp_eq in *; lia).
    rewrite Z.mul_assoc, <- (Z.mul_assoc (2 ^ 53 - 1)), <- Z.pow_add_r by lia.
    replace (-53 - (e' + n) + n) with (- 53 - e') by lia. exact HAle.
Qed.

Lemma fdiv_below_one a b :
  fnonneg a = true -> fnonneg b = true -> 0 < fval b ->
  fval a * 2 ^ 53 <= (2 ^ 53 - 1) * fval b ->
  PrimFloat.ltb (a / b)%float 1%float = true.
Proof.
  intros Ha Hb Hpos Hle.
  assert (H : fnonneg (a / b)%float = true /\ fval (a / b)%float <= (2 ^ 53 - 1) * 2 ^ 1021).
  { unfold fnonneg, fval in *. rewrite FloatAxioms.div_spec.
    apply SFdiv_below; auto using Prim2SF_valid. }
  destruct H as [Hn Hv]. rewrite ltb_fval by (auto; reflexivity).
  apply Z.ltb_lt. rewrite fval_one.
  assert ((2 ^ 53 - 1) * 2 ^ 1021 < 2 ^ 1074) by (vm_compute; reflexivity). lia.
Qed.

(** The quotient of two counts, the first not above the second. *)
Lemma count_ratio_in_unit k n :
  (k <= n)%nat -> (0 < n)%nat -> Z.of_nat n <= 2 ^ 54 ->
  in_unit_interval (float64_of_nat k / float64_of_nat n)%float = true.
Proof.
  intros Hkn Hn H63.
  destruct (float64_of_nat_fval k ltac:(lia)) as [Hk Vk].
  destruct (float64_of_nat_fval n H63) as [Hnn Vn].
  assert (Hpos : 0 < fval (float64_of_nat n)).
  { rewrite Vn. assert (Rnd (1 * 2 ^ 1074) <= Rnd (Z.of_nat n * 2 ^ 1074)).
    { apply Rnd_mono. split; [vm_compute; discriminate|].
      apply Z.mul_le_mono_nonneg_r; [apply Z.pow_nonneg|]; lia. }
    assert (0 < Rnd (1 * 2 ^ 1074)) by (vm_compute; reflexivity). lia. }
  apply in_unit_interval_fval.
  unfold fnonneg, fval in *. rewrite FloatAxioms.div_spec.
  apply SFdiv_le; auto using Prim2SF_valid.
  rewrite Vk, Vn. apply Rnd_mono. split.
  - apply Z.mul_nonneg_nonneg; [lia|apply Z.pow_nonneg; lia].
  - apply Z.mul_le_mono_nonneg_r; [apply Z.pow_nonneg|]; lia.
Qed.

(** All of them: the quotient is exactly one. *)
Lemma count_ratio_one n :
  (0 < n)%nat -> Z.of_nat n <= 2 ^ 54 ->
  (float64_of_nat n / float64_of_nat n)%float = 1%float.
Proof.
  intros Hn H63. destruct (float64_of_nat_fval n H63) as [Hnn Vn].
  apply fdiv_self; [exact Hnn|].
  rewrite Vn. assert (Rnd (1 * 2 ^ 1074) <= Rnd (Z.of_nat n * 2 ^ 1074)).
  { apply Rnd_mono. split; [vm_compute; discriminate|].
    apply Z.mul_le_mono_nonneg_r; [apply Z.pow_nonneg|]; lia. }
  assert (0 < Rnd (1 * 2 ^ 1074)) by (vm_compute; reflexivity). lia.
Qed.

(** Fewer than all of at most [2^53]: the quotient is below one. *)
Lemma count_ratio_below_one k n :
  (k < n)%nat -> Z.of_nat n <= 2 ^ 53 ->
  PrimFloat.ltb (float64_of_nat k / float64_of_nat n)%float 1%float = true.
Proof.
  intros Hkn H53.
  destruct (float64_of_nat_exact k ltac:(lia)) as [Hk Vk].
  destruct (float64_of_nat_exact n H53) as [Hnn Vn].
  pose proof (pow2_pos 1074 ltac:(lia)) as Hp.
  apply fdiv_below_one; auto.
  - rewrite Vn. nia.
  - rewrite Vk, Vn.
    assert (Z.of_nat k * 2 ^ 53 <= (2 ^ 53 - 1) * Z.of_nat n).
    { change (2 ^ 53) with 9007199254740992 in *. lia. }
    set (c := 2 ^ 1074) in *.
    replace (Z.of_nat k * c * 2 ^ 53) with (Z.of_nat k * 2 ^ 53 * c) by ring.
    replace ((2 ^ 53 - 1) * (Z.of_nat n * c)) with ((2 ^ 53 - 1) * Z.of_nat n * c) by ring.
    apply Z.mul_le_mono_nonneg_r; lia.
Qed.

End FloatExact.

(** ** The scorer: what the aggregate depends on *)

Section ScorerMore.
Implicit Types (s : Scorer.t) (results : list TechniqueResult.t).

Lemma Score_by_nonSkip s results :
  Scorer_Score s results =
  if Nat.ltb (length (nonSkip results)) 2 then
    {| CompositeResult.TechniqueResults := results;
       CompositeResult.CompositeScore := 0%float;
       CompositeResult.Action := ActionHumanReview;
       CompositeResult.ValidScore := false |}
  else
    let c := (fsum (map (contribution s) (nonSkip results))
              / fsum (map (weightOf s) (nonSkip results)))%float in
    {| CompositeResult.TechniqueResults := results;
       CompositeResult.CompositeScore := c;
       CompositeResult.Action := Scorer_actionFor s c;
       CompositeResult.ValidScore := true |}.
Proof.
  destruct (Nat.ltb_spec (length (nonSkip results)) 2) as [H|H].
  - now apply Score_below_floor.
  - now apply Score_above_floor.
Qed.

Lemma DeterministicWeight_by_nonSkip s results :
  Scorer_DeterministicWeight s results =
  let total := fsum (map (weightOf s) (nonSkip results)) in
  if feq total 0%float then 0%float
  else (fsum (map (weightOf s) (List.filter TechniqueResult.Deterministic (nonSkip results)))
        / total)%float.
Proof.
  unfold Scorer_DeterministicWeight. rewrite DeterministicWeight_loop_spec. reflexivity.
Qed.

(** Results with the verdict skip take no part in either aggregate:
    two lists with the same non-skip results, in the same order, get
    the same validity, composite, action and deterministic fraction,
    whatever the names, scores and flags of the skipped entries and
    wherever they stand in the list. *)
Theorem Score_depends_on_nonSkip_only s results1 results2 :
  nonSkip results1 = nonSkip results2 ->
  CompositeResult.ValidScore (Scorer_Score s results1)
  = CompositeResult.ValidScore (Scorer_Score s results2)
  /\ CompositeResult.CompositeScore (Scorer_Score s results1)
     = CompositeResult.CompositeScore (Scorer_Score s results2)
  /\ CompositeResult.Action (Scorer_Score s results1)
     = CompositeResult.Action (Scorer_Score s results2)
  /\ Scorer_DeterministicWeight s results1 = Scorer_DeterministicWeight s results2.
Proof.
  intros H. rewrite !Score_by_nonSkip, !DeterministicWeight_by_nonSkip, H.
  destruct (Nat.ltb (length (nonSkip results2)) 2); repeat split; reflexivity.
Qed.

Lemma Score_depends_on_nonSkip_only_witness :
  nonSkip test_skips_around = nonSkip test_two_fail
  /\ CompositeResult.CompositeScore
       (Scorer_Score (NewScorer DefaultScorerConfig) test_skips_around)
     = CompositeResult.CompositeScore
         (Scorer_Score (NewScorer DefaultScorerConfig) test_two_fail)
  /\ CompositeResult.Action
       (Scorer_Score (NewScorer DefaultScorerConfig) test_skips_around)
     = ActionMend.
Proof.
  assert (H : nonSkip test_skips_around = nonSkip test_two_fail) by reflexivity.
  destruct (Score_depends_on_nonSkip_only (NewScorer DefaultScorerConfig)
              test_skips_around test_two_fail H) as (_ & Hc & Ha & _).
  split; [exact H|]. split; [exact Hc|].
  rewrite Ha. vm_compute. reflexivity.
Defined.

(** The scorer reads its configuration through the weights and the two
    thresholds only. *)
Lemma weightFor_same_weights s1 s2 name :
  ScorerConfig.Weights (Scorer.config s1) = ScorerConfig.Weights (Scorer.config s2) ->
  Scorer_weightFor s1 name = Scorer_weightFor s2 name.
Proof. intros H. unfold Scorer_weightFor. now rewrite H. Qed.

Lemma sums_same_weights s1 s2 (l : list TechniqueResult.t) :
  ScorerConfig.Weights (Scorer.config s1) = ScorerConfig.Weights (Scorer.config s2) ->
  map (contribution s1) l = map (contribution s2) l
  /\ map (weightOf s1) l = map (weightOf s2) l.
Proof.
  intros H. split; apply map_ext; intros r; unfold contribution, weightOf;
    now rewrite (weightFor_same_weights s1 s2 _ H).
Qed.

(** [MinDeterministic] is a field of the configuration that no method
    of the scorer reads: two configurations that agree on the weights
    and on the two thresholds give the same [Score] and the same
    [DeterministicWeight] on every list, so a composite is valid and
    routed to accept however small the deterministic fraction is. *)
Theorem Score_never_reads_MinDeterministic cfg1 cfg2 results :
  ScorerConfig.Weights cfg1 = ScorerConfig.Weights cfg2 ->
  ScorerConfig.AcceptThreshold cfg1 = ScorerConfig.AcceptThreshold cfg2 ->
  ScorerConfig.MendThreshold cfg1 = ScorerConfig.MendThreshold cfg2 ->
  Scorer_Score (NewScorer cfg1) results = Scorer_Score (NewScorer cfg2) results
  /\ Scorer_DeterministicWeight (NewScorer cfg1) results
     = Scorer_DeterministicWeight (NewScorer cfg2) results.
Proof.
  intros Hw Ha Hm.
  rewrite !Score_by_nonSkip, !DeterministicWeight_by_nonSkip. cbn zeta.
  destruct (sums_same_weights (NewScorer cfg1) (NewScorer cfg2) (nonSkip results) Hw)
    as [Hc Hwt].
  destruct (sums_same_weights (NewScorer cfg1) (NewScorer cfg2)
              (List.filter TechniqueResult.Deterministic (nonSkip results)) Hw) as [_ Hd].
  rewrite Hc, Hwt, Hd. split; [|reflexivity].
  destruct (Nat.ltb (length (nonSkip results)) 2); [reflexivity|].
  f_equal. unfold Scorer_actionFor, NewScorer. cbn [Scorer.config]. now rewrite Ha, Hm.
Qed.

(** [TestScorerAcceptAction]: the translation validator is the only
    result that is not deterministic, and the composite is accepted
    under a configuration that demands a deterministic fraction of 1. *)
Lemma Score_never_reads_MinDeterministic_witness :
  Scorer_Score (NewScorer strictDeterministicConfig) test_three_pass
  = Scorer_Score (NewScorer DefaultScorerConfig) test_three_pass
  /\ CompositeResult.Action (Scorer_Score (NewScorer strictDeterministicConfig) test_three_pass)
     = ActionAccept
  /\ PrimFloat.ltb
       (Scorer_DeterministicWeight (NewScorer strictDeterministicConfig) test_three_pass)
       (ScorerConfig.MinDeterministic strictDeterministicConfig) = true.
Proof.
  destruct (Score_never_reads_MinDeterministic strictDeterministicConfig DefaultScorerConfig
              test_three_pass eq_refl eq_refl eq_refl) as [Hs _].
  split; [exact Hs|]. split; [rewrite Hs|]; vm_compute; reflexivity.
Defined.

(** *** The routing is monotone *)

(** A composite that is not smaller never gets a worse action: the
    routing is monotone in the score for every pair of thresholds, in
    whatever order they are configured.  A NaN score reaches neither
    threshold and is routed to human review; when the accept threshold
    does not exceed the mend threshold, no score is routed to mend. *)
Theorem actionFor_monotone s score1 score2 :
  (PrimFloat.leb score1 score2 = true ->
     (Scorer_actionFor s score1 = ActionAccept -> Scorer_actionFor s score2 = ActionAccept)
     /\ (Scorer_actionFor s score2 = ActionHumanReview ->
         Scorer_actionFor s score1 = ActionHumanReview))
  /\ (PrimFloat.is_nan score1 = true -> Scorer_actionFor s score1 = ActionHumanReview)
  /\ (PrimFloat.leb (ScorerConfig.AcceptThreshold (Scorer.config s))
                    (ScorerConfig.MendThreshold (Scorer.config s)) = true ->
      Scorer_actionFor s score1 <> ActionMend).
Proof.
  unfold Scorer_actionFor, fge.
  set (acc := ScorerConfig.AcceptThreshold (Scorer.config s)).
  set (mend := ScorerConfig.MendThreshold (Scorer.config s)).
  split; [|split].
  - intros Hle. split.
    + destruct (PrimFloat.leb acc score1) eqn:E1.
      * intros _. now rewrite (fleb_trans acc score1 score2 E1 Hle).
      * destruct (PrimFloat.leb mend score1); discriminate.
    + destruct (PrimFloat.leb acc score2) eqn:E2; [discriminate|].
      destruct (PrimFloat.leb mend score2) eqn:M2; [discriminate|]. intros _.
      destruct (PrimFloat.leb acc score1) eqn:E1.
      * rewrite (fleb_trans acc score1 score2 E1 Hle) in E2. discriminate.
      * destruct (PrimFloat.leb mend score1) eqn:M1; [|reflexivity].
        rewrite (fleb_trans mend score1 score2 M1 Hle) in M2. discriminate.
  - intros Hnan. now rewrite !(fleb_nan_r _ score1 Hnan).
  - intros Hthr.
    destruct (PrimFloat.leb acc score1) eqn:E1; [discriminate|].
    destruct (PrimFloat.leb mend score1) eqn:M1; [|discriminate].
    rewrite (fleb_trans acc mend score1 Hthr M1) in E1. discriminate.
Qed.

Lemma actionFor_monotone_witness :
  PrimFloat.leb 0.65%float 0.85%float = true
  /\ Scorer_actionFor (NewScorer DefaultScorerConfig) 0.65%float = ActionMend
  /\ Scorer_actionFor (NewScorer DefaultScorerConfig) 0.85%float <> ActionHumanReview.
Proof.
  assert (H : PrimFloat.leb 0.65%float 0.85%float = true) by (vm_compute; reflexivity).
  destruct (actionFor_monotone (NewScorer DefaultScorerConfig) 0.65%float 0.85%float)
    as (Hmono & _ & _).
  destruct (Hmono H) as [_ Hback].
  split; [exact H|]. split; [vm_compute; reflexivity|].
  intros Hhr. specialize (Hback Hhr). vm_compute in Hback. discriminate Hback.
Defined.

(** *** Unanimous scores *)

Lemma weightOf_nonneg s r :
  weights_in_range (Scorer.config s) -> fnonneg (weightOf s r) = true.
Proof.
  intros Hw. unfold weightOf.
  now apply in_unit_interval_fval, weightFor_in_range.
Qed.

Lemma fold_total_ok s (l : list TechniqueResult.t) :
  weights_in_range (Scorer.config s) ->
  forall a b, sums_ok a b ->
  sums_ok a (fold_left PrimFloat.add (map (weightOf s) l) b).
Proof.
  intros Hw. induction l as [|r l IH]; intros a b Hab; [exact Hab|].
  cbn [map fold_left]. apply IH.
  pose proof (weightFor_in_range s (TechniqueResult.Name r) Hw) as Hwr.
  apply in_unit_interval_fval in Hwr as [Hwn Hw1].
  now apply sums_ok_total.
Qed.

Lemma total_positive s (l : list TechniqueResult.t) :
  weights_in_range (Scorer.config s) ->
  feq (fsum (map (weightOf s) l)) 0%float = false ->
  fnonneg (fsum (map (weightOf s) l)) = true
  /\ (0 < fval (fsum (map (weightOf s) l)))%Z.
Proof.
  intros Hw Hz.
  destruct (fold_total_ok s l Hw _ _ sums_ok_zero) as (_ & Hn & _).
  split; [exact Hn|]. now apply eqb_zero_fval.
Qed.

Lemma contributions_of_ones s (l : list TechniqueResult.t) :
  weights_in_range (Scorer.config s) ->
  Forall (fun r => TechniqueResult.Score r = 1%float) l ->
  map (contribution s) l = map (weightOf s) l.
Proof.
  intros Hw Hl. induction Hl as [|r l Hr _ IH]; [reflexivity|].
  cbn [map]. rewrite IH. f_equal. unfold contribution. rewrite Hr.
  apply fmul_one_l. now apply (weightOf_nonneg s r).
Qed.

Lemma contributions_of_zeros s (l : list TechniqueResult.t) :
  weights_in_range (Scorer.config s) ->
  Forall (fun r => TechniqueResult.Score r = 0%float) l ->
  fsum (map (contribution s) l) = 0%float.
Proof.
  intros Hw Hl. unfold fsum. induction Hl as [|r l Hr _ IH]; [reflexivity|].
  cbn [map fold_left].
  change (contribution s r) with (TechniqueResult.Score r * weightOf s r)%float.
  rewrite Hr.
  rewrite fadd_zero_mul by (apply (weightOf_nonneg s r Hw)). exact IH.
Qed.

(** With every configured weight in [[0,1]], two or more non-skip
    results and a total weight that is not zero: when every non-skip
    score is 1.0 the composite is exactly 1.0, and when every one is
    0.0 it is exactly 0.0 --- the sums and the division lose nothing
    to rounding at either end of the scale. *)
Theorem Score_unanimous_is_exact s results :
  weights_in_range (Scorer.config s) ->
  2 <= length (nonSkip results) ->
  feq (fsum (map (weightOf s) (nonSkip results))) 0%float = false ->
  (Forall (fun r => TechniqueResult.Score r = 1%float) (nonSkip results) ->
     CompositeResult.CompositeScore (Scorer_Score s results) = 1%float)
  /\ (Forall (fun r => TechniqueResult.Score r = 0%float) (nonSkip results) ->
      CompositeResult.CompositeScore (Scorer_Score s results) = 0%float).
Proof.
  intros Hw H2 Hz. rewrite (Score_above_floor s results H2). cbn zeta.
  cbn [CompositeResult.CompositeScore].
  destruct (total_positive s (nonSkip results) Hw Hz) as [Hn Hpos].
  split; intros Hall.
  - unfold fsum at 1. rewrite (contributions_of_ones s _ Hw Hall). fold (fsum (map (weightOf s) (nonSkip results))).
    now apply fdiv_self.
  - rewrite (contributions_of_zeros s _ Hw Hall). now apply fdiv_zero_l.
Qed.

Lemma Score_unanimous_is_exact_witness :
  CompositeResult.CompositeScore (Scorer_Score (NewScorer DefaultScorerConfig) test_all_ones)
  = 1%float
  /\ CompositeResult.CompositeScore (Scorer_Score (NewScorer DefaultScorerConfig) test_all_zeros)
     = 0%float.
Proof.
  split.
  - refine (proj1 (Score_unanimous_is_exact (NewScorer DefaultScorerConfig) test_all_ones
                     DefaultWeights_in_range _ _) _).
    + vm_compute. lia.
    + vm_compute. reflexivity.
    + repeat constructor.
  - refine (proj2 (Score_unanimous_is_exact (NewScorer DefaultScorerConfig) test_all_zeros
                     DefaultWeights_in_range _ _) _).
    + vm_compute. lia.
    + vm_compute. reflexivity.
    + repeat constructor.
Defined.

Lemma filter_all {A : Type} (f : A -> bool) (l : list A) :
  Forall (fun x => f x = true) l -> List.filter f l = l.
Proof.
  intros H. induction H as [|x l Hx _ IH]; [reflexivity|].
  cbn [List.filter]. now rewrite Hx, IH.
Qed.

Lemma filter_none {A : Type} (f : A -> bool) (l : list A) :
  Forall (fun x => f x = false) l -> List.filter f l = [].
Proof.
  intros H. induction H as [|x l Hx _ IH]; [reflexivity|].
  cbn [List.filter]. now rewrite Hx, IH.
Qed.

(** With every configured weight in [[0,1]] and a total weight that is
    not zero, the deterministic fraction is exactly 1.0 when every
    non-skip result is deterministic and exactly 0.0 when none is. *)
Theorem DeterministicWeight_extremes s results :
  weights_in_range (Scorer.config s) ->
  feq (fsum (map (weightOf s) (nonSkip results))) 0%float = false ->
  (Forall (fun r => TechniqueResult.Deterministic r = true) (nonSkip results) ->
     Scorer_DeterministicWeight s results = 1%float)
  /\ (Forall (fun r => TechniqueResult.Deterministic r = false) (nonSkip results) ->
      Scorer_DeterministicWeight s results = 0%float).
Proof.
  intros Hw Hz. rewrite DeterministicWeight_by_nonSkip. cbn zeta. rewrite Hz.
  destruct (total_positive s (nonSkip results) Hw Hz) as [Hn Hpos].
  split; intros Hall.
  - rewrite (filter_all _ _ Hall). now apply fdiv_self.
  - rewrite (filter_none _ _ Hall). now apply fdiv_zero_l.
Qed.

Lemma DeterministicWeight_extremes_witness :
  Scorer_DeterministicWeight (NewScorer DefaultScorerConfig) test_all_ones = 1%float
  /\ Scorer_DeterministicWeight (NewScorer DefaultScorerConfig) test_all_zeros = 0%float.
Proof.
  split.
  - refine (proj1 (DeterministicWeight_extremes (NewScorer DefaultScorerConfig) test_all_ones
                     DefaultWeights_in_range _) _).
    + vm_compute. reflexivity.
    + repeat constructor.
  - refine (proj2 (DeterministicWeight_extremes (NewScorer DefaultScorerConfig) test_all_zeros
                     DefaultWeights_in_range _) _).
    + vm_compute. reflexivity.
    + repeat constructor.
Defined.

End ScorerMore.

(** ** Strings: replacement, split and join *)

Section StringFacts.

Lemma append_cons c s t : String c s ++ t = String c (s ++ t).
Proof. reflexivity. Qed.

Lemma append_nil_r s : s ++ "" = s.
Proof. induction s as [|c s IH]; [reflexivity|]. now rewrite append_cons, IH. Qed.

Lemma append_assoc s1 s2 s3 : (s1 ++ s2) ++ s3 = s1 ++ (s2 ++ s3).
Proof. induction s1 as [|c s1 IH]; [reflexivity|]. now rewrite !append_cons, IH. Qed.

Lemma length_append s1 s2 :
  String.length (s1 ++ s2) = (String.length s1 + String.length s2)%nat.
Proof.
  induction s1 as [|c s1 IH]; [reflexivity|].
  rewrite append_cons. cbn [String.length]. now rewrite IH.
Qed.

Lemma append_cancel_l s a b : s ++ a = s ++ b -> a = b.
Proof.
  induction s as [|c s IH]; [auto|]. rewrite !append_cons. intros H. apply IH. now inversion H.
Qed.

Lemma append_cancel_r s : forall a b, a ++ s = b ++ s -> a = b.
Proof.
  intros a. induction a as [|c a IH]; intros b H.
  - destruct b as [|d b]; [reflexivity|]. exfalso.
    apply (f_equal String.length) in H. rewrite !length_append in H.
    cbn [String.length] in H. lia.
  - destruct b as [|d b].
    + exfalso. apply (f_equal String.length) in H. rewrite !length_append in H.
      cbn [String.length] in H. lia.
    + rewrite !append_cons in H. inversion H. f_equal. now apply IH.
Qed.

Lemma rev_app_append s1 : forall s2, String.rev_app s1 s2 = String.rev_app s1 "" ++ s2.
Proof.
  induction s1 as [|c s1 IH]; intros s2; cbn [String.rev_app]; [reflexivity|].
  rewrite (IH (String c s2)), (IH (String c "")), append_assoc. reflexivity.
Qed.

Lemma rev_cons c s : String.rev (String c s) = String.rev s ++ String c "".
Proof. unfold String.rev. cbn [String.rev_app]. apply rev_app_append. Qed.

(** A string that begins with [old] is [old] followed by its rest. *)
Lemma substring_all s : String.substring 0 (String.length s) s = s.
Proof. induction s as [|c s IH]; cbn; [reflexivity|now rewrite IH]. Qed.

Lemma prefix_split old : forall s,
  String.prefix old s = true ->
  s = old ++ String.substring (String.length old) (String.length s - String.length old) s.
Proof.
  induction old as [|a old IH]; intros s H.
  - cbn [String.length]. rewrite Nat.sub_0_r, substring_all. reflexivity.
  - destruct s as [|c s]; [discriminate H|]. cbn [String.prefix] in H.
    destruct (Ascii.ascii_dec a c) as [->|]; [|discriminate H].
    rewrite append_cons. cbn [String.length String.substring Nat.sub]. f_equal. now apply IH.
Qed.

Lemma Contains_nil s : strings_Contains s "" = true.
Proof. destruct s; reflexivity. Qed.

Lemma replace_first_absent s old new :
  strings_Contains s old = false -> replace_first s old new = s.
Proof.
  induction s as [|c s IH]; [reflexivity|].
  cbn [strings_Contains replace_first]. intros [Hp Hc]%orb_false_elim.
  rewrite Hp. f_equal. now apply IH.
Qed.

Lemma replace_first_present s old new :
  old <> "" -> old <> new -> strings_Contains s old = true -> replace_first s old new <> s.
Proof.
  intros Hold Hne. induction s as [|c s IH]; intros Hc.
  - cbn [strings_Contains] in Hc. rewrite orb_false_r in Hc.
    destruct old; [contradiction|discriminate Hc].
  - cbn [strings_Contains replace_first] in *.
    destruct (String.prefix old (String c s)) eqn:Hp.
    + intros E. pose proof (prefix_split _ _ Hp) as Hs.
      rewrite Hs in E at 3. apply append_cancel_r in E. congruence.
    + cbn [orb] in Hc. intros E. inversion E. now apply IH.
Qed.

(** [strings.Replace(s, old, new, 1)] leaves [s] as it is exactly when
    [old] and [new] are the same or [old] does not occur in [s]. *)
Lemma Replace1_unchanged_iff s old new :
  strings_Replace1 s old new = s <-> (old = new \/ strings_Contains s old = false).
Proof.
  unfold strings_Replace1.
  destruct (String.eqb_spec old new) as [->|Hne]; [tauto|].
  destruct (String.eqb_spec old "") as [->|Hold].
  - rewrite Contains_nil. split; [|intros [H|H]; [congruence|discriminate]].
    intros E. exfalso. apply Hne.
    change s with ("" ++ s) in E at 2. apply append_cancel_r in E. congruence.
  - split.
    + intros E. right. destruct (strings_Contains s old) eqn:Hc; [|reflexivity].
      exfalso. now apply (replace_first_present s old new).
    + intros [H|H]; [contradiction|]. now apply replace_first_absent.
Qed.

Lemma split_byte_nonempty sep s : forall piece, split_byte sep s piece <> [].
Proof.
  induction s as [|c s IH]; intros piece; cbn [split_byte]; [discriminate|].
  destruct (Ascii.eqb c sep); [discriminate|apply IH].
Qed.

Lemma concat_cons sep x y l :
  String.concat sep (x :: y :: l) = x ++ sep ++ String.concat sep (y :: l).
Proof. reflexivity. Qed.

Lemma concat_split_byte sep s : forall piece,
  String.concat (String sep "") (split_byte sep s piece) = String.rev piece ++ s.
Proof.
  induction s as [|c s IH]; intros piece; cbn [split_byte].
  - cbn [String.concat]. now rewrite append_nil_r.
  - destruct (Ascii.eqb_spec c sep) as [->|Hne].
    + pose proof (split_byte_nonempty sep s "") as Hnil. specialize (IH "").
      destruct (split_byte sep s "") as [|y l]; [contradiction|].
      rewrite concat_cons, IH. reflexivity.
    + rewrite IH, rev_cons, append_assoc. reflexivity.
Qed.

(** [strings.Join(strings.Split(s, "\n"), "\n")] is [s]. *)
Lemma Join_Split_newline s : strings_Join (strings_Split_newline s) newline = s.
Proof. unfold strings_Join, strings_Split_newline, newline. apply concat_split_byte. Qed.

(** The joined text around one element of the list. *)
Lemma concat_middle sep (l1 l2 : list string) :
  exists P S, forall x, String.concat sep (l1 ++ x :: l2)%list = P ++ x ++ S.
Proof.
  induction l1 as [|a l1 (P & S & IH)].
  - destruct l2 as [|y l2].
    + exists "", "". intros x. cbn [app String.concat]. now rewrite append_nil_r.
    + exists "", (sep ++ String.concat sep (y :: l2)). intros x. reflexivity.
  - exists (a ++ sep ++ P), S. intros x. specialize (IH x).
    destruct l1 as [|b l1]; cbn [app] in *; rewrite concat_cons, IH, !append_assoc; reflexivity.
Qed.

(** Replacing one line by a different one changes the joined text. *)
Lemma Join_insert_changes (lines : list string) i x y sep :
  lines !! i = Some x -> y <> x ->
  strings_Join (<[i := y]> lines) sep <> strings_Join lines sep.
Proof.
  intros Hi Hne. unfold strings_Join.
  rewrite <- (take_drop_middle lines i x Hi) at 2.
  rewrite (insert_take_drop lines i y) by (eapply lookup_lt_Some; eauto).
  destruct (concat_middle sep (take i lines) (drop (S i) lines)) as (P & S & H).
  rewrite !H. intros E. apply append_cancel_l, append_cancel_r in E. contradiction.
Qed.

End StringFacts.

(** ** The mutation runner: when a mutation applies *)

Section CycleCases.
Context {Ext : Type}.
Variable os_ReadFile : string -> World.t Ext -> option string.
Variable os_WriteFile : string -> string -> World.t Ext -> World.t Ext * option error.

Implicit Types (m : MutationRunner.t Ext) (w : World.t Ext).

(** The guards of a cycle, as the code tests them: a failed read, a
    line number outside the file, a line that the replacement leaves
    as it was. *)
Lemma applyAndTest_idle m filePath line original mutated packages w :
  match os_ReadFile filePath w with
  | None => True
  | Some content =>
      let lines := strings_Split_newline content in
      let originalLine := nth (Z.to_nat (line - 1)) lines "" in
      (line < 1)%Z \/ (Z.of_nat (length lines) < line)%Z
      \/ strings_Replace1 originalLine original mutated = originalLine
  end ->
  MutationRunner_applyAndTest os_ReadFile os_WriteFile m filePath line original mutated packages w
  = (w, false).
Proof.
  unfold MutationRunner_applyAndTest.
  destruct (os_ReadFile filePath w) as [content|]; [|reflexivity]. cbn zeta. intros H.
  destruct (Z.ltb_spec line 1) as [H1|H1]; [reflexivity|].
  destruct (Z.ltb_spec (Z.of_nat (length (strings_Split_newline content))) line) as [H2|H2];
    [reflexivity|]. cbn [orb].
  destruct H as [H|[H|H]]; [lia|lia|]. rewrite H, String.eqb_refl. reflexivity.
Qed.

(** A cycle does nothing at all --- it writes nothing, runs no test
    and reports the mutant as not killed --- when the file cannot be
    read, when the line number is outside the file, when the original
    and the mutated text are the same, and when the original text does
    not occur on the line. *)
Theorem applyAndTest_not_applied m filePath line original mutated packages w :
  (os_ReadFile filePath w = None
   \/ exists content,
        os_ReadFile filePath w = Some content
        /\ let lines := strings_Split_newline content in
           ((line < 1)%Z \/ (Z.of_nat (length lines) < line)%Z
            \/ original = mutated
            \/ strings_Contains (nth (Z.to_nat (line - 1)) lines "") original = false)) ->
  MutationRunner_applyAndTest os_ReadFile os_WriteFile m filePath line original mutated packages w
  = (w, false).
Proof.
  intros H. apply applyAndTest_idle.
  destruct H as [-> | (content & -> & H)]; [exact I|]. cbn zeta in H |- *.
  destruct H as [H|[H|H]]; [now left|now right; left|right; right].
  apply Replace1_unchanged_iff. destruct H as [H|H]; [now left|now right].
Qed.

(** A cycle writes and tests in every other case --- the file is read,
    the line exists, the original text occurs on it and differs from
    the mutated text.  The bytes written before the tests then differ
    from the bytes read; if that write fails the mutant is reported as
    not killed and no test runs; otherwise the tests run on the world
    the write left, the original bytes are written back, and the mutant
    is reported as killed exactly when the tests returned an error. *)
Theorem applyAndTest_applied m filePath line original mutated packages w content :
  os_ReadFile filePath w = Some content ->
  let lines := strings_Split_newline content in
  let originalLine := nth (Z.to_nat (line - 1)) lines "" in
  (1 <= line <= Z.of_nat (length lines))%Z ->
  original <> mutated ->
  strings_Contains originalLine original = true ->
  let written :=
    strings_Join (<[Z.to_nat (line - 1) := strings_Replace1 originalLine original mutated]> lines)
      newline in
  written <> content
  /\ MutationRunner_applyAndTest os_ReadFile os_WriteFile m filePath line original mutated packages w
     = match os_WriteFile filePath written w with
       | (w1, Some _) => (w1, false)
       | (w1, None) =>
           let '(w2, err) := MutationRunner.runTests m packages w1 in
           (fst (os_WriteFile filePath content w2), bool_decide (err <> None))
       end.
Proof.
  intros Hread lines originalLine Hrange Hne Hocc written.
  assert (Hchanged : strings_Replace1 originalLine original mutated <> originalLine).
  { intros E. apply Replace1_unchanged_iff in E as [E|E]; congruence. }
  split.
  - assert (Hl : lines !! Z.to_nat (line - 1) = Some originalLine).
    { subst originalLine. rewrite nth_lookup.
      destruct (lookup_lt_is_Some_2 lines (Z.to_nat (line - 1)) ltac:(lia)) as [x Hx].
      now rewrite Hx. }
    intros E.
    apply (Join_insert_changes lines _ originalLine _ newline Hl Hchanged).
    fold written. rewrite E. symmetry. apply Join_Split_newline.
  - unfold MutationRunner_applyAndTest. rewrite Hread. fold lines.
    replace ((line <? 1)%Z || (Z.of_nat (length lines) <? line)%Z) with false
      by (symmetry; apply orb_false_intro; apply Z.ltb_ge; lia).
    fold originalLine.
    destruct (String.eqb_spec (strings_Replace1 originalLine original mutated) originalLine)
      as [E|_]; [contradiction|].
    fold written. destruct (os_WriteFile filePath written w) as [w1 [e|]]; [reflexivity|].
    destruct (MutationRunner.runTests m packages w1) as [w2 err].
    destruct (os_WriteFile filePath content w2) as [w3 e3]. reflexivity.
Qed.

End CycleCases.

(** The negation site of [guard.go] carries the placeholder text
    "!expr", which is not on the line: nothing is applied, although
    the tests would fail. *)
Lemma applyAndTest_not_applied_witness :
  strings_Contains "func Open(done bool) bool { return !done }" "!expr" = false
  /\ MutationRunner_applyAndTest os_ReadFile_disk os_WriteFile_ok failing_tests
       "guard.go" 2 "!expr" "expr" ["./guard"] guard_world
     = (guard_world, false).
Proof.
  split; [vm_compute; reflexivity|].
  apply applyAndTest_not_applied. right. exists guard_go.
  split; [reflexivity|]. cbn zeta. right. right. right. vm_compute. reflexivity.
Defined.

(** The [+] of [calc.go] becomes [-]; the tests fail on the mutated
    file and the original bytes are written back. *)
Lemma applyAndTest_applied_witness :
  calc_go_mutated <> calc_go
  /\ MutationRunner_applyAndTest os_ReadFile_disk os_WriteFile_ok failing_tests
       "calc.go" 2 "+" "-" ["./calc"] calc_world
     = (World_store "calc.go" calc_go (World_store "calc.go" calc_go_mutated calc_world), true).
Proof.
  refine (applyAndTest_applied os_ReadFile_disk os_WriteFile_ok failing_tests
            "calc.go" 2 "+" "-" ["./calc"] calc_world calc_go _ _ _ _).
  - reflexivity.
  - vm_compute. split; discriminate.
  - discriminate.
  - vm_compute. reflexivity.
Defined.

(** ** The mutation runner: the sites of a run *)

Section SitesOfRun.
Context {Ext : Type}.
Variable parser_ParseFile : string -> World.t Ext -> option Node.

Lemma spec_siteMutants_fresh filePath n :
  Forall (freshSite filePath) (spec_siteMutants filePath n).
Proof.
  destruct n as [line X Op Y | line Op X | children]; [| |constructor].
  - destruct Op; cbn [spec_siteMutants spec_replacement spec_boundary app];
      repeat constructor; cbn; try discriminate; set_solver.
  - destruct Op; cbn [spec_siteMutants]; repeat constructor; cbn; try discriminate; set_solver.
Qed.

Lemma spec_siteMutants_length filePath n : length (spec_siteMutants filePath n) <= 2.
Proof.
  destruct n as [line X Op Y | line Op X | children]; [| |cbn; lia];
    destruct Op; cbn; lia.
Qed.

Lemma inspectSites_fresh filePath f : Forall (freshSite filePath) (inspectSites filePath f).
Proof.
  rewrite inspectSites_spec. apply Forall_flat_map, Forall_forall.
  intros n _. apply spec_siteMutants_fresh.
Qed.

Lemma flat_map_length_le {A B : Type} (g : A -> list B) (k : nat) (l : list A) :
  (forall x, length (g x) <= k) -> length (flat_map g l) <= k * length l.
Proof.
  intros H. induction l as [|x l IH]; cbn [flat_map length]; [lia|].
  rewrite length_app. specialize (H x). lia.
Qed.

(** Site discovery fails exactly when the parser does.  Every mutant it
    returns names the file it was asked about, is neither killed nor
    flagged equivalent, carries no killing test, has one of the three
    types operator replacement, condition negation and boundary change
    --- never statement deletion --- and a mutated text that differs
    from its non-empty original text; no node yields more than two. *)
Theorem findMutationSites_returns_fresh_sites filePath (w : World.t Ext) :
  (parser_ParseFile filePath w = None ->
     MutationRunner_findMutationSites parser_ParseFile filePath w = None)
  /\ (forall f, parser_ParseFile filePath w = Some f ->
        exists mutants,
          MutationRunner_findMutationSites parser_ParseFile filePath w = Some mutants
          /\ Forall (freshSite filePath) mutants
          /\ length mutants <= 2 * length (nodes f)).
Proof.
  unfold MutationRunner_findMutationSites. split.
  - intros ->. reflexivity.
  - intros f ->. exists (inspectSites filePath f). split; [reflexivity|].
    split; [apply inspectSites_fresh|].
    rewrite inspectSites_spec. apply flat_map_length_le, spec_siteMutants_length.
Qed.

Lemma sites_loop_spec files (w : World.t Ext) : forall allMutants,
  sites_loop parser_ParseFile files w allMutants
  = (allMutants ++ flat_map (candidateSites parser_ParseFile w) files)%list.
Proof.
  induction files as [|file rest IH]; intros acc; cbn [sites_loop flat_map].
  - now rewrite app_nil_r.
  - unfold candidateSites at 1, qualifies.
    destruct (strings_HasSuffix file ".go"); cbn [negb orb andb]; [|apply IH].
    destruct (strings_HasSuffix file "_test.go"); cbn [negb]; [apply IH|].
    destruct (MutationRunner_findMutationSites parser_ParseFile file w) as [mutants|];
      cbn [default]; rewrite IH; [now rewrite app_assoc|reflexivity].
Qed.

Lemma candidateSites_fresh (w : World.t Ext) file :
  Forall (freshSite file) (candidateSites parser_ParseFile w file).
Proof.
  unfold candidateSites, MutationRunner_findMutationSites.
  destruct (qualifies file); [|constructor].
  destruct (parser_ParseFile file w); cbn [default]; [apply inspectSites_fresh|constructor].
Qed.

Lemma candidateSites_qualifies (w : World.t Ext) file mut :
  mut ∈ candidateSites parser_ParseFile w file ->
  qualifies file = true /\ freshSite file mut.
Proof.
  intros H. split.
  - unfold candidateSites in H. destruct (qualifies file); [reflexivity|].
    now apply elem_of_nil in H.
  - pose proof (candidateSites_fresh w file) as Hf.
    rewrite Forall_forall in Hf. now apply Hf.
Qed.

(** The first loop of [Run] gathers, in the order of
    [input.ModifiedFiles], the sites of every modified file that ends
    in ".go", does not end in "_test.go" and parses; a file that fails
    to parse adds nothing and stops nothing.  So every mutant of a run
    belongs to a candidate file of the input, and none to a test file
    or to a file that is not Go source. *)
Theorem Run_gathers_sites_of_candidates files (w : World.t Ext) :
  let allMutants := sites_loop parser_ParseFile files w [] in
  allMutants = flat_map (candidateSites parser_ParseFile w) files
  /\ (forall file, parser_ParseFile file w = None -> candidateSites parser_ParseFile w file = [])
  /\ (forall mut, mut ∈ allMutants ->
        Mutant.FilePath mut ∈ files
        /\ strings_HasSuffix (Mutant.FilePath mut) ".go" = true
        /\ strings_HasSuffix (Mutant.FilePath mut) "_test.go" = false
        /\ Mutant.Equivalent mut = false).
Proof.
  cbn zeta. rewrite sites_loop_spec. cbn [app]. split; [reflexivity|]. split.
  - intros file Hp. unfold candidateSites, MutationRunner_findMutationSites. rewrite Hp.
    now destruct (qualifies file).
  - intros mut Hin. apply list_elem_of_In, in_flat_map in Hin as (file & Hfile & Hmut).
    apply list_elem_of_In in Hfile, Hmut.
    destruct (candidateSites_qualifies w file mut Hmut) as (Hq & Hpath & _ & Heq & _).
    unfold qualifies in Hq. apply andb_prop in Hq as [Hgo Htest].
    apply negb_true_iff in Htest. rewrite Hpath. auto.
Qed.

End SitesOfRun.

(** The one site of [calc.go]. *)
Lemma findMutationSites_returns_fresh_sites_witness :
  exists mutants,
    MutationRunner_findMutationSites calc_parser "calc.go" calc_world = Some mutants
    /\ Forall (freshSite "calc.go") mutants
    /\ length mutants <= 2 * length (nodes calc_tree).
Proof.
  exact (proj2 (findMutationSites_returns_fresh_sites calc_parser "calc.go" calc_world)
           calc_tree eq_refl).
Defined.

(** The sites of a run over [calc.go] and its test file: the test file
    is left out. *)
Lemma Run_gathers_sites_of_candidates_witness :
  sites_loop calc_parser ["calc.go"; "calc_test.go"; "README.md"] calc_world []
  = [ siteMutant "calc.go" 2 MutationOperatorReplace "+" "-" ].
Proof.
  rewrite (proj1 (Run_gathers_sites_of_candidates calc_parser
                    ["calc.go"; "calc_test.go"; "README.md"] calc_world)).
  vm_compute. reflexivity.
Defined.

(** ** The mutation runner: the tally of a run *)

Section RunTally.
Context {Ext : Type}.
Variable os_ReadFile : string -> World.t Ext -> option string.
Variable os_WriteFile : string -> string -> World.t Ext -> World.t Ext * option error.
Variable parser_ParseFile : string -> World.t Ext -> option Node.
Variable m : MutationRunner.t Ext.

Implicit Types (w : World.t Ext) (input : InspectInput.t).

(** The second loop of [Run] sets the [Killed] flag of every mutant and
    nothing else. *)
Lemma apply_loop_flags packages allMutants : forall w,
  exists flags,
    length flags = length allMutants
    /\ snd (apply_loop os_ReadFile os_WriteFile m packages allMutants w)
       = zip_with Mutant_setKilled allMutants flags.
Proof.
  induction allMutants as [|mut rest IH]; intros w.
  - exists []. split; reflexivity.
  - cbn [apply_loop].
    destruct (MutationRunner_applyAndTest os_ReadFile os_WriteFile m (Mutant.FilePath mut)
                (Mutant.Line mut) (Mutant.Original mut) (Mutant.Mutated mut) packages w)
      as [w1 killed].
    destruct (IH w1) as (flags & Hlen & Heq).
    destruct (apply_loop os_ReadFile os_WriteFile m packages rest w1) as [w2 rest'].
    cbn [snd] in *. exists (killed :: flags). split; [cbn; lia|].
    cbn [zip_with]. now rewrite Heq.
Qed.

Lemma zip_setKilled_equivalent (allMutants : list Mutant.t) : forall flags,
  Forall (fun mut => Mutant.Equivalent mut = false) allMutants ->
  Forall (fun mut => Mutant.Equivalent mut = false) (zip_with Mutant_setKilled allMutants flags).
Proof.
  induction allMutants as [|mut rest IH]; intros flags H; [constructor|].
  destruct flags as [|k flags]; [constructor|]. inversion H; subst.
  cbn [zip_with]. constructor; [assumption|]. now apply IH.
Qed.

Lemma tally_loop_spec (allMutants : list Mutant.t) :
  Forall (fun mut => Mutant.Equivalent mut = false) allMutants ->
  forall killed total evidence,
  tally_loop allMutants killed total evidence
  = (killed + length (List.filter Mutant.Killed allMutants),
     total + length allMutants,
     (evidence ++ map survivorEvidence
                    (List.filter (fun mut => negb (Mutant.Killed mut)) allMutants))%list).
Proof.
  intros H. induction H as [|mut rest Hmut _ IH]; intros killed total evidence.
  - cbn. now rewrite !Nat.add_0_r, app_nil_r.
  - cbn [tally_loop List.filter]. rewrite Hmut.
    destruct (Mutant.Killed mut); cbn [negb]; rewrite IH; cbn [length map].
    + f_equal. f_equal; lia.
    + rewrite <- app_assoc. cbn [app]. f_equal. f_equal; lia.
Qed.

Lemma sites_not_equivalent files w :
  Forall (fun mut => Mutant.Equivalent mut = false)
    (sites_loop parser_ParseFile files w []).
Proof.
  rewrite sites_loop_spec. cbn [app]. apply Forall_flat_map, Forall_forall.
  intros file _. eapply Forall_impl; [apply candidateSites_fresh|].
  intros mut (_ & _ & H & _). exact H.
Qed.

(** The result of a run that found at least one site. *)
Lemma Run_result_eq input w :
  MutationRunner_Applicable input = true ->
  let allMutants := sites_loop parser_ParseFile (InspectInput.ModifiedFiles input) w [] in
  allMutants <> [] ->
  let run := apply_loop os_ReadFile os_WriteFile m (InspectInput.ModifiedPackages input)
               allMutants w in
  let tested := snd run in
  let score := (float64_of_nat (length (List.filter Mutant.Killed tested))
                / float64_of_nat (length allMutants))%float in
  length tested = length allMutants
  /\ MutationRunner_Run os_ReadFile os_WriteFile parser_ParseFile m input w
     = (fst run,
        ({| TechniqueResult.Name := "mutation_testing";
            TechniqueResult.Score := score;
            TechniqueResult.Verdict := if flt score 1%float then VerdictFail else VerdictPass;
            TechniqueResult.Evidence :=
              map survivorEvidence (List.filter (fun mut => negb (Mutant.Killed mut)) tested);
            TechniqueResult.Deterministic := true |}, None)).
Proof.
  intros Happ allMutants Hne run tested score.
  destruct (apply_loop_flags (InspectInput.ModifiedPackages input) allMutants w)
    as (flags & Hlen & Hflags).
  fold run in Hflags. fold tested in Hflags.
  assert (Hlt : length tested = length allMutants).
  { rewrite Hflags, length_zip_with. lia. }
  split; [exact Hlt|].
  assert (Heq : Forall (fun mut => Mutant.Equivalent mut = false) tested).
  { rewrite Hflags. apply zip_setKilled_equivalent. apply sites_not_equivalent. }
  unfold MutationRunner_Run. rewrite Happ. cbn [negb]. fold allMutants.
  assert (Hlen0 : Nat.eqb (length allMutants) 0 = false).
  { destruct allMutants; [contradiction|reflexivity]. }
  rewrite Hlen0. subst score tested run.
  destruct (apply_loop os_ReadFile os_WriteFile m (InspectInput.ModifiedPackages input)
              allMutants w) as [w' tested].
  cbn [fst snd] in *.
  rewrite (tally_loop_spec tested Heq 0 0 []). cbn [Nat.add app].
  rewrite Hlt, Hlen0. reflexivity.
Qed.

Lemma filter_length_all {A : Type} (f : A -> bool) (l : list A) :
  length (List.filter f l) <= length l
  /\ (length (List.filter f l) = length l <-> Forall (fun x => f x = true) l)
  /\ (List.filter (fun x => negb (f x)) l = [] <-> Forall (fun x => f x = true) l).
Proof.
  induction l as [|x l (IH1 & IH2 & IH3)]; cbn [List.filter length].
  - repeat split; auto; constructor.
  - destruct (f x) eqn:E; cbn [negb length].
    + split; [lia|]. split.
      * rewrite Forall_cons. split; [intros H; split; [exact E|apply IH2; lia]|].
        intros [_ H]. f_equal. now apply IH2.
      * rewrite Forall_cons, IH3. tauto.
    + split; [lia|]. split.
      * rewrite Forall_cons. split; [lia|]. intros [H _]. congruence.
      * rewrite Forall_cons. split; [discriminate|]. intros [H _]. congruence.
Qed.

(** Once at least one site is found, the run ends in pass or fail and
    never in skip: no mutant is ever flagged equivalent, so the
    denominator of the score is the number of sites found, the
    numerator the number of mutants reported killed, and the evidence
    lists the survivors, one entry each, in the order of discovery.
    The second loop changes nothing of a mutant but its [Killed] flag. *)
Theorem Run_tallies_every_site input w :
  MutationRunner_Applicable input = true ->
  let allMutants := sites_loop parser_ParseFile (InspectInput.ModifiedFiles input) w [] in
  allMutants <> [] ->
  let run := apply_loop os_ReadFile os_WriteFile m (InspectInput.ModifiedPackages input)
               allMutants w in
  let tested := snd run in
  let killed := length (List.filter Mutant.Killed tested) in
  let score := (float64_of_nat killed / float64_of_nat (length allMutants))%float in
  let result :=
    {| TechniqueResult.Name := "mutation_testing";
       TechniqueResult.Score := score;
       TechniqueResult.Verdict := if flt score 1%float then VerdictFail else VerdictPass;
       TechniqueResult.Evidence :=
         map survivorEvidence (List.filter (fun mut => negb (Mutant.Killed mut)) tested);
       TechniqueResult.Deterministic := true |} in
  MutationRunner_Run os_ReadFile os_WriteFile parser_ParseFile m input w
  = (fst run, (result, None))
  /\ TechniqueResult.Verdict result <> VerdictSkip
  /\ Forall2 (fun mut mut' => mut' = Mutant_setKilled mut (Mutant.Killed mut')) allMutants tested
  /\ killed + length (TechniqueResult.Evidence result) = length allMutants.
Proof.
  intros Happ allMutants Hne run tested killed score result.
  destruct (Run_result_eq input w Happ Hne) as [Hlen Hrun].
  fold allMutants run tested killed score result in Hlen, Hrun.
  split; [exact Hrun|]. split; [|split].
  - subst result. cbn [TechniqueResult.Verdict]. destruct (flt score 1%float); discriminate.
  - destruct (apply_loop_flags (InspectInput.ModifiedPackages input) allMutants w)
      as (flags & Hfl & Hflags).
    fold run tested in Hflags. rewrite Hflags. clear -Hfl.
    revert flags Hfl. induction allMutants as [|mut rest IH]; intros [|k flags] Hfl;
      try discriminate Hfl; cbn [zip_with]; constructor; [reflexivity|].
    apply IH. cbn in Hfl. lia.
  - subst result killed. cbn [TechniqueResult.Evidence]. rewrite length_map, <- Hlen.
    clear. induction tested as [|mut rest IH]; [reflexivity|].
    cbn [List.filter]. destruct (Mutant.Killed mut); cbn [negb length]; lia.
Qed.

(** With at most [2^53] sites: the score is a number in [[0,1]]; the
    verdict is pass exactly when every mutant was reported killed,
    which is exactly when the evidence is empty and exactly when the
    score is 1.0; otherwise the verdict is fail. *)
Theorem Run_passes_iff_all_killed input w :
  MutationRunner_Applicable input = true ->
  let allMutants := sites_loop parser_ParseFile (InspectInput.ModifiedFiles input) w [] in
  allMutants <> [] ->
  (Z.of_nat (length allMutants) <= 2 ^ 53)%Z ->
  let tested :=
    snd (apply_loop os_ReadFile os_WriteFile m (InspectInput.ModifiedPackages input)
           allMutants w) in
  let result := fst (snd (MutationRunner_Run os_ReadFile os_WriteFile parser_ParseFile m input w)) in
  in_unit_interval (TechniqueResult.Score result) = true
  /\ (TechniqueResult.Verdict result = VerdictPass
      \/ TechniqueResult.Verdict result = VerdictFail)
  /\ (TechniqueResult.Verdict result = VerdictPass
      <-> Forall (fun mut => Mutant.Killed mut = true) tested)
  /\ (TechniqueResult.Verdict result = VerdictPass <-> TechniqueResult.Evidence result = [])
  /\ (TechniqueResult.Verdict result = VerdictPass <-> TechniqueResult.Score result = 1%float).
Proof.
  intros Happ allMutants Hne Hbound tested result.
  destruct (Run_result_eq input w Happ Hne) as [Hlen Hrun].
  fold allMutants tested in Hlen, Hrun.
  subst result. rewrite Hrun.
  cbn [fst snd TechniqueResult.Score TechniqueResult.Verdict TechniqueResult.Evidence].
  destruct (filter_length_all Mutant.Killed tested) as (Hle & Hall & Hnil).
  set (killed := length (List.filter Mutant.Killed tested)) in *.
  assert (Hpos : 0 < length allMutants) by (destruct allMutants; [contradiction|cbn; lia]).
  assert (H54 : (2 ^ 53 <= 2 ^ 54)%Z) by (vm_compute; discriminate).
  split; [apply count_ratio_in_unit; lia|].
  destruct (Nat.eq_dec killed (length allMutants)) as [E|NE].
  - rewrite E, count_ratio_one by lia.
    change (flt 1%float 1%float) with false. cbn iota.
    assert (HF : Forall (fun mut => Mutant.Killed mut = true) tested) by (apply Hall; lia).
    split; [now left|]. split; [tauto|]. split; [|tauto].
    split; [intros _|reflexivity]. apply Hnil in HF. now rewrite HF.
  - assert (Hlt : PrimFloat.ltb (float64_of_nat killed / float64_of_nat (length allMutants))%float
                    1%float = true) by (apply count_ratio_below_one; lia).
    unfold flt. rewrite Hlt.
    split; [now right|]. split; [|split]; (split; [discriminate|]).
    + intros HF. apply Hall in HF. lia.
    + intros Hev. exfalso. apply NE. rewrite <- Hlen. apply Hall, Hnil.
      destruct (List.filter (fun mut => negb (Mutant.Killed mut)) tested);
        [reflexivity|discriminate Hev].
    + intros E1. rewrite E1 in Hlt. discriminate Hlt.
Qed.

End RunTally.

(** A run over [calc.go] with tests that notice the mutation: one site,
    one kill, verdict pass and no evidence. *)
Lemma Run_tallies_every_site_witness :
  snd (MutationRunner_Run os_ReadFile_disk os_WriteFile_ok calc_parser calc_tests
         input_calc calc_world)
  = ({| TechniqueResult.Name := "mutation_testing";
        TechniqueResult.Score := 1%float;
        TechniqueResult.Verdict := VerdictPass;
        TechniqueResult.Evidence := [];
        TechniqueResult.Deterministic := true |}, None).
Proof.
  assert (Happ : MutationRunner_Applicable input_calc = true) by reflexivity.
  assert (Hne : sites_loop calc_parser (InspectInput.ModifiedFiles input_calc) calc_world [] <> [])
    by (vm_compute; discriminate).
  rewrite (proj1 (Run_tallies_every_site os_ReadFile_disk os_WriteFile_ok calc_parser calc_tests
                    input_calc calc_world Happ Hne)).
  vm_compute. reflexivity.
Defined.

(** The same run: every mutant was reported killed, so the verdict is
    pass. *)
Lemma Run_passes_iff_all_killed_witness :
  TechniqueResult.Verdict
    (fst (snd (MutationRunner_Run os_ReadFile_disk os_WriteFile_ok calc_parser calc_tests
                 input_calc calc_world))) = VerdictPass.
Proof.
  assert (Happ : MutationRunner_Applicable input_calc = true) by reflexivity.
  assert (Hne : sites_loop calc_parser (InspectInput.ModifiedFiles input_calc) calc_world [] <> [])
    by (vm_compute; discriminate).
  assert (Hb : (Z.of_nat (length (sites_loop calc_parser (InspectInput.ModifiedFiles input_calc)
                                    calc_world [])) <= 2 ^ 53)%Z)
    by (vm_compute; discriminate).
  destruct (Run_passes_iff_all_killed os_ReadFile_disk os_WriteFile_ok calc_parser calc_tests
              input_calc calc_world Happ Hne Hb) as (_ & _ & Hall & _).
  apply Hall. vm_compute. repeat constructor.
Defined.

(** ** The mutation runner: sites that do not apply *)

Section UnappliedSites.
Context {Ext : Type}.
Variable os_ReadFile : string -> World.t Ext -> option string.
Variable os_WriteFile : string -> string -> World.t Ext -> World.t Ext * option error.
Variable parser_ParseFile : string -> World.t Ext -> option Node.
Variable m : MutationRunner.t Ext.

Hypothesis reads_disk :
  forall path w content, os_ReadFile path w = Some content ->
                         World.files w !! path = Some content.
Hypothesis writes_succeed :
  forall path data w, os_WriteFile path data w = (World_store path data w, None).
Hypothesis tests_keep_files :
  forall packages w, World.files (fst (MutationRunner.runTests m packages w)) = World.files w.




End UnappliedSites.


(** ** The mutation runner: the files a run can touch *)

Section RunFrame.
Context {Ext : Type}.
Variable os_ReadFile : string -> World.t Ext -> option string.
Variable os_WriteFile : string -> string -> World.t Ext -> World.t Ext * option error.
Variable parser_ParseFile : string -> World.t Ext -> option Node.
Variable m : MutationRunner.t Ext.

(** A write, failed or not, changes no file but the one it names; the
    test command writes to no file.  Nothing is assumed of the reads
    and of the success of the writes. *)
Hypothesis writes_named_file :
  forall path data w p, p <> path ->
    World.files (fst (os_WriteFile path data w)) !! p = World.files w !! p.
Hypothesis tests_keep_files :
  forall packages w, World.files (fst (MutationRunner.runTests m packages w)) = World.files w.

Lemma applyAndTest_frame filePath line original mutated packages (w : World.t Ext) p :
  p <> filePath ->
  World.files (fst (MutationRunner_applyAndTest os_ReadFile os_WriteFile m
                      filePath line original mutated packages w)) !! p
  = World.files w !! p.
Proof.
  intros Hp. unfold MutationRunner_applyAndTest.
  destruct (os_ReadFile filePath w) as [content|]; [|reflexivity].
  destruct ((line <? 1)%Z || (Z.of_nat (length (strings_Split_newline content)) <? line)%Z);
    [reflexivity|].
  match goal with |- context [String.eqb ?a ?b] => destruct (String.eqb a b) end;
    [reflexivity|].
  match goal with |- context [os_WriteFile filePath ?d w] =>
    pose proof (writes_named_file filePath d w p Hp) as H1;
    destruct (os_WriteFile filePath d w) as [w1 [e|]] end; [exact H1|].
  pose proof (tests_keep_files packages w1) as H2.
  destruct (MutationRunner.runTests m packages w1) as [w2 err].
  pose proof (writes_named_file filePath content w2 p Hp) as H3.
  destruct (os_WriteFile filePath content w2) as [w3 e3].
  cbn [fst] in *. rewrite H3, H2. exact H1.
Qed.

Lemma apply_loop_frame packages p allMutants : forall w : World.t Ext,
  Forall (fun mut => Mutant.FilePath mut <> p) allMutants ->
  World.files (fst (apply_loop os_ReadFile os_WriteFile m packages allMutants w)) !! p
  = World.files w !! p.
Proof.
  induction allMutants as [|mut rest IH]; intros w H; [reflexivity|].
  inversion H as [|? ? Hmut Hrest]; subst. cbn [apply_loop].
  pose proof (applyAndTest_frame (Mutant.FilePath mut) (Mutant.Line mut)
                (Mutant.Original mut) (Mutant.Mutated mut) packages w p
                (not_eq_sym Hmut)) as Hcycle.
  destruct (MutationRunner_applyAndTest os_ReadFile os_WriteFile m (Mutant.FilePath mut)
              (Mutant.Line mut) (Mutant.Original mut) (Mutant.Mutated mut) packages w)
    as [w1 killed].
  specialize (IH w1 Hrest).
  destruct (apply_loop os_ReadFile os_WriteFile m packages rest w1) as [w2 rest'].
  cbn [fst] in *. congruence.
Qed.

(** A run leaves alone every file that is not a candidate of the
    input: a file that is not in [input.ModifiedFiles], or is a test
    file, or is not Go source, or failed to parse, holds after the run
    the bytes it held before --- even when reads return stale bytes and
    writes fail part of the way. *)
Theorem Run_touches_candidate_files_only input (w : World.t Ext) p :
  p ∉ InspectInput.ModifiedFiles input
  \/ strings_HasSuffix p ".go" = false
  \/ strings_HasSuffix p "_test.go" = true
  \/ parser_ParseFile p w = None ->
  World.files
    (fst (MutationRunner_Run os_ReadFile os_WriteFile parser_ParseFile m input w)) !! p
  = World.files w !! p.
Proof.
  intros Hp. unfold MutationRunner_Run.
  destruct (negb (MutationRunner_Applicable input)); [reflexivity|].
  destruct (Nat.eqb _ 0); [reflexivity|].
  assert (Hall : Forall (fun mut => Mutant.FilePath mut <> p)
                   (sites_loop parser_ParseFile (InspectInput.ModifiedFiles input) w [])).
  { rewrite sites_loop_spec. cbn [app]. apply Forall_forall. intros mut Hin E.
    apply list_elem_of_In, in_flat_map in Hin as (file & Hfile & Hmut).
    apply list_elem_of_In in Hfile, Hmut.
    assert (Hsome : candidateSites parser_ParseFile w file <> [])
      by (intros E0; rewrite E0 in Hmut; now apply elem_of_nil in Hmut).
    destruct (candidateSites_qualifies parser_ParseFile w file mut Hmut) as (Hq & Hpath & _).
    rewrite Hpath in E. subst file.
    unfold qualifies in Hq. apply andb_prop in Hq as [Hgo Htest].
    apply negb_true_iff in Htest.
    destruct Hp as [Hp|[Hp|[Hp|Hp]]]; [contradiction|congruence|congruence|].
    apply Hsome. unfold candidateSites, MutationRunner_findMutationSites. rewrite Hp.
    now destruct (qualifies p). }
  pose proof (apply_loop_frame (InspectInput.ModifiedPackages input) p _ w Hall) as Hloop.
  destruct (apply_loop _ _ _ _ _ _) as [w' tested].
  destruct (tally_loop tested 0 0 []) as [[killed total] evidence].
  destruct (Nat.eqb total 0); exact Hloop.
Qed.

End RunFrame.

(** A run over [calc.go] on a disk where [calc.go] has become
    read-only: the test file and the document are as they were. *)
Lemma Run_touches_candidate_files_only_witness :
  World.files
    (fst (MutationRunner_Run os_ReadFile_disk (os_WriteFile_locking "calc.go") calc_parser
            failing_tests input_calc project_world)) !! "calc_test.go"
  = World.files project_world !! "calc_test.go".
Proof.
  apply (Run_touches_candidate_files_only os_ReadFile_disk (os_WriteFile_locking "calc.go")
           calc_parser failing_tests).
  - intros path data w p Hp. unfold os_WriteFile_locking.
    destruct (String.eqb path "calc.go"); [reflexivity|].
    cbn [fst World_store World.files]. now apply lookup_insert_ne.
  - intros packages w. reflexivity.
  - right. right. left. vm_compute. reflexivity.
Defined.

(** ** The translation validator: every check is run and recorded *)

Section ValidatorRun.
Context {Ext : Type}.
Variable t : TranslationValidator.t Ext.

Implicit Types (w : World.t Ext) (input : InspectInput.t)
               (checks : list (MechanicalCheck.t Ext)).

Lemma checks_loop_spec input checks : forall w passed evidence,
  checks_loop input checks w passed evidence
  = (checkWorld input checks w,
     passed + length (List.filter id (checkOutcomes input checks w)),
     (evidence ++ zip_with checkEvidence checks (checkOutcomes input checks w))%list).
Proof.
  induction checks as [|mc rest IH]; intros w passed evidence.
  - cbn. now rewrite Nat.add_0_r, app_nil_r.
  - cbn [checks_loop checkWorld checkOutcomes].
    destruct (MechanicalCheck.Check mc input w) as [w1 ok]. cbn [fst].
    destruct ok; rewrite IH; cbn [List.filter id zip_with length];
      rewrite <- app_assoc; cbn [app]; f_equal; f_equal; lia.
Qed.

Lemma checkOutcomes_length input checks : forall w,
  length (checkOutcomes input checks w) = length checks.
Proof.
  induction checks as [|mc rest IH]; intros w; [reflexivity|].
  cbn [checkOutcomes]. destruct (MechanicalCheck.Check mc input w) as [w1 ok].
  cbn [length]. now rewrite IH.
Qed.

Lemma buildChecks_eq input :
  TranslationValidator_buildChecks t input
  = (fileChecks t (InspectInput.ModifiedFiles input) ++
     match InspectInput.ModifiedPackages input with
     | [] => []
     | _ :: _ =>
         [ {| MechanicalCheck.CriterionID := "compilation";
              MechanicalCheck.Description := "modified packages compile";
              MechanicalCheck.Check := fun in_ w =>
                let '(w, err) :=
                  TranslationValidator.buildCheck t (InspectInput.ModifiedPackages in_) w in
                (w, bool_decide (err = None)) |};
           {| MechanicalCheck.CriterionID := "tests_pass";
              MechanicalCheck.Description := "tests pass in modified packages";
              MechanicalCheck.Check := fun in_ w =>
                let '(w, err) :=
                  TranslationValidator.testCheck t (InspectInput.ModifiedPackages in_) w in
                (w, bool_decide (err = None)) |} ]
     end)%list.
Proof.
  unfold TranslationValidator_buildChecks.
  destruct (InspectInput.ModifiedPackages input) as [|p ps]; cbn [length Nat.ltb Nat.leb].
  - now rewrite app_nil_r.
  - now rewrite <- app_assoc.
Qed.

Lemma buildChecks_nil input :
  TranslationValidator_buildChecks t input = []
  <-> InspectInput.ModifiedFiles input = [] /\ InspectInput.ModifiedPackages input = [].
Proof.
  rewrite buildChecks_eq. unfold fileChecks. split.
  - intros H. apply app_eq_nil in H as [Hf Hp]. split.
    + now apply map_eq_nil in Hf.
    + destruct (InspectInput.ModifiedPackages input); [reflexivity|discriminate Hp].
  - intros [-> ->]. reflexivity.
Qed.

Lemma zip_checkEvidence_ids checks : forall outcomes : list bool,
  length outcomes = length checks ->
  map Evidence.CriterionID (zip_with checkEvidence checks outcomes)
  = map MechanicalCheck.CriterionID checks.
Proof.
  induction checks as [|mc rest IH]; intros [|ok outcomes] Hlen; try discriminate Hlen;
    [reflexivity|].
  cbn [zip_with map]. f_equal. apply IH. cbn in Hlen. lia.
Qed.

(** The result of a run that built at least one check. *)
Lemma validator_Run_eq input w :
  TranslationValidator_Applicable input = true ->
  let checks := TranslationValidator_buildChecks t input in
  checks <> [] ->
  let outcomes := checkOutcomes input checks w in
  let passed := length (List.filter id outcomes) in
  TranslationValidator_Run t input w
  = (checkWorld input checks w,
     ({| TechniqueResult.Name := "translation_validation";
         TechniqueResult.Score := (float64_of_nat passed / float64_of_nat (length checks))%float;
         TechniqueResult.Verdict :=
           if Nat.ltb passed (length checks) then VerdictFail else VerdictPass;
         TechniqueResult.Evidence := zip_with checkEvidence checks outcomes;
         TechniqueResult.Deterministic := true |}, None)).
Proof.
  intros Happ checks Hne outcomes passed.
  unfold TranslationValidator_Run. rewrite Happ. cbn [negb]. fold checks.
  assert (Hlen0 : Nat.eqb (length checks) 0 = false)
    by (destruct checks; [contradiction|reflexivity]).
  rewrite Hlen0, checks_loop_spec. reflexivity.
Qed.

(** With a criterion present and a modified file or package, the run
    ends in pass or fail: it runs every check once, in the order file
    existence (one per modified file), compilation, tests --- the two
    last only when a package is named --- each on the world the
    previous one left and also after a check has failed; it records one
    evidence entry per check, in that order, with the check's
    criterion id and "passed: " or "failed: " before its description;
    the score is the number of passed checks over the number of checks;
    the verdict is pass exactly when every check passed. *)
Theorem validator_Run_records_every_check input w :
  TranslationValidator_Applicable input = true ->
  let checks := TranslationValidator_buildChecks t input in
  checks <> [] ->
  let outcomes := checkOutcomes input checks w in
  let passed := length (List.filter id outcomes) in
  let out := TranslationValidator_Run t input w in
  let result := fst (snd out) in
  out = (checkWorld input checks w, (result, None))
  /\ map MechanicalCheck.CriterionID checks
     = (map (fun _ => "file_exists") (InspectInput.ModifiedFiles input)
        ++ match InspectInput.ModifiedPackages input with
           | [] => []
           | _ :: _ => ["compilation"; "tests_pass"]
           end)%list
  /\ TechniqueResult.Evidence result = zip_with checkEvidence checks outcomes
  /\ length (TechniqueResult.Evidence result) = length checks
  /\ map Evidence.CriterionID (TechniqueResult.Evidence result)
     = map MechanicalCheck.CriterionID checks
  /\ TechniqueResult.Score result
     = (float64_of_nat passed / float64_of_nat (length checks))%float
  /\ (TechniqueResult.Verdict result = VerdictPass
      \/ TechniqueResult.Verdict result = VerdictFail)
  /\ (TechniqueResult.Verdict result = VerdictPass <-> Forall (fun ok => ok = true) outcomes).
Proof.
  intros Happ checks Hne outcomes passed out result.
  pose proof (validator_Run_eq input w Happ Hne) as Hrun.
  fold checks outcomes passed out in Hrun.
  pose proof (checkOutcomes_length input checks w) as Hlen. fold outcomes in Hlen.
  subst result. rewrite Hrun.
  cbn [fst snd TechniqueResult.Evidence TechniqueResult.Score TechniqueResult.Verdict].
  split; [reflexivity|]. split.
  { subst checks. rewrite buildChecks_eq, map_app. f_equal.
    - unfold fileChecks. rewrite map_map. reflexivity.
    - now destruct (InspectInput.ModifiedPackages input). }
  split; [reflexivity|]. split; [rewrite length_zip_with; lia|]. split.
  { now apply zip_checkEvidence_ids. }
  split; [reflexivity|].
  destruct (filter_length_all id outcomes) as (Hle & Hall & _).
  subst passed.
  destruct (Nat.ltb_spec (length (List.filter id outcomes)) (length checks)) as [Hlt|Hge].
  - split; [now right|]. split; [discriminate|].
    intros HF. apply Hall in HF. lia.
  - split; [now left|]. split; [|reflexivity]. intros _. apply Hall. lia.
Qed.

(** With at most [2^53] checks the score is a number in [[0,1]], it is
    1.0 exactly when the verdict is pass, and below 1.0 when the
    verdict is fail. *)
Theorem validator_Run_score_matches_verdict input w :
  TranslationValidator_Applicable input = true ->
  let checks := TranslationValidator_buildChecks t input in
  checks <> [] ->
  (Z.of_nat (length checks) <= 2 ^ 53)%Z ->
  let result := fst (snd (TranslationValidator_Run t input w)) in
  in_unit_interval (TechniqueResult.Score result) = true
  /\ (TechniqueResult.Verdict result = VerdictPass <-> TechniqueResult.Score result = 1%float)
  /\ (TechniqueResult.Verdict result = VerdictFail
      <-> flt (TechniqueResult.Score result) 1%float = true).
Proof.
  intros Happ checks Hne Hbound result.
  pose proof (validator_Run_eq input w Happ Hne) as Hrun. fold checks in Hrun.
  subst result. rewrite Hrun. cbn [fst snd TechniqueResult.Score TechniqueResult.Verdict].
  pose proof (checkOutcomes_length input checks w) as Hlen.
  destruct (filter_length_all id (checkOutcomes input checks w)) as (Hle & _).
  set (passed := length (List.filter id (checkOutcomes input checks w))) in *.
  assert (Hpos : 0 < length checks) by (destruct checks; [contradiction|cbn; lia]).
  assert (H54 : (2 ^ 53 <= 2 ^ 54)%Z) by (vm_compute; discriminate).
  split; [apply count_ratio_in_unit; lia|].
  destruct (Nat.ltb_spec passed (length checks)) as [Hlt|Hge].
  - assert (Hb : PrimFloat.ltb (float64_of_nat passed / float64_of_nat (length checks))%float
                   1%float = true) by (apply count_ratio_below_one; lia).
    unfold flt. rewrite Hb. split; [split; [discriminate|]|tauto].
    intros E. rewrite E in Hb. discriminate Hb.
  - replace passed with (length checks) by lia. rewrite count_ratio_one by lia.
    change (flt 1%float 1%float) with false. split; [tauto|]. split; discriminate.
Qed.

(** The validator reads of its input the modified files, the modified
    packages and whether any criterion is present --- never what a
    criterion says: two inputs that agree on these three get the same
    result on the same world, whatever their criteria, requirements,
    diff, work type and crumb. *)
Theorem validator_Run_ignores_criteria_text input1 input2 w :
  InspectInput.ModifiedFiles input1 = InspectInput.ModifiedFiles input2 ->
  InspectInput.ModifiedPackages input1 = InspectInput.ModifiedPackages input2 ->
  TranslationValidator_Applicable input1 = TranslationValidator_Applicable input2 ->
  TranslationValidator_Run t input1 w = TranslationValidator_Run t input2 w.
Proof.
  intros Hf Hp Ha.
  assert (Hchecks : TranslationValidator_buildChecks t input1
                    = TranslationValidator_buildChecks t input2).
  { rewrite !buildChecks_eq, Hf, Hp. reflexivity. }
  unfold TranslationValidator_Run. rewrite Ha, Hchecks.
  destruct (negb (TranslationValidator_Applicable input2)); [reflexivity|].
  destruct (Nat.eqb _ 0); [reflexivity|].
  assert (Hloop : forall w passed evidence,
             checks_loop input1 (TranslationValidator_buildChecks t input2) w passed evidence
             = checks_loop input2 (TranslationValidator_buildChecks t input2) w passed evidence).
  { rewrite buildChecks_eq.
    assert (Hfc : forall files w passed evidence rest,
               (forall w passed evidence,
                  checks_loop input1 rest w passed evidence
                  = checks_loop input2 rest w passed evidence) ->
               checks_loop input1 (fileChecks t files ++ rest) w passed evidence
               = checks_loop input2 (fileChecks t files ++ rest) w passed evidence).
    { induction files as [|f files IH]; intros w0 passed evidence rest Hrest; [apply Hrest|].
      cbn [fileChecks map app checks_loop MechanicalCheck.Check].
      destruct (TranslationValidator.fileExists t f w0) as [w1 [|]]; apply IH, Hrest. }
    intros w0 passed evidence. apply Hfc. clear w0 passed evidence.
    intros w0 passed evidence.
    destruct (InspectInput.ModifiedPackages input2) as [|p ps] eqn:E; [reflexivity|].
    cbn [checks_loop MechanicalCheck.Check]. rewrite Hp, E. reflexivity. }
  now rewrite Hloop.
Qed.

End ValidatorRun.

(** [TestTranslationValidatorCompilationAndTests] with a build that
    fails: the tests are still run, three entries are recorded in
    generation order, and two checks of three pass. *)
Lemma validator_Run_records_every_check_witness :
  TechniqueResult.Evidence
    (fst (snd (TranslationValidator_Run broken_build_validator input_main_pkg calc_world)))
  = [ {| Evidence.CriterionID := "file_exists"; Evidence.FilePath := "";
         Evidence.Detail := "passed: file main.go exists" |};
      {| Evidence.CriterionID := "compilation"; Evidence.FilePath := "";
         Evidence.Detail := "failed: modified packages compile" |};
      {| Evidence.CriterionID := "tests_pass"; Evidence.FilePath := "";
         Evidence.Detail := "passed: tests pass in modified packages" |} ]
  /\ TechniqueResult.Verdict
       (fst (snd (TranslationValidator_Run broken_build_validator input_main_pkg calc_world)))
     <> VerdictPass.
Proof.
  assert (Happ : TranslationValidator_Applicable input_main_pkg = true) by reflexivity.
  assert (Hne : TranslationValidator_buildChecks broken_build_validator input_main_pkg <> [])
    by discriminate.
  destruct (validator_Run_records_every_check broken_build_validator input_main_pkg calc_world
              Happ Hne) as (_ & _ & Hev & _ & _ & _ & _ & Hpass).
  split.
  - rewrite Hev. vm_compute. reflexivity.
  - intros H. apply Hpass in H. vm_compute in H.
    inversion H as [|? ? _ H2]. inversion H2 as [|? ? H3 _]. discriminate H3.
Defined.

Lemma validator_Run_score_matches_verdict_witness :
  flt (TechniqueResult.Score
         (fst (snd (TranslationValidator_Run broken_build_validator input_main_pkg calc_world))))
      1%float = true.
Proof.
  assert (Happ : TranslationValidator_Applicable input_main_pkg = true) by reflexivity.
  assert (Hne : TranslationValidator_buildChecks broken_build_validator input_main_pkg <> [])
    by discriminate.
  assert (Hb : (Z.of_nat (length (TranslationValidator_buildChecks broken_build_validator
                                    input_main_pkg)) <= 2 ^ 53)%Z)
    by (vm_compute; discriminate).
  apply (validator_Run_score_matches_verdict broken_build_validator input_main_pkg calc_world
           Happ Hne Hb).
  vm_compute. reflexivity.
Defined.

Lemma validator_Run_ignores_criteria_text_witness :
  TranslationValidator_Run broken_build_validator input_main_pkg calc_world
  = TranslationValidator_Run broken_build_validator input_main_pkg_other calc_world.
Proof.
  apply validator_Run_ignores_criteria_text; reflexivity.
Defined.

(** ** The two techniques behind the [Technique] interface *)

Section TechniqueContract.
Context {Ext : Type}.
Variable os_ReadFile : string -> World.t Ext -> option string.
Variable os_WriteFile : string -> string -> World.t Ext -> World.t Ext * option error.
Variable parser_ParseFile : string -> World.t Ext -> option Node.
Variable m : MutationRunner.t Ext.
Variable t : TranslationValidator.t Ext.

Implicit Types (w : World.t Ext) (input : InspectInput.t).

Lemma MutationRunner_Run_cases input w :
  let out := MutationRunner_Run os_ReadFile os_WriteFile parser_ParseFile m input w in
  let allMutants := sites_loop parser_ParseFile (InspectInput.ModifiedFiles input) w [] in
  (MutationRunner_Applicable input = false \/ allMutants = []) /\
    out = (w, (skipResult MutationRunner_Name, None))
  \/ (MutationRunner_Applicable input = true /\ allMutants <> []) /\
     exists w' score evidence,
       out = (w', ({| TechniqueResult.Name := MutationRunner_Name;
                      TechniqueResult.Score := score;
                      TechniqueResult.Verdict :=
                        if flt score 1%float then VerdictFail else VerdictPass;
                      TechniqueResult.Evidence := evidence;
                      TechniqueResult.Deterministic := true |}, None)).
Proof.
  intros out allMutants.
  destruct (MutationRunner_Applicable input) eqn:Happ.
  - destruct allMutants as [|mut0 rest] eqn:Eall.
    + left. split; [now right|]. subst out. unfold MutationRunner_Run. rewrite Happ.
      cbn [negb]. fold allMutants. rewrite Eall. reflexivity.
    + right. split; [split; [reflexivity|discriminate]|].
      assert (Hne : sites_loop parser_ParseFile (InspectInput.ModifiedFiles input) w [] <> []).
      { fold allMutants. rewrite Eall. discriminate. }
      destruct (Run_result_eq os_ReadFile os_WriteFile parser_ParseFile m input w Happ Hne)
        as [_ Hrun].
      subst out. rewrite Hrun. eauto.
  - left. split; [now left|]. subst out. unfold MutationRunner_Run. rewrite Happ. reflexivity.
Qed.

Lemma validator_Run_cases input w :
  let out := TranslationValidator_Run t input w in
  (TranslationValidator_Applicable input = false
   \/ (InspectInput.ModifiedFiles input = [] /\ InspectInput.ModifiedPackages input = [])) /\
    out = (w, (skipResult TranslationValidator_Name, None))
  \/ (TranslationValidator_Applicable input = true
      /\ ~ (InspectInput.ModifiedFiles input = [] /\ InspectInput.ModifiedPackages input = [])) /\
     exists w' score evidence fails,
       out = (w', ({| TechniqueResult.Name := TranslationValidator_Name;
                      TechniqueResult.Score := score;
                      TechniqueResult.Verdict :=
                        if fails : bool then VerdictFail else VerdictPass;
                      TechniqueResult.Evidence := evidence;
                      TechniqueResult.Deterministic := true |}, None)).
Proof.
  intros out.
  destruct (TranslationValidator_Applicable input) eqn:Happ.
  - destruct (TranslationValidator_buildChecks t input) as [|mc rest] eqn:Echecks.
    + left. split; [right; now apply buildChecks_nil in Echecks|].
      subst out. unfold TranslationValidator_Run. rewrite Happ, Echecks. reflexivity.
    + right. split.
      * split; [reflexivity|]. intros H. apply (buildChecks_nil t) in H. congruence.
      * assert (Hne : TranslationValidator_buildChecks t input <> []) by (rewrite Echecks; discriminate).
        pose proof (validator_Run_eq t input w Happ Hne) as Hrun.
        subst out. rewrite Hrun. eauto.
  - left. split; [now left|]. subst out. unfold TranslationValidator_Run. rewrite Happ.
    reflexivity.
Qed.

Lemma skipResult_wellFormed name : wellFormedResult name (skipResult name, None).
Proof. unfold wellFormedResult. cbn. auto 10. Qed.

Lemma MutationRunner_Run_contract input w :
  let mr := snd (MutationRunner_Run os_ReadFile os_WriteFile parser_ParseFile m input w) in
  wellFormedResult "mutation_testing" mr
  /\ (TechniqueResult.Verdict (fst mr) = VerdictSkip
      <-> InspectInput.WorkType input <> "code"
          \/ InspectInput.ModifiedPackages input = []
          \/ sites_loop parser_ParseFile (InspectInput.ModifiedFiles input) w [] = []).
Proof.
  intros mr.
  assert (Hmapp : MutationRunner_Applicable input = false
                  <-> InspectInput.WorkType input <> "code"
                      \/ InspectInput.ModifiedPackages input = []).
  { unfold MutationRunner_Applicable.
    destruct (String.eqb_spec (InspectInput.WorkType input) "code") as [E|NE];
      destruct (InspectInput.ModifiedPackages input) as [|p ps]; cbn; intuition congruence. }
  pose proof (MutationRunner_Run_cases input w) as Hm. cbn zeta in Hm. subst mr.
  destruct Hm as [[Hc Hout]|[[Ha Hs] (w' & score & ev & Hout)]]; rewrite Hout; cbn [snd fst].
  - split; [apply skipResult_wellFormed|]. cbn [skipResult TechniqueResult.Verdict].
    split; [intros _|reflexivity]. destruct Hc as [Hc|Hc]; [|now right; right].
    apply Hmapp in Hc. tauto.
  - split.
    + unfold wellFormedResult. destruct (flt score 1%float); cbn [fst snd TechniqueResult.Name
        TechniqueResult.Deterministic TechniqueResult.Verdict TechniqueResult.Score
        TechniqueResult.Evidence];
        (do 3 (split; [reflexivity|])); (split; [auto|]); intros H; discriminate H.
    + cbn [TechniqueResult.Verdict]. split.
      * destruct (flt score 1%float); discriminate.
      * intros [H|[H|H]]; [| |contradiction];
          assert (MutationRunner_Applicable input = false) by (apply Hmapp; tauto); congruence.
Qed.

Lemma validator_Run_contract input w :
  let tv := snd (TranslationValidator_Run t input w) in
  wellFormedResult "translation_validation" tv
  /\ (TechniqueResult.Verdict (fst tv) = VerdictSkip
      <-> (InspectInput.PRDCriteria input = [] /\ InspectInput.UCCriteria input = [])
          \/ (InspectInput.ModifiedFiles input = [] /\ InspectInput.ModifiedPackages input = [])).
Proof.
  clear os_ReadFile os_WriteFile parser_ParseFile m.
  intros tv.
  assert (Htapp : TranslationValidator_Applicable input = false
                  <-> InspectInput.PRDCriteria input = [] /\ InspectInput.UCCriteria input = []).
  { unfold TranslationValidator_Applicable.
    destruct (InspectInput.PRDCriteria input) as [|c cs];
      destruct (InspectInput.UCCriteria input) as [|u us]; cbn; intuition congruence. }
  pose proof (validator_Run_cases input w) as Hv. cbn zeta in Hv. subst tv.
  destruct Hv as [[Hc Hout]|[[Ha Hs] (w' & score & ev & fails & Hout)]]; rewrite Hout;
    cbn [snd fst].
  - split; [apply skipResult_wellFormed|]. cbn [skipResult TechniqueResult.Verdict].
    split; [intros _|reflexivity]. destruct Hc as [Hc|Hc]; [|now right].
    apply Htapp in Hc. tauto.
  - split.
    + unfold wellFormedResult. destruct fails; cbn [fst snd TechniqueResult.Name
        TechniqueResult.Deterministic TechniqueResult.Verdict TechniqueResult.Score
        TechniqueResult.Evidence];
        (do 3 (split; [reflexivity|])); (split; [auto|]); intros H; discriminate H.
    + cbn [TechniqueResult.Verdict]. split.
      * destruct fails; discriminate.
      * intros [H|H]; [|contradiction].
        assert (TranslationValidator_Applicable input = false) by (apply Htapp; tauto).
        congruence.
Qed.

(** Neither technique ever returns an error: a file that cannot be
    parsed, read or written, a build or tests that fail, all end in a
    result.  The result names its technique, is marked deterministic
    and has the verdict skip, pass or fail; a skip has score 0 and no
    evidence.  The mutation runner skips exactly when the work type is
    not "code", no package is named, or no site is found; the
    translation validator exactly when no criterion is present or
    neither a file nor a package was modified. *)
Theorem Run_of_either_technique_never_errors input w :
  let mr := snd (MutationRunner_Run os_ReadFile os_WriteFile parser_ParseFile m input w) in
  let tv := snd (TranslationValidator_Run t input w) in
  wellFormedResult "mutation_testing" mr
  /\ wellFormedResult "translation_validation" tv
  /\ (TechniqueResult.Verdict (fst mr) = VerdictSkip
      <-> InspectInput.WorkType input <> "code"
          \/ InspectInput.ModifiedPackages input = []
          \/ sites_loop parser_ParseFile (InspectInput.ModifiedFiles input) w [] = [])
  /\ (TechniqueResult.Verdict (fst tv) = VerdictSkip
      <-> (InspectInput.PRDCriteria input = [] /\ InspectInput.UCCriteria input = [])
          \/ (InspectInput.ModifiedFiles input = [] /\ InspectInput.ModifiedPackages input = [])).
Proof.
  intros mr tv.
  destruct (MutationRunner_Run_contract input w) as [H1 H2].
  destruct (validator_Run_contract input w) as [H3 H4].
  auto.
Qed.

End TechniqueContract.

(** The two techniques, run on a change to [calc.go] whose build is
    broken: neither returns an error and neither skips. *)
Lemma Run_of_either_technique_never_errors_witness :
  snd (snd (MutationRunner_Run os_ReadFile_disk os_WriteFile_ok calc_parser failing_tests
              input_calc_criteria calc_world)) = None
  /\ snd (snd (TranslationValidator_Run broken_build_validator input_calc_criteria calc_world))
     = None
  /\ TechniqueResult.Verdict
       (fst (snd (TranslationValidator_Run broken_build_validator input_docs calc_world)))
     <> VerdictSkip
  /\ TechniqueResult.Verdict
       (fst (snd (MutationRunner_Run os_ReadFile_disk os_WriteFile_ok calc_parser failing_tests
                    input_docs calc_world)))
     = VerdictSkip.
Proof.
  destruct (Run_of_either_technique_never_errors os_ReadFile_disk os_WriteFile_ok calc_parser
              failing_tests broken_build_validator input_calc_criteria calc_world)
    as ((Hm & _) & (Hv & _) & _).
  destruct (Run_of_either_technique_never_errors os_ReadFile_disk os_WriteFile_ok calc_parser
              failing_tests broken_build_validator input_docs calc_world)
    as (_ & _ & Hmskip & Hvskip).
  split; [exact Hm|]. split; [exact Hv|]. split.
  - intros H. apply Hvskip in H. destruct H as [[H _]|[H _]]; discriminate H.
  - apply Hmskip. left. discriminate.
Defined.

(** ** The two techniques scored together *)

Section Portfolio.
Context {Ext : Type}.
Variable os_ReadFile : string -> World.t Ext -> option string.
Variable os_WriteFile : string -> string -> World.t Ext -> World.t Ext * option error.
Variable parser_ParseFile : string -> World.t Ext -> option Node.
Variable m : MutationRunner.t Ext.
Variable t : TranslationValidator.t Ext.

Implicit Types (w : World.t Ext) (input : InspectInput.t).

Lemma zero_in_unit : in_unit_interval 0%float = true.
Proof. reflexivity. Qed.

Lemma MutationRunner_Run_score_in_unit input w :
  (Z.of_nat (length (sites_loop parser_ParseFile (InspectInput.ModifiedFiles input) w []))
   <= 2 ^ 53)%Z ->
  in_unit_interval
    (TechniqueResult.Score
       (fst (snd (MutationRunner_Run os_ReadFile os_WriteFile parser_ParseFile m input w))))
  = true.
Proof.
  intros Hbound.
  destruct (MutationRunner_Applicable input) eqn:Happ;
    [|unfold MutationRunner_Run; rewrite Happ; reflexivity].
  destruct (sites_loop parser_ParseFile (InspectInput.ModifiedFiles input) w []) as [|mut0 rest]
    eqn:Eall; [unfold MutationRunner_Run; rewrite Happ, Eall; reflexivity|].
  assert (Hne : sites_loop parser_ParseFile (InspectInput.ModifiedFiles input) w [] <> [])
    by (rewrite Eall; discriminate).
  destruct (Run_result_eq os_ReadFile os_WriteFile parser_ParseFile m input w Happ Hne)
    as [Hlen Hrun].
  rewrite Hrun. cbn [fst snd TechniqueResult.Score]. rewrite Eall in *.
  destruct (filter_length_all Mutant.Killed
              (snd (apply_loop os_ReadFile os_WriteFile m (InspectInput.ModifiedPackages input)
                      (mut0 :: rest) w))) as (Hle & _).
  assert (H54 : (2 ^ 53 <= 2 ^ 54)%Z) by (vm_compute; discriminate).
  apply count_ratio_in_unit; cbn [length] in *; lia.
Qed.

Lemma validator_Run_score_in_unit input w :
  (Z.of_nat (length (TranslationValidator_buildChecks t input)) <= 2 ^ 53)%Z ->
  in_unit_interval (TechniqueResult.Score (fst (snd (TranslationValidator_Run t input w))))
  = true.
Proof.
  intros Hbound.
  destruct (TranslationValidator_Applicable input) eqn:Happ;
    [|unfold TranslationValidator_Run; rewrite Happ; reflexivity].
  destruct (TranslationValidator_buildChecks t input) as [|mc rest] eqn:Echecks;
    [unfold TranslationValidator_Run; rewrite Happ, Echecks; reflexivity|].
  assert (Hne : TranslationValidator_buildChecks t input <> []) by (rewrite Echecks; discriminate).
  rewrite (validator_Run_eq t input w Happ Hne). cbn [fst snd TechniqueResult.Score].
  rewrite Echecks in *.
  pose proof (checkOutcomes_length input (mc :: rest) w) as Hlen.
  destruct (filter_length_all id (checkOutcomes input (mc :: rest) w)) as (Hle & _).
  assert (H54 : (2 ^ 53 <= 2 ^ 54)%Z) by (vm_compute; discriminate).
  apply count_ratio_in_unit; cbn [length] in *; lia.
Qed.

Lemma isSkip_spec r : isSkip r = true <-> TechniqueResult.Verdict r = VerdictSkip.
Proof. unfold isSkip. apply String.eqb_eq. Qed.

(** The results of the package's two techniques, scored together under
    the default configuration.  Both names are keys of the default
    weights, so the translation validator counts 0.30 and the mutation
    runner 0.25, never the fallback 0.10.  The composite is valid
    exactly when neither technique skipped; otherwise the action is
    human review --- in particular for every change whose work type is
    not "code", on which the mutation runner always skips.  Both
    results are marked deterministic, so the deterministic fraction is
    exactly 1.0 as soon as one of them ran.  With at most [2^53] sites
    and checks, a valid composite is a number in [[0,1]]. *)
Theorem Score_of_the_two_techniques input w1 w2 :
  let mr := fst (snd (MutationRunner_Run os_ReadFile os_WriteFile parser_ParseFile m input w1)) in
  let tv := fst (snd (TranslationValidator_Run t input w2)) in
  let s := NewScorer DefaultScorerConfig in
  let cr := Scorer_Score s [tv; mr] in
  Scorer_weightFor s (TechniqueResult.Name tv) = 0.30%float
  /\ Scorer_weightFor s (TechniqueResult.Name mr) = 0.25%float
  /\ (CompositeResult.ValidScore cr = true
      <-> TechniqueResult.Verdict tv <> VerdictSkip
          /\ TechniqueResult.Verdict mr <> VerdictSkip)
  /\ (CompositeResult.ValidScore cr = false -> CompositeResult.Action cr = ActionHumanReview)
  /\ (InspectInput.WorkType input <> "code" ->
      CompositeResult.ValidScore cr = false
      /\ CompositeResult.Action cr = ActionHumanReview)
  /\ (TechniqueResult.Verdict tv <> VerdictSkip \/ TechniqueResult.Verdict mr <> VerdictSkip ->
      Scorer_DeterministicWeight s [tv; mr] = 1%float)
  /\ ((Z.of_nat (length (sites_loop parser_ParseFile (InspectInput.ModifiedFiles input) w1 []))
       <= 2 ^ 53)%Z ->
      (Z.of_nat (length (TranslationValidator_buildChecks t input)) <= 2 ^ 53)%Z ->
      CompositeResult.ValidScore cr = true ->
      in_unit_interval (CompositeResult.CompositeScore cr) = true).
Proof.
  intros mr tv s cr.
  destruct (MutationRunner_Run_contract os_ReadFile os_WriteFile parser_ParseFile m input w1)
    as [(_ & Hmname & Hmdet & _) Hmskip].
  destruct (validator_Run_contract t input w2) as [(_ & Htname & Htdet & _) _].
  fold mr in Hmname, Hmdet, Hmskip. fold tv in Htname, Htdet.
  assert (Hvalid : CompositeResult.ValidScore cr = negb (isSkip tv) && negb (isSkip mr)).
  { subst cr. unfold Scorer_Score. cbn [Score_loop].
    destruct (isSkip tv), (isSkip mr); reflexivity. }
  assert (Hinvalid : CompositeResult.ValidScore cr = false ->
                     CompositeResult.Action cr = ActionHumanReview).
  { subst cr. unfold Scorer_Score. cbn [Score_loop].
    destruct (isSkip tv), (isSkip mr); cbn; intros H; try reflexivity; discriminate H. }
  assert (Ht : isSkip tv = false <-> TechniqueResult.Verdict tv <> VerdictSkip).
  { rewrite <- isSkip_spec. destruct (isSkip tv); intuition congruence. }
  assert (Hm : isSkip mr = false <-> TechniqueResult.Verdict mr <> VerdictSkip).
  { rewrite <- isSkip_spec. destruct (isSkip mr); intuition congruence. }
  split; [now rewrite Htname|]. split; [now rewrite Hmname|].
  split; [rewrite Hvalid, andb_true_iff, !negb_true_iff; tauto|].
  split; [exact Hinvalid|]. split; [|split].
  - intros Hwt.
    assert (Hs : isSkip mr = true) by (apply isSkip_spec, Hmskip; now left).
    assert (Hv : CompositeResult.ValidScore cr = false)
      by (rewrite Hvalid, Hs; apply andb_false_r).
    auto.
  - intros Hran. rewrite <- Ht, <- Hm in Hran.
    unfold Scorer_DeterministicWeight. cbn [DeterministicWeight_loop].
    rewrite Htname, Hmname, Htdet, Hmdet.
    destruct (isSkip tv), (isSkip mr); try (vm_compute; reflexivity).
    destruct Hran; discriminate.
  - intros Hb1 Hb2 Hv. rewrite Hvalid in Hv.
    apply andb_prop in Hv as [Hst Hsm]. apply negb_true_iff in Hst, Hsm.
    assert (Hns : nonSkip [tv; mr] = [tv; mr]).
    { unfold nonSkip. cbn [List.filter]. now rewrite Hst, Hsm. }
    subst cr. rewrite (Score_above_floor s [tv; mr]) by (rewrite Hns; cbn; lia).
    cbn zeta. cbn [CompositeResult.CompositeScore]. rewrite Hns.
    apply sums_ok_quotient.
    + apply fold_sums_ok; [exact DefaultWeights_in_range| |exact sums_ok_zero].
      constructor; [now apply validator_Run_score_in_unit|].
      constructor; [now apply MutationRunner_Run_score_in_unit|constructor].
    + unfold fsum, weightOf. cbn [map fold_left]. rewrite Htname, Hmname.
      vm_compute. reflexivity.
Qed.

End Portfolio.

(** A documentation change: the validator runs, the mutation runner
    skips, and the composite is invalid. *)
Lemma Score_of_the_two_techniques_witness :
  CompositeResult.ValidScore
    (Scorer_Score (NewScorer DefaultScorerConfig)
       [ fst (snd (TranslationValidator_Run test_validator input_docs calc_world));
         fst (snd (MutationRunner_Run os_ReadFile_disk os_WriteFile_ok calc_parser failing_tests
                     input_docs calc_world)) ]) = false
  /\ Scorer_DeterministicWeight (NewScorer DefaultScorerConfig)
       [ fst (snd (TranslationValidator_Run test_validator input_docs calc_world));
         fst (snd (MutationRunner_Run os_ReadFile_disk os_WriteFile_ok calc_parser failing_tests
                     input_docs calc_world)) ] = 1%float.
Proof.
  destruct (Score_of_the_two_techniques os_ReadFile_disk os_WriteFile_ok calc_parser
              failing_tests test_validator input_docs calc_world calc_world)
    as (_ & _ & _ & _ & Hdocs & Hdet & _).
  split.
  - apply Hdocs. discriminate.
  - apply Hdet. left. vm_compute. discriminate.
Defined.

(** ** The mutation runner: a mutation changes one line *)

Section LineFacts.

Lemma Contains_byte_cons c d s :
  strings_Contains (String d s) (String c "")
  = Ascii.eqb c d || strings_Contains s (String c "").
Proof.
  cbn [strings_Contains String.prefix].
  destruct (Ascii.ascii_dec c d) as [->|Hne].
  - rewrite Ascii.eqb_refl. now destruct s.
  - destruct (Ascii.eqb_spec c d); [contradiction|]. reflexivity.
Qed.

Lemma Contains_byte_nil c : strings_Contains "" (String c "") = false.
Proof. reflexivity. Qed.

Lemma Contains_byte_app c a b :
  strings_Contains (a ++ b) (String c "")
  = strings_Contains a (String c "") || strings_Contains b (String c "").
Proof.
  induction a as [|d a IH]; [reflexivity|].
  rewrite append_cons, !Contains_byte_cons, IH. now rewrite orb_assoc.
Qed.

Lemma Contains_byte_substring c s : forall n k,
  strings_Contains s (String c "") = false ->
  strings_Contains (String.substring n k s) (String c "") = false.
Proof.
  induction s as [|d s IH]; intros n k H.
  - destruct n, k; reflexivity.
  - rewrite Contains_byte_cons in H. apply orb_false_elim in H as [Hd Hs].
    destruct n as [|n]; cbn [String.substring].
    + destruct k as [|k]; [reflexivity|]. rewrite Contains_byte_cons, Hd. now apply IH.
    + now apply IH.
Qed.

Lemma replace_first_no_byte c s old new :
  strings_Contains s (String c "") = false ->
  strings_Contains new (String c "") = false ->
  strings_Contains (replace_first s old new) (String c "") = false.
Proof.
  intros Hs Hnew. induction s as [|d s IH]; [reflexivity|].
  cbn [replace_first]. destruct (String.prefix old (String d s)).
  - rewrite Contains_byte_app, Hnew. now apply Contains_byte_substring.
  - rewrite Contains_byte_cons in *. apply orb_false_elim in Hs as [Hd Hs'].
    rewrite Hd. now apply IH.
Qed.

Lemma Replace1_no_byte c s old new :
  strings_Contains s (String c "") = false ->
  strings_Contains new (String c "") = false ->
  strings_Contains (strings_Replace1 s old new) (String c "") = false.
Proof.
  intros Hs Hnew. unfold strings_Replace1.
  destruct (String.eqb old new); [exact Hs|].
  destruct (String.eqb old "").
  - now rewrite Contains_byte_app, Hnew, Hs.
  - now apply replace_first_no_byte.
Qed.

(** The pieces of a split hold no separator. *)
Lemma split_byte_pieces sep s : forall piece,
  strings_Contains (String.rev piece) (String sep "") = false ->
  Forall (fun x => strings_Contains x (String sep "") = false) (split_byte sep s piece).
Proof.
  induction s as [|c s IH]; intros piece Hp; cbn [split_byte].
  - constructor; [exact Hp|constructor].
  - destruct (Ascii.eqb_spec c sep) as [->|Hne].
    + constructor; [exact Hp|]. now apply IH.
    + apply IH. rewrite rev_cons, Contains_byte_app, Hp, Contains_byte_cons.
      destruct (Ascii.eqb_spec sep c); [congruence|reflexivity].
Qed.

(** Splitting a text that holds no separator up to its end, or up to
    its first separator. *)
Lemma split_byte_piece sep x : forall piece,
  strings_Contains x (String sep "") = false ->
  split_byte sep x piece = [String.rev piece ++ x]
  /\ forall rest, split_byte sep (x ++ String sep rest) piece
                  = (String.rev piece ++ x) :: split_byte sep rest "".
Proof.
  induction x as [|c x IH]; intros piece Hx.
  - split; [cbn [split_byte]; now rewrite append_nil_r|].
    intros rest. change ("" ++ String sep rest) with (String sep rest).
    cbn [split_byte]. rewrite Ascii.eqb_refl. now rewrite append_nil_r.
  - rewrite Contains_byte_cons in Hx. apply orb_false_elim in Hx as [Hc Hx].
    assert (Hne : Ascii.eqb c sep = false).
    { destruct (Ascii.eqb_spec c sep) as [->|]; [|reflexivity].
      now rewrite Ascii.eqb_refl in Hc. }
    destruct (IH (String c piece) Hx) as [H1 H2].
    assert (E : String.rev (String c piece) ++ x = String.rev piece ++ String c x).
    { now rewrite rev_cons, append_assoc. }
    split.
    + cbn [split_byte]. now rewrite Hne, H1, E.
    + intros rest. rewrite append_cons. cbn [split_byte]. now rewrite Hne, H2, E.
Qed.

(** [strings.Split(strings.Join(lines, sep), sep)] is [lines] when no
    line holds the separator. *)
Lemma Split_Join sep (lines : list string) :
  lines <> [] ->
  Forall (fun x => strings_Contains x (String sep "") = false) lines ->
  split_byte sep (String.concat (String sep "") lines) "" = lines.
Proof.
  intros Hne H. induction H as [|x l Hx Hl IH]; [contradiction|].
  destruct l as [|y l].
  - cbn [String.concat]. now rewrite (proj1 (split_byte_piece sep x "" Hx)).
  - rewrite concat_cons. change (String sep "" ++ String.concat (String sep "") (y :: l))
      with (String sep (String.concat (String sep "") (y :: l))).
    rewrite (proj2 (split_byte_piece sep x "" Hx)). f_equal. apply IH. discriminate.
Qed.

End LineFacts.

Section CycleLines.
Context {Ext : Type}.
Variable os_ReadFile : string -> World.t Ext -> option string.
Variable os_WriteFile : string -> string -> World.t Ext -> World.t Ext * option error.

(** A mutation touches one line.  When a cycle applies a mutated text
    that holds no newline --- as every text of site discovery does ---
    the bytes it writes before the tests are the lines of the file
    with line [line] replaced and every other line, and the number of
    lines, as they were; and the bytes it writes after the tests are
    the bytes it read. *)
Theorem applyAndTest_changes_one_line m filePath line original mutated packages
    (w : World.t Ext) content w1 w2 testErr :
  os_ReadFile filePath w = Some content ->
  let lines := strings_Split_newline content in
  let originalLine := nth (Z.to_nat (line - 1)) lines "" in
  let mutatedLine := strings_Replace1 originalLine original mutated in
  let written := strings_Join (<[Z.to_nat (line - 1) := mutatedLine]> lines) newline in
  (1 <= line <= Z.of_nat (length lines))%Z ->
  mutatedLine <> originalLine ->
  strings_Contains mutated newline = false ->
  os_WriteFile filePath written w = (w1, None) ->
  MutationRunner.runTests m packages w1 = (w2, testErr) ->
  strings_Split_newline written = <[Z.to_nat (line - 1) := mutatedLine]> lines
  /\ length (strings_Split_newline written) = length lines
  /\ (forall i, i <> Z.to_nat (line - 1) ->
        strings_Split_newline written !! i = lines !! i)
  /\ strings_Split_newline written !! Z.to_nat (line - 1) = Some mutatedLine
  /\ MutationRunner_applyAndTest os_ReadFile os_WriteFile m filePath line original mutated packages w
     = (fst (os_WriteFile filePath content w2), bool_decide (testErr <> None)).
Proof.
  intros Hread lines originalLine mutatedLine written Hrange Hchanged Hnl Hw1 Htest.
  assert (Hpieces : Forall (fun x => strings_Contains x newline = false) lines).
  { apply split_byte_pieces. reflexivity. }
  assert (Hl : lines !! Z.to_nat (line - 1) = Some originalLine).
  { subst originalLine. rewrite nth_lookup.
    destruct (lookup_lt_is_Some_2 lines (Z.to_nat (line - 1)) ltac:(lia)) as [x Hx].
    now rewrite Hx. }
  assert (Horig : strings_Contains originalLine newline = false).
  { rewrite Forall_forall in Hpieces. apply Hpieces. eapply list_elem_of_lookup_2; eauto. }
  assert (Hmut : strings_Contains mutatedLine newline = false)
    by (apply Replace1_no_byte; assumption).
  assert (Hsplit : strings_Split_newline written = <[Z.to_nat (line - 1) := mutatedLine]> lines).
  { subst written. unfold strings_Split_newline, strings_Join, newline. apply Split_Join.
    - intros E. apply (f_equal length) in E. rewrite length_insert in E. cbn in E. lia.
    - apply Forall_insert; assumption. }
  split; [exact Hsplit|]. rewrite Hsplit.
  split; [apply length_insert|].
  split; [intros i Hi; apply list_lookup_insert_ne; congruence|].
  split; [apply list_lookup_insert_eq; lia|].
  unfold MutationRunner_applyAndTest. rewrite Hread. fold lines.
  replace ((line <? 1)%Z || (Z.of_nat (length lines) <? line)%Z) with false
    by (symmetry; apply orb_false_intro; apply Z.ltb_ge; lia).
  fold originalLine. fold mutatedLine.
  destruct (String.eqb_spec mutatedLine originalLine) as [E|_]; [contradiction|].
  fold written. rewrite Hw1, Htest.
  destruct (os_WriteFile filePath content w2) as [w3 e3]. reflexivity.
Qed.

End CycleLines.

(** The cycle on [calc.go]: line 2 changes, line 1 and the empty last
    line do not. *)
Lemma applyAndTest_changes_one_line_witness :
  strings_Split_newline calc_go_mutated
  = [ "package calc"; "func Sum(a, b int) int { return a - b }"; "" ]
  /\ strings_Split_newline calc_go_mutated !! 0%nat = strings_Split_newline calc_go !! 0%nat.
Proof.
  destruct (applyAndTest_changes_one_line os_ReadFile_disk os_WriteFile_ok failing_tests
              "calc.go" 2 "+" "-" ["./calc"] calc_world calc_go
              (World_store "calc.go" calc_go_mutated calc_world)
              (World_store "calc.go" calc_go_mutated calc_world)
              (Some "tests failed")) as (Hs & _ & Hother & _).
  - reflexivity.
  - vm_compute. split; discriminate.
  - vm_compute. discriminate.
  - vm_compute. reflexivity.
  - vm_compute. reflexivity.
  - reflexivity.
  - split.
    + vm_compute in Hs. vm_compute. exact Hs.
    + specialize (Hother 0%nat). apply Hother. vm_compute. discriminate.
Defined.

(** ** The cupboard wrapper *)

Section CupboardProperties.
Context {DB : Type} {module : CrumbsModule DB}.

Implicit Types (c : Cupboard.t Backend) (db : DB).

Lemma prefix_append a b : String.prefix a (a ++ b) = true.
Proof.
  induction a as [|x a IH]; [now destruct b|].
  rewrite append_cons. cbn [String.prefix].
  destruct (Ascii.ascii_dec x x); [exact IH|congruence].
Qed.

Lemma errors_Is_refl e : errors_Is e e = true.
Proof. destruct e; cbn [errors_Is]; now rewrite bool_decide_eq_true_2. Qed.

(** [fmt.Errorf("%w: ...", S)] for a sentinel [S] of the package. *)
Lemma fmt_Errorf_wrap_exactly S detail :
  S ∈ sentinels -> wrapsExactly (fmt_Errorf_wrap S detail) S.
Proof.
  intros HS. unfold wrapsExactly, fmt_Errorf_wrap. cbn [errors_Unwrap goerror_Error].
  split; [reflexivity|]. split; [|split; [|eauto]].
  - cbn [errors_Is]. rewrite errors_Is_refl. apply orb_true_r.
  - intros S' HS' Hne. cbn [errors_Is].
    assert (Hplain : exists s, S = errorString s /\ exists s', S' = errorString s').
    { unfold sentinels in *.
      repeat (apply elem_of_cons in HS as [->|HS]; [|]);
        try (now apply elem_of_nil in HS);
        (eexists; split; [reflexivity|]);
        repeat (apply elem_of_cons in HS' as [->|HS']; [eexists; reflexivity|]);
        now apply elem_of_nil in HS'. }
    destruct Hplain as (s & -> & s' & ->). cbn [errors_Is].
    rewrite !orb_false_r.
    rewrite bool_decide_eq_false_2 by discriminate.
    rewrite bool_decide_eq_false_2 by congruence. reflexivity.
Qed.

(** Every error of the three crumb methods names the step that
    failed.  A failure to reach the crumbs table is reported by all
    three as an error wrapping [ErrTableAccess]; a failure of the
    operation itself wraps [ErrCrumbGet], [ErrCrumbSet] or
    [ErrCrumbFetch] --- and so does an entity that is not a crumb.  The
    error wraps that one sentinel and no other ([ErrCupboardInit] is
    never returned), its message is the sentinel's message, a colon and
    the detail, and the backend's own error is kept as text only.
    [GetTable], in contrast, hands the backend's error on as it is. *)
Theorem crumb_errors_name_the_failed_step c backend id crumb filter name db :
  Cupboard.backend c = Some backend ->
  (forall db1 e, Cupboard_GetCrumb c id db = Some (db1, inr e) ->
     (wrapsExactly e ErrTableAccess
      /\ exists err, Backend_GetTable backend types_CrumbsTable db = (db1, inr err))
     \/ (wrapsExactly e ErrCrumbGet
         /\ exists db0 table, Backend_GetTable backend types_CrumbsTable db = (db0, inl table)))
  /\ (forall db1 e, Cupboard_SetCrumb c id crumb db = Some (db1, inr e) ->
     (wrapsExactly e ErrTableAccess
      /\ exists err, Backend_GetTable backend types_CrumbsTable db = (db1, inr err))
     \/ (wrapsExactly e ErrCrumbSet
         /\ exists db0 table, Backend_GetTable backend types_CrumbsTable db = (db0, inl table)))
  /\ (forall db1 e, Cupboard_FetchCrumbs c filter db = Some (db1, inr e) ->
     (wrapsExactly e ErrTableAccess
      /\ exists err, Backend_GetTable backend types_CrumbsTable db = (db1, inr err))
     \/ (wrapsExactly e ErrCrumbFetch
         /\ exists db0 table, Backend_GetTable backend types_CrumbsTable db = (db0, inl table)))
  /\ (forall db1 err, Backend_GetTable backend types_CrumbsTable db = (db1, inr err) ->
      let e := fmt_Errorf_wrap ErrTableAccess (goerror_Error err) in
      Cupboard_GetCrumb c id db = Some (db1, inr e)
      /\ Cupboard_SetCrumb c id crumb db = Some (db1, inr e)
      /\ Cupboard_FetchCrumbs c filter db = Some (db1, inr e)
      /\ goerror_Error e = "cobbler: table access failed: " ++ goerror_Error err)
  /\ Cupboard_GetTable c name db = Some (Backend_GetTable backend name db).
Proof.
  intros Hb.
  assert (HTA : forall d, wrapsExactly (fmt_Errorf_wrap ErrTableAccess d) ErrTableAccess)
    by (intros d; apply fmt_Errorf_wrap_exactly; unfold sentinels; set_solver).
  assert (HG : forall d, wrapsExactly (fmt_Errorf_wrap ErrCrumbGet d) ErrCrumbGet)
    by (intros d; apply fmt_Errorf_wrap_exactly; unfold sentinels; set_solver).
  assert (HS : forall d, wrapsExactly (fmt_Errorf_wrap ErrCrumbSet d) ErrCrumbSet)
    by (intros d; apply fmt_Errorf_wrap_exactly; unfold sentinels; set_solver).
  assert (HF : forall d, wrapsExactly (fmt_Errorf_wrap ErrCrumbFetch d) ErrCrumbFetch)
    by (intros d; apply fmt_Errorf_wrap_exactly; unfold sentinels; set_solver).
  unfold Cupboard_GetCrumb, Cupboard_SetCrumb, Cupboard_FetchCrumbs, Cupboard_GetTable.
  rewrite Hb.
  destruct (Backend_GetTable backend types_CrumbsTable db) as [db0 [table|err0]] eqn:Etable.
  - split; [|split; [|split; [|split; [intros ? ? [=]|reflexivity]]]].
    + intros db1 e. destruct (Table_Get table id db0) as [db2 [entity|err]].
      * destruct (asCrumb entity); intros [= <- <-]. right. eauto.
      * intros [= <- <-]. right. eauto.
    + intros db1 e. destruct (Table_Set table id (ofCrumb crumb) db0) as [db2 [actual|err]];
        intros [= <- <-]. right. eauto.
    + intros db1 e. destruct (Table_Fetch table filter db0) as [db2 [entities|err]].
      * generalize (@nil Crumb). induction entities as [|entity rest IH]; intros acc;
          cbn [FetchCrumbs_loop]; [intros [=]|].
        destruct (asCrumb entity); [apply IH|]. intros [= <- <-]. right. eauto.
      * intros [= <- <-]. right. eauto.
  - split; [|split; [|split; [|split; [|reflexivity]]]].
    + intros db1 e [= <- <-]. left. eauto.
    + intros db1 e [= <- <-]. left. eauto.
    + intros db1 e [= <- <-]. left. eauto.
    + intros db1 err [= <- <-]. cbn zeta. repeat split; reflexivity.
Qed.

Lemma FetchCrumbs_loop_all (entities : list Entity) : forall crumbs,
  Forall (fun e => is_Some (asCrumb e)) entities ->
  exists found,
    FetchCrumbs_loop entities crumbs = inl (crumbs ++ found)%list
    /\ map Some found = map asCrumb entities.
Proof.
  induction entities as [|entity rest IH]; intros crumbs Hall.
  - exists []. split; [cbn; now rewrite app_nil_r|reflexivity].
  - inversion Hall as [|? ? [crumb Hc] Hrest]; subst. cbn [FetchCrumbs_loop]. rewrite Hc.
    destruct (IH (crumbs ++ [crumb])%list Hrest) as (found & Heq & Hmap).
    exists (crumb :: found). split.
    + rewrite Heq, <- app_assoc. reflexivity.
    + cbn [map]. now rewrite Hc, Hmap.
Qed.

Lemma FetchCrumbs_loop_first_other (pre : list Entity) bad post : forall crumbs,
  Forall (fun e => is_Some (asCrumb e)) pre -> asCrumb bad = None ->
  FetchCrumbs_loop (pre ++ bad :: post) crumbs
  = inr (fmt_Errorf_wrap ErrCrumbFetch ("unexpected type " ++ typeName bad ++ " in results")).
Proof.
  induction pre as [|entity rest IH]; intros crumbs Hall Hbad.
  - cbn [app FetchCrumbs_loop]. now rewrite Hbad.
  - inversion Hall as [|? ? [crumb Hc] Hrest]; subst. cbn [app FetchCrumbs_loop].
    rewrite Hc. now apply IH.
Qed.

(** [FetchCrumbs] returns all or nothing.  When the table is reached
    and the fetch succeeds, the result is the fetched entities
    themselves as crumbs, as many and in the same order, if every one
    of them is a crumb; as soon as one is not, the result is no list at
    all but an error wrapping [ErrCrumbFetch] that names the type of
    the first such entity.  The state is the one the backend left. *)
Theorem FetchCrumbs_all_or_nothing c backend filter db db0 table db1 entities :
  Cupboard.backend c = Some backend ->
  Backend_GetTable backend types_CrumbsTable db = (db0, inl table) ->
  Table_Fetch table filter db0 = (db1, inl entities) ->
  (Forall (fun e => is_Some (asCrumb e)) entities ->
     exists crumbs,
       Cupboard_FetchCrumbs c filter db = Some (db1, inl crumbs)
       /\ map Some crumbs = map asCrumb entities
       /\ length crumbs = length entities)
  /\ (forall pre bad post,
        entities = (pre ++ bad :: post)%list ->
        Forall (fun e => is_Some (asCrumb e)) pre -> asCrumb bad = None ->
        Cupboard_FetchCrumbs c filter db
        = Some (db1, inr (fmt_Errorf_wrap ErrCrumbFetch
                            ("unexpected type " ++ typeName bad ++ " in results"))))
  /\ (entities = [] -> Cupboard_FetchCrumbs c filter db = Some (db1, inl [])).
Proof.
  intros Hb Htable Hfetch. unfold Cupboard_FetchCrumbs. rewrite Hb, Htable, Hfetch.
  split; [|split].
  - intros Hall. destruct (FetchCrumbs_loop_all entities [] Hall) as (found & Heq & Hmap).
    exists found. split; [now rewrite Heq|]. split; [exact Hmap|].
    apply (f_equal length) in Hmap. now rewrite !length_map in Hmap.
  - intros pre bad post -> Hpre Hbad. now rewrite FetchCrumbs_loop_first_other.
  - intros ->. reflexivity.
Qed.

(** The life of a cupboard.  [NewCupboard] attaches a fresh backend
    with the SQLite backend type and the given directory, ".crumbs"
    when the directory is empty; when the attachment fails it returns
    no cupboard and an error wrapping [ErrCupboardAttach], otherwise a
    cupboard that holds the backend and reports that directory.
    [Close] returns what [Detach] returns, on whatever state it is
    called, so that a second [Close] detaches again; on a
    cupboard without backend [Close] returns nil and does nothing,
    while the other methods panic. *)
Theorem NewCupboard_and_Close dataDir db :
  let dir := if String.eqb dataDir "" then ".crumbs" else dataDir in
  let fresh := sqlite_NewBackend db in
  let config := {| Config.Backend := types_BackendSQLite; Config.DataDir := dir |} in
  let attach := Backend_Attach (snd fresh) config (fst fresh) in
  (snd attach = None ->
     exists c,
       NewCupboard dataDir db = (fst attach, (Some c, None))
       /\ Cupboard.backend c = Some (snd fresh)
       /\ Cupboard_DataDir c = dir
       /\ (forall db', Cupboard_Close c db' = Some (Backend_Detach (snd fresh) db')))
  /\ (forall err, snd attach = Some err ->
        exists e,
          NewCupboard dataDir db = (fst attach, (None, Some e))
          /\ wrapsExactly e ErrCupboardAttach
          /\ goerror_Error e = "cobbler: cupboard attach failed: " ++ goerror_Error err)
  /\ (forall dir' db' id crumb filter name,
        let zero := {| Cupboard.backend := None; Cupboard.dataDir := dir' |} in
        Cupboard_Close zero db' = Some (db', None)
        /\ Cupboard_GetCrumb zero id db' = None
        /\ Cupboard_SetCrumb zero id crumb db' = None
        /\ Cupboard_FetchCrumbs zero filter db' = None
        /\ Cupboard_GetTable zero name db' = None).
Proof.
  intros dir fresh config attach. split; [|split].
  - intros Hok. unfold NewCupboard. fold dir.
    change DefaultDataDir with ".crumbs". fold dir.
    subst attach config. fold fresh. destruct fresh as [db1 b] eqn:Efresh. cbn [fst snd] in *.
    destruct (Backend_Attach b {| Config.Backend := types_BackendSQLite; Config.DataDir := dir |} db1)
      as [db2 oerr] eqn:Eattach.
    cbn [snd] in Hok. subst oerr. cbn [fst].
    eexists. split; [reflexivity|]. cbn [Cupboard.backend Cupboard_DataDir Cupboard.dataDir].
    split; [reflexivity|]. split; reflexivity.
  - intros err Herr. unfold NewCupboard. change DefaultDataDir with ".crumbs". fold dir.
    subst attach config. fold fresh. destruct fresh as [db1 b] eqn:Efresh. cbn [fst snd] in *.
    destruct (Backend_Attach b {| Config.Backend := types_BackendSQLite; Config.DataDir := dir |} db1)
      as [db2 oerr] eqn:Eattach.
    cbn [snd] in Herr. subst oerr. cbn [fst].
    eexists. split; [reflexivity|]. split; [|reflexivity].
    apply fmt_Errorf_wrap_exactly. unfold sentinels. set_solver.
  - intros. repeat split; reflexivity.
Qed.

End CupboardProperties.

(** The store in memory, detached: every crumb method reports the
    table as out of reach. *)
Lemma crumb_errors_name_the_failed_step_witness :
  Cupboard_GetCrumb mem_cupboard "c1" empty_db
  = Some (empty_db, inr (wrapError "cobbler: table access failed: cupboard is detached"
                           ErrTableAccess))
  /\ errors_Is (wrapError "cobbler: table access failed: cupboard is detached" ErrTableAccess)
       ErrTableAccess = true.
Proof.
  destruct (crumb_errors_name_the_failed_step (module := memory_module) mem_cupboard tt "c1" "Crumb 1" tt "crumbs" empty_db
              eq_refl) as (_ & _ & _ & Hall & _).
  destruct (Hall empty_db (errorString "cupboard is detached") eq_refl) as (Hget & _).
  split; [exact Hget|reflexivity].
Defined.

(** Two crumbs are fetched as two crumbs; with a stash among the rows
    nothing is returned but the error. *)
Lemma FetchCrumbs_all_or_nothing_witness :
  Cupboard_FetchCrumbs mem_cupboard tt two_crumbs_db
  = Some (two_crumbs_db, inl ["Crumb 1"; "Crumb 2"])
  /\ Cupboard_FetchCrumbs mem_cupboard tt mixed_db
     = Some (mixed_db,
             inr (wrapError "cobbler: crumb fetch failed: unexpected type *types.Stash in results"
                    ErrCrumbFetch)).
Proof.
  split.
  - destruct (FetchCrumbs_all_or_nothing (module := memory_module) mem_cupboard tt tt two_crumbs_db two_crumbs_db "crumbs"
                two_crumbs_db [aCrumb "Crumb 1"; aCrumb "Crumb 2"] eq_refl eq_refl eq_refl)
      as (Hall & _).
    destruct Hall as (crumbs & Heq & Hmap & _).
    + repeat constructor; eexists; reflexivity.
    + rewrite Heq. destruct crumbs as [|a [|b [|? ?]]]; try discriminate Hmap.
      cbn in Hmap. now inversion Hmap.
  - destruct (FetchCrumbs_all_or_nothing (module := memory_module) mem_cupboard tt tt mixed_db mixed_db "crumbs"
                mixed_db [aCrumb "Crumb 1"; aStash "Stash 1"; aCrumb "Crumb 2"]
                eq_refl eq_refl eq_refl) as (_ & Hbad & _).
    apply (Hbad [aCrumb "Crumb 1"] (aStash "Stash 1") [aCrumb "Crumb 2"]).
    + reflexivity.
    + repeat constructor. eexists. reflexivity.
    + reflexivity.
Defined.

(** [TestNewCupboard_DefaultDataDir] and a directory that cannot hold
    a database. *)
Lemma NewCupboard_and_Close_witness :
  (exists c, NewCupboard "" empty_db
             = ({| MemDB.attached := true; MemDB.rows := [] |}, (Some c, None))
             /\ Cupboard_DataDir c = ".crumbs")
  /\ (exists e, NewCupboard "/proc" empty_db = (empty_db, (None, Some e))
                /\ goerror_Error e
                   = "cobbler: cupboard attach failed: unable to open database file").
Proof.
  destruct (NewCupboard_and_Close (module := memory_module) "" empty_db) as (Hok & _).
  destruct (NewCupboard_and_Close (module := memory_module) "/proc" empty_db) as (_ & Hfail & _).
  split.
  - destruct (Hok eq_refl) as (c & Hnew & _ & Hdir & _). exists c. split; [exact Hnew|exact Hdir].
  - destruct (Hfail (errorString "unable to open database file") eq_refl) as (e & Hnew & _ & Hmsg).
    exists e. split; [exact Hnew|exact Hmsg].
Defined.

(** ** The two mutation tables together *)

Section MutationTables.

(** The two tables commute: replacing an operator and then shifting
    its boundary gives the operator that shifting and then replacing
    gives, and one fails exactly when the other does.  On the four
    relational operators both are defined, so the mutants of a
    relational site --- its replacement and its boundary change ---
    differ from the original and from each other, and the one operator
    of the four that no mutant of the site carries is the one both
    tables reach together.  Distinct operators are spelled
    differently, so the texts of the mutants differ as the operators
    do. *)
Theorem mutation_tables_commute op :
  (operatorReplacement op ≫= boundaryChange) = (boundaryChange op ≫= operatorReplacement)
  /\ (forall r b, operatorReplacement op = Some r -> boundaryChange op = Some b ->
        r <> b /\ r <> op /\ b <> op
        /\ exists o, boundaryChange r = Some o /\ operatorReplacement b = Some o
                     /\ o <> op /\ o <> r /\ o <> b)
  /\ (is_Some (boundaryChange op) -> is_Some (operatorReplacement op))
  /\ (forall op', Token_String op = Token_String op' -> op = op').
Proof.
  split; [destruct op; reflexivity|]. split; [|split].
  - intros r b Hr Hb.
    destruct op; try discriminate Hb; cbn in Hr, Hb;
      injection Hr as <-; injection Hb as <-;
      (split; [discriminate|]); (split; [discriminate|]); (split; [discriminate|]);
      eexists; (split; [reflexivity|]); (split; [reflexivity|]);
      repeat split; discriminate.
  - intros [b Hb]. destruct op; try discriminate Hb; cbn; eauto.
  - intros op' H. destruct op, op'; try reflexivity; discriminate H.
Qed.

Lemma mutation_tables_commute_witness :
  operatorReplacement LSS = Some GEQ /\ boundaryChange LSS = Some LEQ
  /\ boundaryChange GEQ = Some GTR /\ operatorReplacement LEQ = Some GTR.
Proof.
  destruct (mutation_tables_commute LSS) as (_ & H & _).
  destruct (H GEQ LEQ eq_refl eq_refl) as (_ & _ & _ & o & Hb & Hr & _).
  split; [reflexivity|]. split; [reflexivity|].
  assert (Ho : o = GTR) by (vm_compute in Hb; congruence). subst o. split; assumption.
Defined.

End MutationTables.

(** ** The scorer: a score that is not a number *)

Section ScorerNaN.
Implicit Types (s : Scorer.t) (results : list TechniqueResult.t).

Lemma is_nan_spec x : PrimFloat.is_nan x = true <-> Prim2SF x = S754_nan.
Proof.
  unfold is_nan. rewrite FloatAxioms.eqb_spec. pose proof (Prim2SF_valid x) as Hv.
  destruct (Prim2SF x) as [sg|sg| |sg m e] eqn:E.
  - split; [discriminate|discriminate].
  - split; [destruct sg; discriminate|discriminate].
  - split; reflexivity.
  - split; [|discriminate]. unfold SFeqb.
    rewrite (SFcompare_okey _ _ Hv Hv eq_refl eq_refl), Z.compare_refl. discriminate.
Qed.

Lemma fmul_nan_l x w : PrimFloat.is_nan x = true -> PrimFloat.is_nan (x * w)%float = true.
Proof.
  rewrite !is_nan_spec, FloatAxioms.mul_spec. intros ->. reflexivity.
Qed.

Lemma fadd_nan_r a x : PrimFloat.is_nan x = true -> PrimFloat.is_nan (a + x)%float = true.
Proof.
  rewrite !is_nan_spec, FloatAxioms.add_spec. intros ->.
  destruct (Prim2SF a); reflexivity.
Qed.

Lemma fadd_nan_l x a : PrimFloat.is_nan x = true -> PrimFloat.is_nan (x + a)%float = true.
Proof.
  rewrite !is_nan_spec, FloatAxioms.add_spec. intros ->. reflexivity.
Qed.

Lemma fdiv_nan_l x t : PrimFloat.is_nan x = true -> PrimFloat.is_nan (x / t)%float = true.
Proof.
  rewrite !is_nan_spec, FloatAxioms.div_spec. intros ->. reflexivity.
Qed.

Lemma fold_add_nan (l : list float) : forall acc,
  PrimFloat.is_nan acc = true -> PrimFloat.is_nan (fold_left PrimFloat.add l acc) = true.
Proof.
  induction l as [|x l IH]; intros acc H; [exact H|].
  cbn [fold_left]. apply IH. now apply fadd_nan_l.
Qed.

Lemma fold_add_nan_member (l : list float) : forall acc,
  Exists (fun x => PrimFloat.is_nan x = true) l ->
  PrimFloat.is_nan (fold_left PrimFloat.add l acc) = true.
Proof.
  induction l as [|x l IH]; intros acc H; [inversion H|].
  cbn [fold_left]. inversion H as [? ? Hx|? ? Hl]; subst.
  - apply fold_add_nan. now apply fadd_nan_r.
  - now apply IH.
Qed.

(** [Score] checks no score.  When one non-skip result among two or
    more carries a score that is not a number --- whatever the other
    scores and whatever the weights --- the composite is not a number
    either; it is returned with ValidScore=true and, reaching neither
    threshold, with the action human review. *)
Theorem Score_propagates_nan s results :
  2 <= length (nonSkip results) ->
  Exists (fun r => PrimFloat.is_nan (TechniqueResult.Score r) = true) (nonSkip results) ->
  let cr := Scorer_Score s results in
  CompositeResult.ValidScore cr = true
  /\ PrimFloat.is_nan (CompositeResult.CompositeScore cr) = true
  /\ in_unit_interval (CompositeResult.CompositeScore cr) = false
  /\ CompositeResult.Action cr = ActionHumanReview.
Proof.
  intros H2 Hnan cr. subst cr. rewrite (Score_above_floor s results H2). cbn zeta.
  cbn [CompositeResult.ValidScore CompositeResult.CompositeScore CompositeResult.Action].
  assert (Hc : PrimFloat.is_nan
                 (fsum (map (contribution s) (nonSkip results))
                  / fsum (map (weightOf s) (nonSkip results)))%float = true).
  { apply fdiv_nan_l. unfold fsum. apply fold_add_nan_member.
    apply Exists_exists in Hnan as (r & Hin & Hr). apply Exists_exists.
    exists (contribution s r). split; [apply list_elem_of_In, in_map, list_elem_of_In, Hin|].
    unfold contribution. now apply fmul_nan_l. }
  split; [reflexivity|]. split; [exact Hc|]. split.
  - unfold in_unit_interval. now rewrite (fleb_nan_r _ _ Hc).
  - unfold Scorer_actionFor, fge. now rewrite !(fleb_nan_r _ _ Hc).
Qed.

Lemma Score_propagates_nan_witness :
  CompositeResult.ValidScore (Scorer_Score (NewScorer DefaultScorerConfig) test_nan_score) = true
  /\ PrimFloat.is_nan
       (CompositeResult.CompositeScore
          (Scorer_Score (NewScorer DefaultScorerConfig) test_nan_score)) = true
  /\ CompositeResult.Action (Scorer_Score (NewScorer DefaultScorerConfig) test_nan_score)
     = ActionHumanReview.
Proof.
  destruct (Score_propagates_nan (NewScorer DefaultScorerConfig) test_nan_score)
    as (Hv & Hn & _ & Ha).
  - vm_compute. lia.
  - apply Exists_cons_tl, Exists_cons_hd. reflexivity.
  - auto.
Defined.

End ScorerNaN.
